(** * Version resolution of the .NET SDK installer (dotnet-install.py)

    A shallow embedding of the pure core of
    [images/ubuntu/scripts/helpers/dotnet-install.py]: parsing of release
    tags into [Version] tuples, their ordering, rendering and NuGet
    normalisation, tag filtering and sorting, and the two nearest-version
    searches ([find_closest_version_tag] and the [--tag] branch of
    [install_dotnet]).

    Modelling conventions.
    - Python [str] is [string]; the characters are the 8-bit [ascii]
      characters, so tags are taken to be ASCII text (for ASCII text
      [\d] is [0-9], and [int] accepts only the ASCII forms below).
    - Python [int] is [Z]; [str(n)] is stdpp's [pretty].
    - A raised exception is [Raise e] in the [result] monad; [typer.Exit]
      is [Exit], a failed [int(...)] or tuple unpacking is [ValueError], a
      failed dictionary subscript is [KeyError], a list index out of range
      is [IndexError].
    - [dict] is [gmap], [set] is [gset], a list index is [!!].
    - [typer.echo] appends a [notice] to an output log. *)

From Stdlib Require Import ZArith Ascii String Lia.
From stdpp Require Import base option list gmap strings pretty sorting.

Set Default Proof Using "Type".

(** ** Exceptions *)

Inductive exn : Type :=
  | ValueError
  | KeyError
  | IndexError
  | Exit.

Inductive result (A : Type) : Type :=
  | Ok (a : A)
  | Raise (e : exn).
Arguments Ok {A} a.
Arguments Raise {A} e.

#[global] Instance result_ret : MRet result := fun A a => Ok a.
#[global] Instance result_bind : MBind result := fun A B f m =>
  match m with
  | Ok a => f a
  | Raise e => Raise e
  end.
#[global] Instance result_fmap : FMap result := fun A B f m =>
  match m with
  | Ok a => Ok (f a)
  | Raise e => Raise e
  end.

(** [try: m except: h] is [try m except Exception: h]. *)
Definition try_except {A} (m : result A) (h : A) : A :=
  match m with
  | Ok a => a
  | Raise _ => h
  end.

(** [d[k]] on a dictionary. *)
Definition subscript `{Countable K} {V} (d : gmap K V) (k : K) : result V :=
  match d !! k with
  | Some v => Ok v
  | None => Raise KeyError
  end.

(** [map(f, xs)] forced to a tuple: the first failure is raised. *)
Fixpoint map_result {A B} (f : A -> result B) (xs : list A) : result (list B) :=
  match xs with
  | [] => Ok []
  | x :: xs' => y ← f x; ys ← map_result f xs'; Ok (y :: ys)
  end.

(** ** Python string primitives *)

Module Py.

Definition is_digit (c : ascii) : bool :=
  let n := nat_of_ascii c in (48 <=? n)%nat && (n <=? 57)%nat.

(** ASCII white space as skipped by [int]: TAB, LF, VT, FF, CR, SPACE. *)
Definition is_space (c : ascii) : bool :=
  let n := nat_of_ascii c in
  ((9 <=? n)%nat && (n <=? 13)%nat) || (n =? 32)%nat.

Definition digit_val (c : ascii) : Z := Z.of_nat (nat_of_ascii c) - 48.

(** [s.lstrip(c)] for a single character [c]. *)
Fixpoint lstrip (c : ascii) (s : string) : string :=
  match s with
  | String a r => if Ascii.eqb a c then lstrip c r else s
  | EmptyString => EmptyString
  end.

(** [s.partition(sep)] for a single character [sep]: the part before
    the first [sep], the separator found (or the empty string), and
    the part after it. *)
Fixpoint partition (sep : ascii) (s : string) : string * string * string :=
  match s with
  | EmptyString => (EmptyString, EmptyString, EmptyString)
  | String a r =>
      if Ascii.eqb a sep then (EmptyString, String sep EmptyString, r)
      else
        match partition sep r with
        | (h, EmptyString, _) => (s, EmptyString, EmptyString)
        | (h, f, t) => (String a h, f, t)
        end
  end.

(** [s.split(sep)] for a single character [sep]. *)
Fixpoint split (sep : ascii) (s : string) : list string :=
  match s with
  | EmptyString => [EmptyString]
  | String a r =>
      if Ascii.eqb a sep then EmptyString :: split sep r
      else
        match split sep r with
        | h :: t => String a h :: t
        | [] => [String a EmptyString]
        end
  end.

(** [sep.join(xs)]. *)
Fixpoint join (sep : string) (xs : list string) : string :=
  match xs with
  | [] => EmptyString
  | [x] => x
  | x :: xs' => x +:+ sep +:+ join sep xs'
  end.

(** [s.startswith(p)]. *)
Fixpoint startswith (s p : string) : bool :=
  match p, s with
  | EmptyString, _ => true
  | String b p', String a s' => Ascii.eqb a b && startswith s' p'
  | String _ _, EmptyString => false
  end.

(** [xs[:n]]. *)
Definition slice_to {A} (n : nat) (xs : list A) : list A := take n xs.

Fixpoint all_space (s : string) : bool :=
  match s with
  | EmptyString => true
  | String c r => is_space c && all_space r
  end.

Fixpoint skip_space (s : string) : string :=
  match s with
  | String c r => if is_space c then skip_space r else s
  | EmptyString => EmptyString
  end.

(** The digits of a decimal literal for [int]: digits, with single
    underscores allowed between two digits, followed by optional white
    space.  [after_digit] tells whether the previous character was a
    digit. *)
Fixpoint int_digits (s : string) (acc : Z) (after_digit : bool) : option Z :=
  match s with
  | EmptyString => if after_digit then Some acc else None
  | String c r =>
      if is_digit c then int_digits r (10 * acc + digit_val c) true
      else if Ascii.eqb c "_" then
        if after_digit then int_digits r acc false else None
      else if is_space c then
        if after_digit && all_space r then Some acc else None
      else None
  end.

(** [int(s)] in base ten: surrounding white space, an optional sign,
    then the digits.  CPython also refuses, with [ValueError], a numeral
    of more than 4300 digits ([sys.int_info.default_max_str_digits]);
    this limit is left out here, so that [int] agrees with CPython on
    numerals of at most that length ([within_digit_limit] below). *)
Definition int (s : string) : result Z :=
  let s := skip_space s in
  let '(sign, body) :=
    match s with
    | String "+" r => (1, r)
    | String "-" r => (-1, r)
    | _ => (1, s)
    end%Z in
  match int_digits body 0 false with
  | Some n => Ok (sign * n)%Z
  | None => Raise ValueError
  end.

(** [str(n)]. *)
Definition str (n : Z) : string := pretty n.

(** Truth value of a string. *)
Definition truthy (s : string) : bool :=
  match s with
  | EmptyString => false
  | _ => true
  end.

End Py.

(** ** Regular expressions of [parse_version]

    The two patterns are matched with [re.match], that is at the start of
    the suffix and without anchoring at its end.  Each is translated
    piece by piece. *)

Module Re.

(** Remove the literal prefix [p]. *)
Fixpoint lit (p s : string) : option string :=
  match p, s with
  | EmptyString, _ => Some s
  | String b p', String a s' => if Ascii.eqb a b then lit p' s' else None
  | String _ _, EmptyString => None
  end.

(** [(a1|a2|...)]: the alternatives are tried from left to right.  No
    stage name is a prefix of another, so at most one of them can match
    and no later alternative has to be retried on backtracking. *)
Fixpoint alt (alts : list string) (s : string) : option (string * string) :=
  match alts with
  | [] => None
  | a :: alts' =>
      match lit a s with
      | Some r => Some (a, r)
      | None => alt alts' s
      end
  end.

(** Greedy [c+] for a character class: the longest run and the rest. *)
Fixpoint span (p : ascii -> bool) (s : string) : string * string :=
  match s with
  | String a r =>
      if p a then let '(h, t) := span p r in (String a h, t)
      else (EmptyString, s)
  | EmptyString => (EmptyString, EmptyString)
  end.

Definition plus (p : ascii -> bool) (s : string) : option (string * string) :=
  match span p s with
  | (EmptyString, _) => None
  | (h, t) => Some (h, t)
  end.

Definition digit_or_dot (c : ascii) : bool :=
  Py.is_digit c || Ascii.eqb c ".".

Definition stages : list string := ["alpha"; "preview"; "rc"; "rtm"].

(** [(alpha|preview|rc|rtm)\.(\d+)\.([\d.]+)]: groups 1, 2 and 3.  The
    greedy [\d+] is followed by a literal dot, so giving back digits
    cannot make the match succeed; [[\d.]+] ends the pattern and keeps
    its longest run. *)
Definition full_match (suffix : string) : option (string * string * string) :=
  '(stage, r) ← alt stages suffix;
  r ← lit "." r;
  '(number, r) ← plus Py.is_digit r;
  r ← lit "." r;
  '(build, _) ← plus digit_or_dot r;
  Some (stage, number, build).

(** [(alpha|preview|rc|rtm)\.([\d.]+)]: groups 1 and 2. *)
Definition simple_match (suffix : string) : option (string * string) :=
  '(stage, r) ← alt stages suffix;
  r ← lit "." r;
  '(build, _) ← plus digit_or_dot r;
  Some (stage, build).

End Re.

(** ** Versions *)

Record Version : Type := mkVersion {
  major : Z;
  minor : Z;
  patch : Z;
  stage_priority : Z;
  stage_number : Z;
  build : list Z
}.

#[global] Instance Version_eq_dec : EqDecision Version.
Proof. solve_decision. Defined.

Definition Version_to_tuple (v : Version) : Z * Z * Z * Z * Z * list Z :=
  (major v, minor v, patch v, stage_priority v, stage_number v, build v).

Definition Version_of_tuple (t : Z * Z * Z * Z * Z * list Z) : Version :=
  let '(a, b, c, d, e, f) := t in mkVersion a b c d e f.

#[global] Instance Version_countable : Countable Version :=
  inj_countable' Version_to_tuple Version_of_tuple
    (fun v => match v with mkVersion _ _ _ _ _ _ => eq_refl end).

(** The priority table of [parse_version]; the key [None] is the stable
    release without suffix. *)
Definition stage_priority_map : gmap (option string) Z :=
  {[ Some "alpha" := 0%Z; Some "preview" := 1%Z; Some "rc" := 2%Z;
     Some "rtm" := 3%Z; None := 4%Z ]}.

(** [d.get(k, default)]. *)
Definition dict_get `{Countable K} {V} (d : gmap K V) (k : K) (dflt : V) : V :=
  default dflt (d !! k).

(** [major, minor, patch = map(int, parts[:3])]. *)
Definition unpack3 (xs : list Z) : result (Z * Z * Z) :=
  match xs with
  | [a; b; c] => Ok (a, b, c)
  | _ => Raise ValueError
  end.

Definition parse_build (s : string) : result (list Z) :=
  map_result Py.int (Py.split "." s).

(** The [if suffix:] block: stage, stage number and build. *)
Definition parse_suffix (suffix : string)
    : result (option string * Z * list Z) :=
  if Py.truthy suffix then
    match Re.full_match suffix with
    | Some (stage, number, bld) =>
        n ← Py.int number;
        b ← parse_build bld;
        Ok (Some stage, n, b)
    | None =>
        match Re.simple_match suffix with
        | Some (stage, bld) =>
            b ← parse_build bld;
            Ok (Some stage, 0%Z, b)
        | None => Ok (Some "unknown", 0%Z, [])
        end
    end
  else Ok (None, 0%Z, []).

Definition parse_version (tag : string) : result Version :=
  let tag := Py.lstrip "v" tag in
  let '(base_part, _, suffix) := Py.partition "-" tag in
  let parts := Py.split "." base_part in
  ints ← map_result Py.int (Py.slice_to 3 parts);
  '(major, minor, patch) ← unpack3 ints;
  '(stage, stage_number, build) ← parse_suffix suffix;
  Ok (mkVersion major minor patch
        (dict_get stage_priority_map stage (-1)%Z) stage_number build).

(** The stage names of [version_to_string] and
    [normalized_version_for_nuget]. *)
Definition stage_names : gmap Z string :=
  {[ 0%Z := "alpha"; 1%Z := "preview"; 2%Z := "rc"; 3%Z := "rtm" ]}.

Definition stage_suffix (v : Version) : result string :=
  suffix ← subscript stage_names (stage_priority v);
  let build := Py.join "." (Py.str <$> build v) in
  Ok ("-" +:+ suffix +:+ "." +:+ Py.str (stage_number v) +:+ "." +:+ build).

Definition version_to_string (v : Version) : result string :=
  let base := Py.str (major v) +:+ "." +:+ Py.str (minor v)
              +:+ "." +:+ Py.str (patch v) in
  if decide (stage_priority v < 4)%Z then
    sfx ← stage_suffix v; Ok (base +:+ sfx)
  else Ok base.

Definition normalized_version_for_nuget (v : Version) : result string :=
  let base := Py.str (major v) +:+ "." +:+ Py.str (minor v) +:+ ".0" in
  if decide (stage_priority v < 4)%Z then
    sfx ← stage_suffix v; Ok (base +:+ sfx)
  else Ok base.

Definition is_version_in_nuget (nuget_versions : gset string) (version : Version)
    : result bool :=
  key ← normalized_version_for_nuget version;
  Ok (bool_decide (key ∈ nuget_versions)).

(** ** Ordering

    [Version] is a [NamedTuple], so [<], [==] and [sort] use Python's
    tuple comparison: the first position at which the two tuples differ
    decides; when one is a prefix of the other the shorter is smaller. *)

(** Continue with the next position only when this one is equal. *)
Definition then_compare (c : comparison) (rest : comparison) : comparison :=
  match c with
  | Eq => rest
  | _ => c
  end.

Fixpoint tuple_compare (xs ys : list Z) : comparison :=
  match xs, ys with
  | [], [] => Eq
  | [], _ :: _ => Lt
  | _ :: _, [] => Gt
  | x :: xs', y :: ys' => then_compare (x ?= y)%Z (tuple_compare xs' ys')
  end.

Definition version_compare (a b : Version) : comparison :=
  then_compare (major a ?= major b)%Z
  (then_compare (minor a ?= minor b)%Z
  (then_compare (patch a ?= patch b)%Z
  (then_compare (stage_priority a ?= stage_priority b)%Z
  (then_compare (stage_number a ?= stage_number b)%Z
  (tuple_compare (build a) (build b)))))).

(** [a < b], [a > b] and [a <= b]; [a == b] is equality of the six
    fields, that is [a = b]. *)
Definition version_lt (a b : Version) : Prop := version_compare a b = Lt.
Definition version_gt (a b : Version) : Prop := version_compare a b = Gt.
Definition version_le (a b : Version) : Prop := version_compare a b <> Gt.

#[global] Instance comparison_eq_dec : EqDecision comparison.
Proof. solve_decision. Defined.
#[global] Instance version_lt_dec a b : Decision (version_lt a b).
Proof. unfold version_lt. apply _. Defined.
#[global] Instance version_le_dec a b : Decision (version_le a b).
Proof. unfold version_le. apply _. Defined.

(** ** Sorting and bisection

    [parsed_tags.sort()] sorts versions in ascending order.  Two versions
    that compare equal are the same tuple, so the sorted list does not
    depend on the sorting algorithm; stdpp's [merge_sort] stands for it. *)

Definition sort_versions (l : list Version) : list Version :=
  merge_sort version_le l.

(** [sorted(xs, key=..., reverse=True)] on items already paired with
    their keys.  Python's sort is stable, also when reversed: items with
    equal keys keep their original order.  An item is inserted in front
    of the first item of the sorted tail whose key is not greater. *)
Fixpoint insert_desc {A} (x : Version * A) (l : list (Version * A))
    : list (Version * A) :=
  match l with
  | [] => [x]
  | y :: l' =>
      if decide (version_lt (fst x) (fst y)) then y :: insert_desc x l'
      else x :: l
  end.

Definition sort_by_key_desc {A} (l : list (Version * A)) : list (Version * A) :=
  foldr insert_desc [] l.

(** The loop of [bisect.bisect_left(a, x)]:
    [while lo < hi: mid = (lo + hi) // 2; if a[mid] < x: lo = mid + 1
    else: hi = mid].  It runs at most [hi - lo] times, which is the fuel
    given by [bisect_left].  [mid] is below [hi], so [a[mid]] exists when
    [hi] is at most the length of [a]. *)
Fixpoint bisect_loop (fuel : nat) (a : list Version) (x : Version)
    (lo hi : nat) : nat :=
  match fuel with
  | O => lo
  | S fuel' =>
      if decide (lo < hi) then
        let mid := (lo + hi) `div` 2 in
        match a !! mid with
        | Some y =>
            if decide (version_lt y x) then bisect_loop fuel' a x (mid + 1) hi
            else bisect_loop fuel' a x lo mid
        | None => lo
        end
      else lo
  end.

Definition bisect_left (a : list Version) (x : Version) : nat :=
  bisect_loop (length a) a x 0 (length a).

(** [a[i]] for a non-negative index. *)
Definition list_index {A} (a : list A) (i : nat) : result A :=
  match a !! i with
  | Some x => Ok x
  | None => Raise IndexError
  end.

(** ** Release tags

    A release is the JSON object returned by GitHub, a dictionary; only
    its ["tag_name"] entry is read. *)

Abbreviation release := (gmap string string).

Definition mk_release (name : string) : release := {[ "tag_name" := name ]}.

(** The [for tag in all_tags: try: ... except Exception: continue] loop
    shared by [find_closest_version_tag] and [install_dotnet]: the tags
    that parse (and satisfy [keep]) are appended to the list and entered
    in the dictionary, later entries overwriting earlier ones. *)
Definition collect_step (keep : Version -> bool)
    (st : list Version * gmap Version string) (tag : release)
    : list Version * gmap Version string :=
  try_except
    (name ← subscript tag "tag_name";
     v ← parse_version name;
     Ok (if keep v then (st.1 ++ [v], <[v := name]> st.2) else st))
    st.

Definition collect (keep : Version -> bool) (all_tags : list release)
    : list Version * gmap Version string :=
  foldl (collect_step keep) ([], ∅) all_tags.

Definition find_closest_version_tag (all_tags : list release)
    (input_tag : string) : result string :=
  let normalized :=
    if Py.startswith input_tag "v" then input_tag else "v" +:+ input_tag in
  let '(parsed_tags, version_to_tag_map) := collect (fun _ => true) all_tags in
  let parsed_tags := sort_versions parsed_tags in
  target_version ← parse_version normalized;
  match version_to_tag_map !! target_version with
  | Some t => Ok t
  | None =>
      let index := bisect_left parsed_tags target_version in
      if decide (0 < index) then
        v ← list_index parsed_tags (index - 1);
        subscript version_to_tag_map v
      else if decide (index < length parsed_tags) then
        v ← list_index parsed_tags index;
        subscript version_to_tag_map v
      else Raise Exit
  end.

(** ** Output

    The messages of [typer.echo], without their decoration. *)

Inductive notice : Type :=
  | ExactTagNotFound (chosen : string)
  | NoMatchingVersion (tag_input : string)
  | NoReleaseForMajor
  | FetchingNuget
  | UsingNearest (chosen : string)
  | NoCompatibleVersion (tag : string)
  | ResolvedTag (chosen : string).

(** A computation that writes to the log and may raise; what was written
    before an exception stays written. *)
Definition io (A : Type) : Type := list notice -> list notice * result A.

#[global] Instance io_ret : MRet io := fun A a log => (log, Ok a).
#[global] Instance io_bind : MBind io := fun A B f m log =>
  match m log with
  | (log', Ok a) => f a log'
  | (log', Raise e) => (log', Raise e)
  end.

Definition echo (n : notice) : io unit := fun log => (log ++ [n], Ok tt).
Definition raise {A} (e : exn) : io A := fun log => (log, Raise e).
Definition lift {A} (r : result A) : io A := fun log => (log, r).
Definition run {A} (m : io A) : list notice * result A := m [].

(** Truth value of an optional string ([None] and the empty string are
    false). *)
Definition truthy_opt (s : option string) : bool :=
  match s with
  | Some s => Py.truthy s
  | None => false
  end.

(** A list comprehension whose condition may raise. *)
Fixpoint filter_result {A} (f : A -> result bool) (xs : list A)
    : result (list A) :=
  match xs with
  | [] => Ok []
  | x :: xs' =>
      b ← f x; ys ← filter_result f xs'; Ok (if b : bool then x :: ys else ys)
  end.

(** ** Filtering by prefix

    [re.escape(norm_prefix).replace(r'\*', '.*')] turns every character
    of the filter into itself, taken literally, except [*], which
    becomes [.*]; the pattern is then searched for, ignoring case, after
    an optional [v]. *)

Module Filter.

Inductive atom : Type :=
  | Lit (c : ascii)
  | AnyRun.

Fixpoint compile (p : string) : list atom :=
  match p with
  | EmptyString => []
  | String c r => (if Ascii.eqb c "*" then AnyRun else Lit c) :: compile r
  end.

Definition lower (c : ascii) : ascii :=
  let n := nat_of_ascii c in
  if (65 <=? n)%nat && (n <=? 90)%nat then ascii_of_nat (n + 32) else c.

(** Equality of characters under [re.IGNORECASE]. *)
Definition ci_eqb (a b : ascii) : bool := Ascii.eqb (lower a) (lower b).

(** [.] matches every character but the line feed. *)
Definition dot (a : ascii) : bool := negb (Ascii.eqb a "010").

(** The pattern matches at the start of [s]. *)
Fixpoint match_here (pat : list atom) : string -> bool :=
  match pat with
  | [] => fun _ => true
  | Lit c :: pat' => fun s =>
      match s with
      | String a r => ci_eqb a c && match_here pat' r
      | EmptyString => false
      end
  | AnyRun :: pat' =>
      fix any_run (s : string) : bool :=
        match_here pat' s ||
        match s with
        | String a r => dot a && any_run r
        | EmptyString => false
        end
  end.

(** [v?] followed by the pattern, at the start of [s]. *)
Definition match_at (pat : list atom) (s : string) : bool :=
  match s with
  | String a r => (ci_eqb a "v" && match_here pat r) || match_here pat s
  | EmptyString => match_here pat s
  end.

(** [regex.search(s)]: a match at some position. *)
Fixpoint search (pat : list atom) (s : string) : bool :=
  match_at pat s ||
  match s with
  | String _ r => search pat r
  | EmptyString => false
  end.

End Filter.

(** [sorted(tags, key=lambda x: parse_version(x["tag_name"]),
    reverse=True)]: the keys of all items are computed first, in list
    order. *)
Definition sorted_by_version_desc (tags : list release) : result (list release) :=
  keyed ← map_result
    (fun t => name ← subscript t "tag_name"; k ← parse_version name; Ok (k, t))
    tags;
  Ok (snd <$> sort_by_key_desc keyed).

Definition filter_and_sort_tags (tags : list release) (prefix : option string)
    : result (list release) :=
  let filtered := List.filter (fun t => truthy_opt (t !! "tag_name")) tags in
  filtered ←
    match prefix with
    | Some p =>
        if Py.truthy p then
          let norm_prefix :=
            match p with
            | String "v" r => r
            | _ => p
            end in
          let regex := Filter.compile norm_prefix in
          filter_result
            (fun t => name ← subscript t "tag_name"; Ok (Filter.search regex name))
            filtered
        else Ok filtered
    | None => Ok filtered
    end;
  sorted_by_version_desc filtered.

Definition resolve_tag (tag_input : option string) (tags : list release)
    : io (option string) :=
  match tag_input with
  | Some input =>
      if Py.truthy input then
        matched ← lift (filter_result
          (fun t => name ← subscript t "tag_name"; Ok (String.eqb name input))
          tags);
        match matched with
        | t :: _ => name ← lift (subscript t "tag_name"); mret (Some name)
        | [] =>
            prefix_matches ← lift (filter_result
              (fun t => name ← subscript t "tag_name";
                        Ok (Py.startswith name input))
              tags);
            match prefix_matches with
            | _ :: _ =>
                sorted_matches ← lift (sorted_by_version_desc prefix_matches);
                t ← lift (list_index sorted_matches 0);
                chosen ← lift (subscript t "tag_name");
                _ ← echo (ExactTagNotFound chosen);
                mret (Some chosen)
            | [] =>
                _ ← echo (NoMatchingVersion input);
                raise Exit
            end
        end
      else mret None
  | None => mret None
  end.

(** ** Reconciliation with NuGet: the [--tag] branch of [install_dotnet] *)

Section fallback.

Variables (ibm_parsed : list Version) (version_to_tag_map : gmap Version string).
Variables (requested_version : Version) (nuget_set : gset string).
Variable idx : nat.

(** [for direction in [1, -1]: ...] at one offset; [chosen] is the
    variable of that name.  A hit leaves the loop ([break]). *)
Fixpoint search_directions (offset : nat) (directions : list Z)
    (chosen : option string) : io (option string) :=
  match directions with
  | [] => mret chosen
  | direction :: directions' =>
      let i := (Z.of_nat idx + direction * Z.of_nat offset)%Z in
      if decide (i < 0 \/ i >= Z.of_nat (length ibm_parsed))%Z then
        search_directions offset directions' chosen
      else
        candidate ← lift (list_index ibm_parsed (Z.to_nat i));
        if decide (major candidate <> major requested_version) then
          search_directions offset directions' chosen
        else
          hit ← lift (is_version_in_nuget nuget_set candidate);
          if hit : bool then
            chosen ← lift (subscript version_to_tag_map candidate);
            _ ← echo (UsingNearest chosen);
            mret (Some chosen)
          else search_directions offset directions' chosen
  end.

(** [for offset in range(len(ibm_parsed)): ...; if chosen: break]. *)
Fixpoint search_offsets (offsets : list nat) (chosen : option string)
    : io (option string) :=
  match offsets with
  | [] => mret chosen
  | offset :: offsets' =>
      chosen ← search_directions offset [1; -1]%Z chosen;
      if truthy_opt chosen then mret chosen
      else search_offsets offsets' chosen
  end.

End fallback.

(** [reconcile tag all_tags nuget_versions] is the block of
    [install_dotnet] that runs when [--tag] is given, from
    [requested_version = ...] to [selected_tag = chosen]; the
    specification calls it reconcile.  [all_tags] is the result of
    [get_all_tags()] and [nuget_versions] the result of
    [get_nuget_versions(NUGET_PACKAGE)]. *)
Definition reconcile (tag : string) (all_tags : list release)
    (nuget_versions : list string) : io string :=
  requested_version ← lift (parse_version (Py.lstrip "v" tag));
  let '(ibm_parsed, version_to_tag_map) :=
    collect (fun v => bool_decide (major v = major requested_version)) all_tags in
  match ibm_parsed with
  | [] => _ ← echo NoReleaseForMajor; raise Exit
  | _ :: _ =>
      let ibm_parsed := sort_versions ibm_parsed in
      let idx := bisect_left ibm_parsed requested_version in
      _ ← echo FetchingNuget;
      let nuget_set : gset string := list_to_set nuget_versions in
      chosen ←
        (if decide (idx < length ibm_parsed
                    /\ ibm_parsed !! idx = Some requested_version) then
           hit ← lift (is_version_in_nuget nuget_set requested_version);
           if hit : bool then
             t ← lift (subscript version_to_tag_map requested_version);
             mret (Some t)
           else mret None
         else mret None);
      chosen ←
        (if truthy_opt chosen then mret chosen
         else search_offsets ibm_parsed version_to_tag_map requested_version
                nuget_set idx (seq 0 (length ibm_parsed)) chosen);
      match chosen with
      | Some t =>
          if Py.truthy t then _ ← echo (ResolvedTag t); mret t
          else _ ← echo (NoCompatibleVersion tag); raise Exit
      | None => _ ← echo (NoCompatibleVersion tag); raise Exit
      end
  end.

(** ** Interactive selection: [select_tag_interactive]

    The lines written by [typer.echo] in this function, and the loop
    around [typer.prompt].  [answers] are the values that the successive
    calls of [typer.prompt] return; when they run out the function is
    still waiting for input, which is the outcome [None]. *)

Inductive menu_line : Type :=
  | NoMatchingTags
  | AvailableTags
  | LatestEntry
  | TagEntry (i : nat) (name : string)
  | MenuRule
  | InvalidChoice.

(** [choice.isdigit()] on ASCII text: not empty and digits only. *)
Definition isdigit (choice : string) : bool :=
  Py.truthy choice &&
  (fix digits (s : string) : bool :=
     match s with
     | EmptyString => true
     | String c r => Py.is_digit c && digits r
     end) choice.

(** [for i, tag in enumerate(filtered, start=1): echo(f"{i}) ...")]. *)
Fixpoint echo_entries (i : nat) (filtered : list release)
    (out : list menu_line) : list menu_line * result unit :=
  match filtered with
  | [] => (out, Ok tt)
  | t :: filtered' =>
      match subscript t "tag_name" with
      | Ok name => echo_entries (S i) filtered' (out ++ [TagEntry i name])
      | Raise e => (out, Raise e)
      end
  end.

(** [while True: choice = typer.prompt(...) ...]. *)
Fixpoint prompt_loop (filtered : list release) (answers : list string)
    (out : list menu_line) : list menu_line * option (result string) :=
  match answers with
  | [] => (out, None)
  | choice :: answers' =>
      if isdigit choice then
        match Py.int choice with
        | Raise e => (out, Some (Raise e))
        | Ok index =>
            if decide (index = 0)%Z then (out, Some (Ok "latest"))
            else if decide (1 <= index <= Z.of_nat (length filtered))%Z then
              (out, Some (t ← list_index filtered (Z.to_nat (index - 1));
                          subscript t "tag_name"))
            else prompt_loop filtered answers' (out ++ [InvalidChoice])
        end
      else prompt_loop filtered answers' (out ++ [InvalidChoice])
  end.

Definition select_tag_interactive (tags : list release)
    (filter_prefix : option string) (answers : list string)
    : list menu_line * option (result string) :=
  match filter_and_sort_tags tags filter_prefix with
  | Raise e => ([], Some (Raise e))
  | Ok [] => ([NoMatchingTags], Some (Raise Exit))
  | Ok filtered =>
      match echo_entries 1 filtered [AvailableTags; LatestEntry] with
      | (out, Raise e) => (out, Some (Raise e))
      | (out, Ok _) => prompt_loop filtered answers (out ++ [MenuRule])
      end
  end.

(** ** Fetching the catalog: [get_all_tags]

    [fetch_json] stands for the HTTP request; it is a parameter.  The
    loop asks for page 1, 2, ... until a page is empty; [fuel] bounds the
    number of requests, and [None] means that the bound was reached. *)

Definition GH_USER : string := "IBM".
Definition GH_REPO : string := "dotnet-s390x".

Definition releases_url (page : nat) : string :=
  "https://api.github.com/repos/" +:+ GH_USER +:+ "/" +:+ GH_REPO +:+
  "/releases?per_page=100&page=" +:+ pretty page.

Fixpoint get_all_tags_loop (fetch_json : string -> result (list release))
    (fuel page : nat) (all_tags : list release)
    : option (result (list release)) :=
  match fuel with
  | O => None
  | S fuel' =>
      match fetch_json (releases_url page) with
      | Raise e => Some (Raise e)
      | Ok [] => Some (Ok all_tags)
      | Ok page_data =>
          get_all_tags_loop fetch_json fuel' (page + 1) (all_tags ++ page_data)
      end
  end.

Definition get_all_tags (fetch_json : string -> result (list release))
    (fuel : nat) : option (result (list release)) :=
  get_all_tags_loop fetch_json fuel 1 [].

(** ** Notions of the specification

    The definitions below follow the words of the specification; the
    theorems compare them with the functions above. *)

(** "[build] compared element-wise as sequences (shorter sequence is a
    prefix and sorts lower)": either [xs] is a strict prefix of [ys], or
    after a common prefix the element of [xs] is the smaller one. *)
Definition seq_lt (xs ys : list Z) : Prop :=
  (exists zs, zs <> [] /\ ys = xs ++ zs) \/
  (exists p x y xs' ys',
     xs = p ++ x :: xs' /\ ys = p ++ y :: ys' /\ (x < y)%Z).

(** "ordering is lexicographic over (major, minor, patch, stagePriority,
    stageNumber, build)". *)
Definition lex_lt (a b : Version) : Prop :=
  (major a < major b)%Z \/ (major a = major b /\
  ((minor a < minor b)%Z \/ (minor a = minor b /\
  ((patch a < patch b)%Z \/ (patch a = patch b /\
  ((stage_priority a < stage_priority b)%Z \/
     (stage_priority a = stage_priority b /\
  ((stage_number a < stage_number b)%Z \/ (stage_number a = stage_number b /\
  seq_lt (build a) (build b)))))))))).

(** An insertion point [n] of [x] in the list [a]: every element before
    position [n] is smaller than [x] ([below]), and no element from
    position [n] on is ([above]). *)
Definition below (a : list Version) (x : Version) (n : nat) : Prop :=
  forall i v, i < n -> a !! i = Some v -> version_lt v x.

Definition above (a : list Version) (x : Version) (n : nat) : Prop :=
  forall i v, n <= i -> a !! i = Some v -> ~ version_lt v x.

(** The stages from lowest to highest; ["unknown"] is the name
    [parse_version] gives to an unrecognised suffix and [None] is the
    stable release. *)
Definition stage_order : list (option string) :=
  [Some "unknown"; Some "alpha"; Some "preview"; Some "rc"; Some "rtm"; None].

(** The stage-name table of the specification, "0..3 to
    alpha/preview/rc/rtm". *)
Definition spec_stage_name (priority : Z) : string :=
  match priority with
  | 0 => "alpha"
  | 1 => "preview"
  | 2 => "rc"
  | 3 => "rtm"
  | _ => ""
  end%Z.


(** A string in the full format, written with plain decimal numbers:
    [major.minor.patch-stage.number.b1.b2...]. *)
Definition full_format (M m p : N) (stage : string) (n : N) (b : list N)
    : string :=
  (pretty M +:+ "." +:+ pretty m +:+ "." +:+ pretty p) +:+
  "-" +:+ stage +:+ "." +:+ pretty n +:+ "." +:+ Py.join "." (pretty <$> b).

(** The code's own notion of a string in the full format: the base part
    gives three integers and the suffix matches the full pattern. *)
Definition matches_full (s : string) : Prop :=
  let '(base_part, _, suffix) := Py.partition "-" (Py.lstrip "v" s) in
  (exists ints, map_result Py.int (Py.slice_to 3 (Py.split "." base_part))
                = Ok ints /\ length ints = 3) /\
  is_Some (Re.full_match suffix).

(** The base part of a tag "parses as three dot-separated numeric
    components". *)
Definition base_parses (tag : string) : Prop :=
  let '(base_part, _, _) := Py.partition "-" (Py.lstrip "v" tag) in
  exists a b c, map_result Py.int (Py.slice_to 3 (Py.split "." base_part))
                = Ok [a; b; c].

(** [render(parse(s))]. *)
Definition render_parse (s : string) : result string :=
  v ← parse_version s; version_to_string v.

(** The version of the stable release [M.m.p], a tag without suffix. *)
Definition stable (M m p : Z) : Version := mkVersion M m p 4 0 [].

(** The tag name [name] passes the filter [prefix] of
    [filter_and_sort_tags]: there is no filter, or the pattern made from
    it is found in the name. *)
Definition passes_filter (prefix : option string) (name : string) : Prop :=
  match prefix with
  | Some p =>
      Py.truthy p = true ->
      Filter.search
        (Filter.compile match p with String "v" r => r | _ => p end) name
      = true
  | None => True
  end.

(** Every character of [s] satisfies [p]. *)
Fixpoint all_chars (p : ascii -> bool) (s : string) : bool :=
  match s with
  | EmptyString => true
  | String c r => p c && all_chars p r
  end.

(** The number written by the digits of [s], continuing from [acc]. *)
Fixpoint digits_value (s : string) (acc : Z) : Z :=
  match s with
  | EmptyString => acc
  | String c r => digits_value r (10 * acc + Py.digit_val c)
  end.

Definition is_not (sep : ascii) (c : ascii) : bool := negb (Ascii.eqb c sep).

(** A release of the catalog whose tag name is [name] and parses to [v]. *)
Definition catalog_has (all_tags : list release) (name : string) (v : Version)
    : Prop :=
  exists t, t ∈ all_tags /\ t !! "tag_name" = Some name
            /\ parse_version name = Ok v.

(** A tag of the build catalog that is compatible with the request: it
    parses, has the requested major version, and its normalized key is in
    the registry set. *)
Definition compatible (requested : Version) (nuget_versions : list string)
    (all_tags : list release) (name : string) : Prop :=
  exists v key, catalog_has all_tags name v /\ major v = major requested /\
    normalized_version_for_nuget v = Ok key /\ key ∈ nuget_versions.

(** The candidate probed by the fallback search at [offset] in
    [direction], when the index is in bounds. *)
Definition probed (ibm_parsed : list Version) (idx offset : nat)
    (direction : Z) (c : Version) : Prop :=
  let i := (Z.of_nat idx + direction * Z.of_nat offset)%Z in
  (0 <= i < Z.of_nat (length ibm_parsed))%Z /\
  ibm_parsed !! Z.to_nat i = Some c.

(** A hit of the fallback search: a candidate with the requested major
    whose key is in the registry, and the tag name the dictionary has
    for it. *)
Definition hit_of (ibm_parsed : list Version)
    (version_to_tag_map : gmap Version string) (requested : Version)
    (nuget_set : gset string) (c : Version) (name : string) : Prop :=
  c ∈ ibm_parsed /\ major c = major requested /\
  is_version_in_nuget nuget_set c = Ok true /\
  version_to_tag_map !! c = Some name.

(** Why the fallback search can raise [e]: the registry test of a
    candidate with the requested major raises it, or the dictionary has
    no entry for a candidate that passed the test. *)
Definition raise_cause (ibm_parsed : list Version)
    (version_to_tag_map : gmap Version string) (requested : Version)
    (nuget_set : gset string) (e : exn) : Prop :=
  exists c, c ∈ ibm_parsed /\ major c = major requested /\
    (is_version_in_nuget nuget_set c = Raise e \/
     (is_version_in_nuget nuget_set c = Ok true /\
      version_to_tag_map !! c = None /\ e = KeyError)).

(** The shape of the versions that [parse_version] builds: no negative
    number; a stable or unknown-stage version has stage number 0 and an
    empty build; a prerelease version has a non-empty build. *)
Definition well_formed (v : Version) : Prop :=
  (0 <= major v)%Z /\ (0 <= minor v)%Z /\ (0 <= patch v)%Z /\
  (0 <= stage_number v)%Z /\ Forall (fun x => 0 <= x)%Z (build v) /\
  (((stage_priority v = 4 \/ stage_priority v = -1)%Z /\
    stage_number v = 0%Z /\ build v = []) \/
   ((0 <= stage_priority v < 4)%Z /\ build v <> [])).

(** The version [v] with its patch replaced. *)
Definition with_patch (p : Z) (v : Version) : Version :=
  mkVersion (major v) (minor v) p (stage_priority v) (stage_number v) (build v).

(** The pattern that [filter_and_sort_tags] searches for, when there is
    a filter. *)
Definition filter_regex (prefix : option string) : option (list Filter.atom) :=
  match prefix with
  | Some p =>
      if Py.truthy p then
        Some (Filter.compile match p with String "v" r => r | _ => p end)
      else None
  | None => None
  end.

(** The tags that [filter_and_sort_tags] keeps: a non-empty name in which
    the pattern is found. *)
Definition selects (prefix : option string) (t : release) : bool :=
  match t !! "tag_name" with
  | Some name =>
      Py.truthy name &&
      match filter_regex prefix with
      | Some regex => Filter.search regex name
      | None => true
      end
  | None => false
  end.

(** [a] comes before [b] in a list sorted by descending version: the
    version of [b] is not greater. *)
Definition tag_ge (a b : release) : Prop :=
  forall na nb va vb,
    a !! "tag_name" = Some na -> parse_version na = Ok va ->
    b !! "tag_name" = Some nb -> parse_version nb = Ok vb ->
    version_le vb va.

(** The pattern searched for without the optional leading [v]. *)
Fixpoint search_plain (pat : list Filter.atom) (s : string) : bool :=
  Filter.match_here pat s ||
  match s with
  | String _ r => search_plain pat r
  | EmptyString => false
  end.

(** [x] is the first item of [l] with the greatest key. *)
Definition first_max {A} (l : list (Version * A)) (x : Version * A) : Prop :=
  exists i, l !! i = Some x /\
    (forall y, y ∈ l -> version_le (fst y) (fst x)) /\
    (forall j y, j < i -> l !! j = Some y -> version_lt (fst y) (fst x)).

(** Descending order of keyed items. *)
Definition key_desc {A} (a b : Version * A) : Prop :=
  version_le (fst b) (fst a).

(** The condition of a list comprehension over tags that have a name. *)
Definition tag_name_satisfies (P : string -> bool) (t : release) : bool :=
  match t !! "tag_name" with
  | Some name => P name
  | None => false
  end.

(** [s] starts with [p], ignoring the case of letters. *)
Fixpoint ci_prefix (p s : string) : bool :=
  match p, s with
  | EmptyString, _ => true
  | String b p', String a s' => Filter.ci_eqb a b && ci_prefix p' s'
  | String _ _, EmptyString => false
  end.

(** [s] contains [p], ignoring the case of letters. *)
Definition contains_ci (p s : string) : Prop :=
  exists pre post, s = pre +:+ post /\ ci_prefix p post = true.

(** The longest numeral, in digits, that [int] of CPython converts
    ("sys.int_info.default_max_str_digits"), and the numbers whose
    decimal numeral is within it. *)
Definition max_str_digits : nat := 4300.

Definition within_digit_limit (x : N) : Prop :=
  String.length (pretty x) <= max_str_digits.

(** The suffix of a tag: what follows the first ["-"], after the leading
    ["v"]s are dropped. *)
Definition tag_suffix (tag : string) : string :=
  (Py.partition "-" (Py.lstrip "v" tag)).2.

(** The suffix names the stage [s], in the full or in the short pattern:
    it starts with [s], a dot, and the first character of a numeric
    tail, which is a digit or a dot. *)
Definition names_stage (s suffix : string) : Prop :=
  exists c, (Py.is_digit c = true \/ c = "."%char) /\
    Py.startswith suffix (s +:+ "." +:+ String c "") = true.

(** The stage of a tag, an entry of [stage_order]: stable ([None]) when
    the tag has no suffix; a stage name when the suffix names it;
    ["unknown"] when there is a suffix that names none of the other
    stages of [stage_order]. *)
Definition tag_stage (tag : string) (stage : option string) : Prop :=
  match stage with
  | None => tag_suffix tag = ""
  | Some s =>
      tag_suffix tag <> "" /\
      if String.eqb s "unknown" then
        forall s', Some s' ∈ stage_order -> s' <> "unknown" ->
                   ~ names_stage s' (tag_suffix tag)
      else names_stage s (tag_suffix tag)
  end.

(** The versions of the catalog tags that parse and have the major of
    the request, in catalog order and as often as they occur. *)
Definition major_versions (requested : Version) (all_tags : list release)
    : list Version :=
  omap (fun t : release =>
          match t !! "tag_name" with
          | Some name =>
              match parse_version name with
              | Ok v =>
                  if decide (major v = major requested) then Some v else None
              | Raise _ => None
              end
          | None => None
          end) all_tags.

(** A version whose normalized key is in the registry. *)
Definition registered (nuget_versions : list string) (v : Version) : Prop :=
  exists key, normalized_version_for_nuget v = Ok key /\ key ∈ nuget_versions.

(** The offset of position [i] from the insertion point [idx]. *)
Definition offset_from (idx i : nat) : nat := (i - idx) + (idx - i).

(** "searching for the nearest version ... with deterministic
    tie-breaking": [v] at position [i] is the registered version of
    [sorted] nearest to the insertion point [idx].  No registered version
    is at a smaller offset, and one at the same offset is at a position
    that is not higher ("direction +1 tried before -1"). *)
Definition nearest_registered (nuget_versions : list string)
    (sorted : list Version) (idx i : nat) (v : Version) : Prop :=
  sorted !! i = Some v /\ registered nuget_versions v /\
  forall j w, sorted !! j = Some w -> registered nuget_versions w ->
    offset_from idx i < offset_from idx j \/
    (offset_from idx i = offset_from idx j /\ j <= i).

(** * Properties *)

(** ** The ordering of versions *)

Section ordering.

Implicit Types (a b c : Version) (xs ys zs : list Z).

Lemma then_compare_Eq (x y : Z) (r : comparison) :
  then_compare (x ?= y)%Z r = Eq <-> x = y /\ r = Eq.
Proof.
  destruct (Z.compare_spec x y); simpl; split;
    try (intros []; lia); try discriminate; auto.
  intros [_ ->]; reflexivity.
Qed.

Lemma then_compare_Lt (x y : Z) (r : comparison) :
  then_compare (x ?= y)%Z r = Lt <-> (x < y)%Z \/ (x = y /\ r = Lt).
Proof.
  destruct (Z.compare_spec x y); simpl;
    intuition (try lia; try discriminate).
Qed.

Lemma then_compare_opp (x y : Z) (r r' : comparison) :
  r' = CompOpp r ->
  then_compare (y ?= x)%Z r' = CompOpp (then_compare (x ?= y)%Z r).
Proof.
  intros ->. rewrite (Z.compare_antisym x y).
  destruct (x ?= y)%Z; reflexivity.
Qed.

Lemma tuple_compare_Eq xs ys : tuple_compare xs ys = Eq <-> xs = ys.
Proof.
  revert ys; induction xs as [|x xs IH]; intros [|y ys]; simpl;
    try (split; [discriminate | congruence]); [tauto|].
  rewrite then_compare_Eq, IH. split; [intros [-> ->]|intros [= -> ->]]; auto.
Qed.

Lemma tuple_compare_opp xs ys :
  tuple_compare ys xs = CompOpp (tuple_compare xs ys).
Proof.
  revert ys; induction xs as [|x xs IH]; intros [|y ys]; simpl; auto.
  apply then_compare_opp, IH.
Qed.

Lemma tuple_compare_Lt_step (x y : Z) xs ys :
  tuple_compare (x :: xs) (y :: ys) = Lt
  <-> (x < y)%Z \/ (x = y /\ tuple_compare xs ys = Lt).
Proof. apply then_compare_Lt. Qed.

Lemma tuple_compare_trans xs ys zs :
  tuple_compare xs ys = Lt -> tuple_compare ys zs = Lt ->
  tuple_compare xs zs = Lt.
Proof.
  revert ys zs; induction xs as [|x xs IH]; intros [|y ys] [|z zs];
    try discriminate; auto.
  rewrite !tuple_compare_Lt_step.
  intros [?|[-> ?]] [?|[-> ?]]; try (left; lia).
  right; split; [reflexivity | eauto].
Qed.

(** The element-wise comparison of the code is the sequence order of
    the specification. *)
Lemma tuple_compare_seq_lt xs ys : tuple_compare xs ys = Lt <-> seq_lt xs ys.
Proof.
  revert ys; induction xs as [|x xs IH]; intros [|y ys].
  - simpl. split; [discriminate|].
    intros [(zs & Hz & E)|(p & x & y & xs' & ys' & E & _)].
    + simpl in E. congruence.
    + destruct p; discriminate.
  - simpl. split; [|reflexivity]. intros _. left. exists (y :: ys). split; [discriminate|reflexivity].
  - simpl. split; [discriminate|].
    intros [(zs & Hz & E)|(p & a & b & xs' & ys' & _ & E & _)].
    + discriminate.
    + destruct p; discriminate.
  - rewrite tuple_compare_Lt_step, IH. split.
    + intros [Hlt|[-> [(zs & Hz & E)|(p & a & b & xs' & ys' & E1 & E2 & Hab)]]].
      * right. exists [], x, y, xs, ys. auto.
      * left. exists zs. subst. auto.
      * right. exists (y :: p), a, b, xs', ys'. subst. auto.
    + intros [(zs & Hz & E)|(p & a & b & xs' & ys' & E1 & E2 & Hab)].
      * simpl in E. injection E as -> ->. right. split; auto.
        left. exists zs. auto.
      * destruct p as [|q p]; simpl in *.
        -- injection E1 as -> ->. injection E2 as -> ->. left. lia.
        -- injection E1 as -> ->. injection E2 as -> ->. right. split; auto.
           right. exists p, a, b, xs', ys'. auto.
Qed.

Lemma version_compare_Eq a b : version_compare a b = Eq <-> a = b.
Proof.
  unfold version_compare. rewrite !then_compare_Eq, tuple_compare_Eq.
  destruct a, b; simpl. split.
  - intros (-> & -> & -> & -> & -> & ->). reflexivity.
  - intros [= -> -> -> -> -> ->]. tauto.
Qed.

Lemma version_compare_opp a b :
  version_compare b a = CompOpp (version_compare a b).
Proof.
  unfold version_compare.
  repeat apply then_compare_opp. apply tuple_compare_opp.
Qed.

Lemma version_compare_refl a : version_compare a a = Eq.
Proof. apply version_compare_Eq. reflexivity. Qed.

Lemma version_gt_lt a b : version_gt a b <-> version_lt b a.
Proof.
  unfold version_gt, version_lt. rewrite (version_compare_opp a b).
  destruct (version_compare a b); simpl; split; congruence.
Qed.

Lemma version_lt_lex a b : version_lt a b <-> lex_lt a b.
Proof.
  unfold version_lt, version_compare, lex_lt.
  rewrite !then_compare_Lt, tuple_compare_seq_lt. reflexivity.
Qed.

Lemma version_lt_trans a b c :
  version_lt a b -> version_lt b c -> version_lt a c.
Proof.
  unfold version_lt, version_compare. rewrite !then_compare_Lt.
  intros H1 H2.
  repeat
    (destruct H1 as [?|[? H1]]; [left; destruct H2 as [?|[? _]]; lia|];
     destruct H2 as [?|[? H2]]; [left; lia|];
     right; split; [congruence|]).
  eapply tuple_compare_trans; eassumption.
Qed.

Lemma version_lt_irrefl a : ~ version_lt a a.
Proof. unfold version_lt. rewrite version_compare_refl. discriminate. Qed.

Lemma version_le_lt_or_eq a b : version_le a b <-> version_lt a b \/ a = b.
Proof.
  unfold version_le, version_lt. rewrite <- version_compare_Eq.
  destruct (version_compare a b); intuition congruence.
Qed.

Lemma version_le_not_lt a b : version_le a b <-> ~ version_lt b a.
Proof.
  unfold version_le, version_lt. rewrite (version_compare_opp a b).
  destruct (version_compare a b); simpl; split; congruence.
Qed.

#[global] Instance version_le_total : Total version_le.
Proof.
  intros a b. unfold version_le. rewrite (version_compare_opp a b).
  destruct (version_compare a b); simpl; [left|left|right]; discriminate.
Qed.

#[global] Instance version_le_trans : Transitive version_le.
Proof.
  intros a b c. rewrite !version_le_lt_or_eq.
  intros [?| ->] [?| ->]; eauto using version_lt_trans.
Qed.

#[global] Instance version_le_antisym : AntiSymm (=) version_le.
Proof.
  intros a b. rewrite !version_le_lt_or_eq.
  intros [H1| ->] [H2|?]; auto.
  destruct (version_lt_irrefl a). eauto using version_lt_trans.
Qed.

Lemma version_lt_le_trans a b c :
  version_lt a b -> version_le b c -> version_lt a c.
Proof.
  rewrite version_le_lt_or_eq. intros ? [?| ->]; eauto using version_lt_trans.
Qed.

Lemma version_le_lt_trans a b c :
  version_le a b -> version_lt b c -> version_lt a c.
Proof.
  rewrite version_le_lt_or_eq. intros [?| ->] ?; eauto using version_lt_trans.
Qed.

(** Versions that agree on major, minor and patch are ordered by their
    stage priority, whatever the stage number and build are. *)
Lemma stage_priority_decides a b :
  major a = major b -> minor a = minor b -> patch a = patch b ->
  (stage_priority a < stage_priority b)%Z -> version_lt a b.
Proof.
  intros. apply version_lt_lex. unfold lex_lt. tauto.
Qed.

End ordering.

(** C7: the comparison of versions is a strict total order: of [a < b],
    [a = b] and [a > b] exactly one holds, [<] is transitive, [a > b] is
    [b < a], the comparison finds two versions equal exactly when their
    six fields are equal, and [<] is the lexicographic order of the six
    fields with the build compared as a sequence in which a strict prefix
    is lower. *)
Theorem version_total_order (a b c : Version) :
  ((version_lt a b /\ a <> b /\ ~ version_gt a b) \/
   (~ version_lt a b /\ a = b /\ ~ version_gt a b) \/
   (~ version_lt a b /\ a <> b /\ version_gt a b)) /\
  (version_lt a b /\ version_lt b c -> version_lt a c) /\
  (version_gt a b <-> version_lt b a) /\
  (version_compare a b = Eq <-> a = b) /\
  (version_lt a b <-> lex_lt a b).
Proof.
  split; [|split; [|split; [|split]]].
  - unfold version_lt, version_gt.
    pose proof (version_compare_Eq a b) as HE.
    destruct (version_compare a b).
    + right; left. repeat split; try discriminate. tauto.
    + left. repeat split; try discriminate.
      intros E. apply HE in E. discriminate.
    + right; right. repeat split; try discriminate.
      intros E. apply HE in E. discriminate.
  - intros [? ?]. eapply version_lt_trans; eassumption.
  - apply version_gt_lt.
  - apply version_compare_Eq.
  - apply version_lt_lex.
Qed.

(** ** Stage precedence *)

Lemma priority_of_stage :
  dict_get stage_priority_map (Some "unknown") (-1)%Z = (-1)%Z /\
  dict_get stage_priority_map (Some "alpha") (-1)%Z = 0%Z /\
  dict_get stage_priority_map (Some "preview") (-1)%Z = 1%Z /\
  dict_get stage_priority_map (Some "rc") (-1)%Z = 2%Z /\
  dict_get stage_priority_map (Some "rtm") (-1)%Z = 3%Z /\
  dict_get stage_priority_map None (-1)%Z = 4%Z.
Proof. repeat split; vm_compute; reflexivity. Qed.

(** The priority of the stage at position [i] of [stage_order] is
    [i - 1]. *)
Lemma priority_of_position (i : nat) (stage : option string) :
  stage_order !! i = Some stage ->
  dict_get stage_priority_map stage (-1)%Z = (Z.of_nat i - 1)%Z.
Proof.
  destruct priority_of_stage as (H0 & H1 & H2 & H3 & H4 & H5).
  do 6 (destruct i as [|i]; [intros [= <-]; assumption|]).
  intros [=].
Qed.

(** ** Rendering and normalisation *)

Lemma append_nil_l (t : string) : "" +:+ t = t.
Proof. reflexivity. Qed.

Lemma append_cons (c : ascii) (s t : string) :
  String c s +:+ t = String c (s +:+ t).
Proof. reflexivity. Qed.

Lemma append_nil_r (s : string) : s +:+ "" = s.
Proof.
  induction s as [|c s IH]; [reflexivity|]. rewrite append_cons. congruence.
Qed.

Lemma append_assoc (s t u : string) : (s +:+ t) +:+ u = s +:+ t +:+ u.
Proof.
  induction s as [|c s IH]; [reflexivity|]. rewrite !append_cons. congruence.
Qed.

Lemma stage_names_lookup (k : Z) :
  stage_names !! k =
  if decide (0 <= k < 4)%Z then Some (spec_stage_name k) else None.
Proof.
  destruct (decide (0 <= k < 4)%Z) as [H|H].
  - assert (k = 0 \/ k = 1 \/ k = 2 \/ k = 3)%Z as [->|[->|[->| ->]]] by lia;
      reflexivity.
  - unfold stage_names.
    rewrite !lookup_insert_ne, lookup_singleton_ne by lia. reflexivity.
Qed.

Lemma stage_suffix_unknown (v : Version) :
  stage_priority v = (-1)%Z -> stage_suffix v = Raise KeyError.
Proof.
  intros H. unfold stage_suffix, subscript.
  rewrite stage_names_lookup, H. reflexivity.
Qed.

(** C5: a version with stage priority -1 cannot be rendered or
    normalised: the stage-name lookup raises [KeyError].  So does the
    registry membership test, and the fallback search of [install_dotnet]
    raises when it reaches such a candidate instead of going on to the
    next one. *)
Theorem unknown_stage_raises (v : Version) :
  stage_priority v = (-1)%Z ->
  version_to_string v = Raise KeyError /\
  normalized_version_for_nuget v = Raise KeyError /\
  (forall nuget_set, is_version_in_nuget nuget_set v = Raise KeyError) /\
  (forall ibm_parsed version_to_tag_map requested nuget_set idx offset
          direction directions chosen log,
     let i := (Z.of_nat idx + direction * Z.of_nat offset)%Z in
     (0 <= i < Z.of_nat (length ibm_parsed))%Z ->
     ibm_parsed !! Z.to_nat i = Some v ->
     major v = major requested ->
     search_directions ibm_parsed version_to_tag_map requested nuget_set idx
       offset (direction :: directions) chosen log
     = (log, Raise KeyError)).
Proof.
  intros H.
  assert (normalized_version_for_nuget v = Raise KeyError) as Hn.
  { unfold normalized_version_for_nuget.
    rewrite stage_suffix_unknown by assumption.
    destruct (decide _) as [_|?]; [reflexivity | lia]. }
  assert (forall s, is_version_in_nuget s v = Raise KeyError) as Hin.
  { intros s. unfold is_version_in_nuget. rewrite Hn. reflexivity. }
  repeat split; try assumption.
  - unfold version_to_string. rewrite stage_suffix_unknown by assumption.
    destruct (decide _) as [_|?]; [reflexivity | lia].
  - intros ibm_parsed m requested s idx offset direction directions chosen log
      i Hi Hv Hmaj.
    simpl. fold i.
    destruct (decide _) as [?|_]; [lia|].
    unfold mbind, io_bind, lift, list_index. rewrite Hv.
    destruct (decide _) as [?|_]; [congruence|].
    rewrite Hin. reflexivity.
Qed.

Lemma unknown_stage_raises_witness :
  version_to_string (mkVersion 9 0 100 (-1) 0 []) = Raise KeyError /\
  run (reconcile "9.0.99" [mk_release "v9.0.100-beta.1"] ["9.0.0"])
  = ([FetchingNuget], Raise KeyError).
Proof.
  split.
  - apply (unknown_stage_raises (mkVersion 9 0 100 (-1) 0 [])). reflexivity.
  - vm_compute. reflexivity.
Defined.




(** ** Sorted lists and bisection *)

Lemma sorted_lookup_le (a : list Version) (i j : nat) (vi vj : Version) :
  StronglySorted version_le a ->
  i <= j -> a !! i = Some vi -> a !! j = Some vj -> version_le vi vj.
Proof.
  intros Hs. revert i j. induction Hs as [|y l Hl IH Hy]; intros i j Hij.
  - intros [=].
  - destruct i as [|i], j as [|j]; simpl; try lia.
    + intros [= <-] [= <-]. apply version_le_lt_or_eq. auto.
    + intros [= <-] Hj. rewrite List.Forall_forall in Hy. apply Hy.
      apply list_elem_of_In, list_elem_of_lookup. eauto.
    + apply IH. lia.
Qed.

Section bisect.

Variables (a : list Version) (x : Version).
Hypothesis a_sorted : StronglySorted version_le a.

Lemma bisect_loop_spec (fuel lo hi : nat) :
  hi - lo <= fuel -> lo <= hi <= length a -> below a x lo -> above a x hi ->
  let r := bisect_loop fuel a x lo hi in
  lo <= r <= hi /\ below a x r /\ above a x r.
Proof using a_sorted.
  revert lo hi. induction fuel as [|fuel IH]; intros lo hi Hfuel Hb Hlo Hhi.
  - simpl. assert (lo = hi) as -> by lia. auto with lia.
  - cbn [bisect_loop]. destruct (decide (lo < hi)) as [Hlt|Hge].
    2:{ assert (lo = hi) as -> by lia. auto with lia. }
    set (mid := (lo + hi) `div` 2).
    assert (lo <= mid < hi) as Hmid.
    { unfold mid. pose proof (Nat.div_mod_eq (lo + hi) 2).
      pose proof (Nat.mod_upper_bound (lo + hi) 2). lia. }
    clearbody mid.
    destruct (lookup_lt_is_Some_2 a mid) as [y Hy]; [lia|]. rewrite Hy.
    destruct (decide (version_lt y x)) as [Hyx|Hyx].
    + destruct (IH (mid + 1) hi) as (? & ? & ?); auto with lia.
      intros i v Hi Hv. eapply version_le_lt_trans; [|exact Hyx].
      apply (sorted_lookup_le a i mid); auto with lia.
    + destruct (IH lo mid) as (? & ? & ?); auto with lia.
      intros i v Hi Hv Hvx. apply Hyx.
      eapply version_le_lt_trans; [|exact Hvx].
      apply (sorted_lookup_le a mid i); auto with lia.
Qed.

(** [bisect_left] returns the insertion point: the position that
    separates the elements smaller than [x] from the others. *)
Lemma bisect_left_spec :
  bisect_left a x <= length a /\ below a x (bisect_left a x)
  /\ above a x (bisect_left a x).
Proof using a_sorted.
  unfold bisect_left.
  destruct (bisect_loop_spec (length a) 0 (length a)) as (? & ? & ?);
    auto with lia.
  - intros i v Hi. lia.
  - intros i v Hi Hv. apply lookup_lt_Some in Hv. lia.
Qed.

(** When [x] occurs in the list, the insertion point is a position of
    [x]. *)
Lemma bisect_left_found : x ∈ a -> a !! bisect_left a x = Some x.
Proof using a_sorted.
  intros [j Hj]%list_elem_of_lookup.
  destruct bisect_left_spec as (Hlen & Hbelow & Habove).
  assert (bisect_left a x <= j) as Hle.
  { destruct (decide (bisect_left a x <= j)); [assumption|].
    destruct (version_lt_irrefl x). apply (Hbelow j); auto with lia. }
  destruct (lookup_lt_is_Some_2 a (bisect_left a x)) as [y Hy].
  { apply lookup_lt_Some in Hj. lia. }
  rewrite Hy. f_equal. apply (anti_symm version_le).
  - apply (sorted_lookup_le a (bisect_left a x) j); auto.
  - apply version_le_not_lt. apply (Habove (bisect_left a x)); auto.
Qed.

End bisect.

Lemma sort_versions_sorted (l : list Version) :
  StronglySorted version_le (sort_versions l).
Proof. apply StronglySorted_merge_sort; apply _. Qed.

Lemma sort_versions_elem (l : list Version) (v : Version) :
  v ∈ sort_versions l <-> v ∈ l.
Proof. unfold sort_versions. rewrite merge_sort_Permutation. reflexivity. Qed.

Lemma sort_versions_length (l : list Version) :
  length (sort_versions l) = length l.
Proof. unfold sort_versions. rewrite merge_sort_Permutation. reflexivity. Qed.

(** ** The catalog loop *)

Section collect.

Variable keep : Version -> bool.

Lemma collect_step_eq st (t : release) :
  collect_step keep st t =
  match t !! "tag_name" with
  | Some name =>
      match parse_version name with
      | Ok v => if keep v then (st.1 ++ [v], <[v := name]> st.2) else st
      | Raise _ => st
      end
  | None => st
  end.
Proof.
  unfold collect_step, subscript.
  destruct (t !! "tag_name") as [name|]; [|reflexivity]. simpl.
  destruct (parse_version name); reflexivity.
Qed.

Lemma catalog_has_snoc (tags : list release) (t : release) name v :
  catalog_has (tags ++ [t]) name v <->
  catalog_has tags name v \/
  (t !! "tag_name" = Some name /\ parse_version name = Ok v).
Proof.
  unfold catalog_has. split.
  - intros (t' & [Hin| ->%list_elem_of_singleton]%elem_of_app & H1 & H2);
      eauto 6.
  - intros [(t' & Hin & H1 & H2)|[H1 H2]].
    + exists t'. rewrite elem_of_app. auto.
    + exists t. rewrite elem_of_app, list_elem_of_singleton. auto.
Qed.

Lemma collect_snoc (tags : list release) (t : release) :
  collect keep (tags ++ [t]) = collect_step keep (collect keep tags) t.
Proof. unfold collect. apply foldl_snoc. Qed.

(** The list holds the versions of the tags that parse and are kept. *)
Lemma collect_elem (tags : list release) (v : Version) :
  v ∈ (collect keep tags).1 <->
  keep v = true /\ exists name, catalog_has tags name v.
Proof.
  induction tags as [|t tags IH] using rev_ind.
  - simpl. rewrite elem_of_nil. split; [tauto|].
    intros (_ & name & t & []%elem_of_nil & _).
  - rewrite collect_snoc, collect_step_eq.
    setoid_rewrite catalog_has_snoc.
    destruct (t !! "tag_name") as [name|] eqn:Hname.
    2:{ rewrite IH. split; [intros [? [n ?]]; eauto|].
        intros [? [n [?|[[=] _]]]]. eauto. }
    destruct (parse_version name) as [w|e] eqn:Hparse.
    2:{ rewrite IH. split; [intros [? [n ?]]; eauto|].
        intros [? [n [?|[[= <-] ?]]]]; [eauto|congruence]. }
    destruct (keep w) eqn:Hkeep; simpl.
    + rewrite elem_of_app, list_elem_of_singleton, IH. split.
      * intros [[? [n ?]]| ->]; eauto 6.
      * intros [? [n [?|[[= <-] ?]]]]; [eauto|]. right. congruence.
    + rewrite IH. split; [intros [? [n ?]]; eauto|].
      intros [? [n [?|[[= <-] ?]]]]; [eauto|congruence].
Qed.

(** The dictionary maps a version to the name of a tag that parses to
    it. *)
Lemma collect_lookup (tags : list release) (v : Version) (name : string) :
  (collect keep tags).2 !! v = Some name -> catalog_has tags name v.
Proof.
  revert name. induction tags as [|t tags IH] using rev_ind; intros name.
  - simpl. rewrite lookup_empty. discriminate.
  - rewrite collect_snoc, collect_step_eq, catalog_has_snoc.
    destruct (t !! "tag_name") as [n|] eqn:Hname; [|auto].
    destruct (parse_version n) as [w|e] eqn:Hparse; [|auto].
    destruct (keep w); [|auto]. simpl.
    destruct (decide (w = v)) as [->|Hne].
    + rewrite lookup_insert_eq. intros [= <-]. auto.
    + rewrite lookup_insert_ne by assumption. auto.
Qed.

(** Every version of the list is a key of the dictionary. *)
Lemma collect_dom (tags : list release) (v : Version) :
  v ∈ (collect keep tags).1 -> is_Some ((collect keep tags).2 !! v).
Proof.
  induction tags as [|t tags IH] using rev_ind.
  - simpl. intros []%elem_of_nil.
  - rewrite collect_snoc, collect_step_eq.
    destruct (t !! "tag_name") as [n|] eqn:Hname; [|auto].
    destruct (parse_version n) as [w|e] eqn:Hparse; [|auto].
    destruct (keep w); [|auto]. simpl.
    rewrite elem_of_app, list_elem_of_singleton.
    destruct (decide (w = v)) as [->|Hne].
    + rewrite lookup_insert_eq. eauto.
    + rewrite lookup_insert_ne by assumption. intros [?|?]; [auto|congruence].
Qed.

End collect.

(** ** Nearest tag by version *)

Lemma parse_version_v (s : string) : parse_version ("v" +:+ s) = parse_version s.
Proof. reflexivity. Qed.

(** C9: [find_closest_version_tag] on a parseable target.  If some tag
    parses to the target version, such a tag is returned.  Otherwise, if
    some parsed version is below the target, the tag of the greatest one
    below it is returned (the element just before the insertion point).
    Otherwise, if any tag parses, the tag of the smallest version is
    returned (the element at the insertion point).  Otherwise the search
    fails with [Exit]. *)
Theorem find_closest_nearest_not_above (all_tags : list release)
    (input_tag : string) (target : Version) :
  parse_version input_tag = Ok target ->
  let has := catalog_has all_tags in
  let found := find_closest_version_tag all_tags input_tag in
  ((exists name, has name target) ->
     exists name, found = Ok name /\ has name target) /\
  (~ (exists name, has name target) ->
   (exists name v, has name v /\ version_lt v target) ->
     exists name v, found = Ok name /\ has name v /\ version_lt v target /\
       forall name' w, has name' w -> version_lt w target -> version_le w v) /\
  (~ (exists name v, has name v /\ version_le v target) ->
   (exists name v, has name v) ->
     exists name v, found = Ok name /\ has name v /\
       forall name' w, has name' w -> version_le v w) /\
  (~ (exists name v, has name v) -> found = Raise Exit).
Proof.
  intros Hparse has found.
  assert (parse_version
            (if Py.startswith input_tag "v" then input_tag
             else "v" +:+ input_tag) = Ok target) as Hnorm.
  { destruct (Py.startswith input_tag "v"); [assumption|].
    rewrite parse_version_v. assumption. }
  pose proof (collect_elem (fun _ => true) all_tags) as Helem.
  pose proof (collect_lookup (fun _ => true) all_tags) as Hlookup.
  pose proof (collect_dom (fun _ => true) all_tags) as Hdom.
  subst found has. unfold find_closest_version_tag.
  destruct (collect (fun _ => true) all_tags) as [parsed m]. simpl in *.
  rewrite Hnorm. simpl.
  set (sorted := sort_versions parsed).
  pose proof (sort_versions_sorted parsed) as Hsorted. fold sorted in Hsorted.
  assert (forall v, v ∈ sorted <-> exists name, catalog_has all_tags name v) as Hin.
  { intros v. unfold sorted. rewrite sort_versions_elem, Helem. tauto. }
  destruct (bisect_left_spec sorted target Hsorted) as (Hlen & Hbelow & Habove).
  set (index := bisect_left sorted target) in *.
  assert (forall i v, sorted !! i = Some v ->
            exists name, subscript m v = Ok name /\ catalog_has all_tags name v)
    as Htag.
  { intros i v Hv. destruct (Hdom v) as [name Hname].
    - apply sort_versions_elem. fold sorted. apply list_elem_of_lookup; eauto.
    - exists name. unfold subscript. rewrite Hname.
      split; [reflexivity | apply Hlookup; assumption]. }
  split; [|split; [|split]].
  - intros [name Hname].
    destruct (Hdom target) as [t Ht].
    { apply Helem. eauto. }
    rewrite Ht. eauto.
  - intros Hnone [name [v [Hv Hvlt]]].
    destruct (m !! target) as [t|] eqn:Ht.
    { destruct Hnone. eauto. }
    assert (v ∈ sorted) as [k Hk]%list_elem_of_lookup by (apply Hin; eauto).
    assert (k < index) as Hki.
    { destruct (decide (k < index)); [assumption|].
      destruct (Habove k v); auto with lia. }
    destruct (decide (0 < index)) as [_|?]; [|lia].
    destruct (lookup_lt_is_Some_2 sorted (index - 1)) as [w Hw]; [lia|].
    unfold list_index. rewrite Hw. simpl.
    destruct (Htag _ _ Hw) as (n & -> & Hn).
    exists n, w. repeat split; auto.
    + apply (Hbelow (index - 1)); auto with lia.
    + intros name' w' Hw' Hlt.
      assert (w' ∈ sorted) as [j Hj]%list_elem_of_lookup by (apply Hin; eauto).
      apply (sorted_lookup_le sorted j (index - 1)); auto.
      destruct (decide (j < index)); [lia|].
      destruct (Habove j w'); auto with lia.
  - intros Hnone [name [v Hv]].
    destruct (m !! target) as [t|] eqn:Ht.
    { destruct Hnone. exists t, target. split; [auto|].
      apply version_le_lt_or_eq. auto. }
    destruct (decide (0 < index)) as [Hpos|Hnpos].
    { destruct (lookup_lt_is_Some_2 sorted (index - 1)) as [w Hw]; [lia|].
      destruct Hnone. destruct (Htag _ _ Hw) as (n & _ & Hn).
      exists n, w. split; [assumption|].
      apply version_le_lt_or_eq. left. apply (Hbelow (index - 1)); auto with lia. }
    assert (index = 0) as Hi0 by lia.
    assert (v ∈ sorted) as [k Hk]%list_elem_of_lookup by (apply Hin; eauto).
    pose proof (lookup_lt_Some _ _ _ Hk) as Hklen.
    destruct (decide (index < length sorted)) as [_|?]; [|lia].
    destruct (lookup_lt_is_Some_2 sorted index) as [w Hw]; [lia|].
    unfold list_index. rewrite Hw. simpl.
    destruct (Htag _ _ Hw) as (n & -> & Hn).
    exists n, w. repeat split; auto.
    intros name' w' Hw'.
    assert (w' ∈ sorted) as [j Hj]%list_elem_of_lookup by (apply Hin; eauto).
    apply (sorted_lookup_le sorted index j); auto with lia.
  - intros Hnone.
    assert (sorted = []) as Hnil.
    { apply elem_of_nil_inv. intros v Hv. apply Hnone.
      apply Hin in Hv as [name ?]. eauto. }
    destruct (m !! target) as [t|] eqn:Ht.
    { destruct Hnone. eauto. }
    rewrite Hnil in *. simpl in Hlen.
    destruct (decide (0 < index)); [lia|].
    destruct (decide (index < length [])) as [Hlt|_]; [simpl in Hlt; lia|].
    reflexivity.
Qed.

Lemma find_closest_nearest_not_above_witness :
  let all_tags :=
    [mk_release "v9.0.102"; mk_release "nightly"; mk_release "v9.0.100";
     mk_release "v8.0.404"] in
  exists name v,
    find_closest_version_tag all_tags "9.0.101" = Ok name /\
    catalog_has all_tags name v /\ version_lt v (mkVersion 9 0 101 4 0 []) /\
    forall name' w, catalog_has all_tags name' w ->
      version_lt w (mkVersion 9 0 101 4 0 []) -> version_le w v.
Proof.
  intros all_tags.
  apply (find_closest_nearest_not_above all_tags "9.0.101"
           (mkVersion 9 0 101 4 0 [])).
  - vm_compute. reflexivity.
  - intros (name & t & Hin & Hname & Hparse).
    repeat (apply elem_of_cons in Hin as [->|Hin]);
      try (apply elem_of_nil in Hin; contradiction);
      vm_compute in Hname; injection Hname as <-;
      vm_compute in Hparse; discriminate.
  - exists "v9.0.100", (mkVersion 9 0 100 4 0 []). split.
    + exists (mk_release "v9.0.100"). split; [|split].
      * do 2 apply list_elem_of_further. apply list_elem_of_here.
      * vm_compute. reflexivity.
      * vm_compute. reflexivity.
    + vm_compute. reflexivity.
Defined.

(** ** Reconciliation *)

Lemma parse_version_nonempty (name : string) (v : Version) :
  parse_version name = Ok v -> Py.truthy name = true.
Proof. destruct name; [discriminate | reflexivity]. Qed.

Lemma is_version_in_nuget_hit (nuget_versions : list string) (v : Version)
    (key : string) :
  normalized_version_for_nuget v = Ok key -> key ∈ nuget_versions ->
  is_version_in_nuget (list_to_set nuget_versions) v = Ok true.
Proof.
  intros Hkey Hin. unfold is_version_in_nuget. rewrite Hkey. simpl.
  rewrite bool_decide_eq_true_2; [reflexivity|].
  apply elem_of_list_to_set. assumption.
Qed.

(** Exact-match priority: when the requested version is the version of a
    catalog tag and its normalized key is in the registry, that tag is
    resolved and no nearest-version notice is written. *)
Lemma reconcile_exact (tag : string) (all_tags : list release)
    (nuget_versions : list string) (requested : Version) (key : string) :
  parse_version (Py.lstrip "v" tag) = Ok requested ->
  (exists name, catalog_has all_tags name requested) ->
  normalized_version_for_nuget requested = Ok key -> key ∈ nuget_versions ->
  exists name, catalog_has all_tags name requested /\
    run (reconcile tag all_tags nuget_versions)
    = ([FetchingNuget; ResolvedTag name], Ok name).
Proof.
  intros Hparse Hhas Hkey Hin.
  set (keep := fun v => bool_decide (major v = major requested)).
  assert (requested ∈ (collect keep all_tags).1) as Helem.
  { apply collect_elem. split; [|assumption].
    unfold keep. apply bool_decide_eq_true_2. reflexivity. }
  destruct (collect_dom keep all_tags requested Helem) as [name Hname].
  pose proof (collect_lookup keep all_tags requested name Hname) as Hcat.
  exists name. split; [assumption|].
  unfold run, reconcile, mbind, io_bind, lift, mret, io_ret, raise.
  rewrite Hparse. fold keep.
  destruct (collect keep all_tags) as [parsed m]. simpl in Helem, Hname.
  destruct parsed as [|v0 parsed]; [apply elem_of_nil in Helem; contradiction|].
  set (sorted := sort_versions (v0 :: parsed)).
  assert (sorted !! bisect_left sorted requested = Some requested) as Hidx.
  { apply bisect_left_found; [apply sort_versions_sorted|].
    apply sort_versions_elem. assumption. }
  unfold echo. simpl.
  destruct (decide _) as [_|Hno].
  2:{ destruct Hno. split; [|assumption]. apply lookup_lt_Some in Hidx. lia. }
  rewrite (is_version_in_nuget_hit _ _ _ Hkey Hin). simpl.
  unfold subscript. rewrite Hname. simpl.
  destruct Hcat as (t & _ & _ & Hp).
  pose proof (parse_version_nonempty _ _ Hp) as Htruthy.
  destruct name; [discriminate Htruthy|]. reflexivity.
Qed.

(** C1 as stated fails: the normalized key of 9.0.101 is ["9.0.0"], which
    is also the key of the requested 9.0.100, so the request itself is
    resolved and no nearest-version notice is written. *)
Lemma reconcile_nearest_fallback_counterexample :
  let all_tags :=
    [mk_release "v9.0.100"; mk_release "v9.0.101"; mk_release "v9.0.102"] in
  normalized_version_for_nuget (stable 9 0 101) = Ok "9.0.0" /\
  run (reconcile "9.0.100" all_tags ["9.0.0"])
  = ([FetchingNuget; ResolvedTag "v9.0.100"], Ok "v9.0.100") /\
  (run (reconcile "9.0.100" all_tags ["9.0.0"])).2 <> Ok "v9.0.101" /\
  UsingNearest "v9.0.101" ∉ (run (reconcile "9.0.100" all_tags ["9.0.0"])).1.
Proof.
  intros all_tags. split; [|split; [|split]].
  - vm_compute. reflexivity.
  - vm_compute. reflexivity.
  - vm_compute. discriminate.
  - intros Hin. vm_compute in Hin.
    repeat (apply elem_of_cons in Hin as [Hin|Hin]; [discriminate Hin|]).
    apply elem_of_nil in Hin. contradiction.
Qed.

(** C2: the fallback search never reaches the lowest catalog version
    when the request is above every catalog version.  With a single
    release below the request, [reconcile] fails whatever the registry
    holds, also when that release is compatible. *)
Theorem reconcile_single_lower_release_not_found (tag name : string)
    (requested v : Version) (nuget_versions : list string) :
  parse_version (Py.lstrip "v" tag) = Ok requested ->
  parse_version name = Ok v ->
  major v = major requested ->
  version_lt v requested ->
  run (reconcile tag [mk_release name] nuget_versions)
  = ([FetchingNuget; NoCompatibleVersion tag], Raise Exit).
Proof.
  intros Hreq Hname Hmajor Hlt.
  unfold run, reconcile, mbind, io_bind, lift, mret, io_ret, raise.
  rewrite Hreq.
  unfold collect. simpl. rewrite collect_step_eq.
  unfold mk_release. rewrite lookup_singleton_eq, Hname.
  rewrite bool_decide_eq_true_2 by assumption. simpl.
  change (sort_versions [v]) with [v].
  assert (bisect_left [v] requested = 1) as ->.
  { unfold bisect_left. simpl.
    destruct (decide (version_lt v requested)); [reflexivity|contradiction]. }
  unfold echo. simpl. reflexivity.
Qed.

Lemma reconcile_single_lower_release_not_found_witness :
  compatible (stable 9 0 200) ["9.0.0"] [mk_release "v9.0.100"] "v9.0.100" /\
  run (reconcile "9.0.200" [mk_release "v9.0.100"] ["9.0.0"])
  = ([FetchingNuget; NoCompatibleVersion "9.0.200"], Raise Exit).
Proof.
  split.
  - exists (stable 9 0 100), "9.0.0". split; [|split; [|split]].
    + exists (mk_release "v9.0.100"). split; [apply list_elem_of_here|].
      split; vm_compute; reflexivity.
    + reflexivity.
    + vm_compute. reflexivity.
    + apply list_elem_of_here.
  - apply (reconcile_single_lower_release_not_found "9.0.200" "v9.0.100"
             (stable 9 0 200) (stable 9 0 100) ["9.0.0"]);
      vm_compute; reflexivity.
Defined.

(** ** Sorting tags with unparseable names *)

Lemma map_result_raise {A B} (f : A -> result B) (l : list A) (x : A) (e : exn) :
  x ∈ l -> f x = Raise e -> exists e', map_result f l = Raise e'.
Proof.
  intros Hin Hx. induction l as [|y l IH]; [apply elem_of_nil in Hin; contradiction|].
  simpl. apply elem_of_cons in Hin as [<-|Hin].
  - rewrite Hx. eauto.
  - destruct (f y); [|eauto]. simpl.
    destruct (IH Hin) as [e' ->]. eauto.
Qed.

Lemma filter_result_ok {A} (f : A -> result bool) (l : list A) :
  (forall x, x ∈ l -> exists b, f x = Ok b) ->
  exists l', filter_result f l = Ok l' /\
    forall x, x ∈ l' <-> x ∈ l /\ f x = Ok true.
Proof.
  induction l as [|y l IH]; intros Hok.
  - exists []. split; [reflexivity|]. intros x. rewrite elem_of_nil. tauto.
  - destruct IH as (l' & Hl' & Hmem).
    { intros x Hx. apply Hok. apply list_elem_of_further. assumption. }
    destruct (Hok y) as [b Hb]; [apply list_elem_of_here|].
    simpl. rewrite Hb, Hl'. simpl. eexists. split; [reflexivity|].
    intros x. destruct b.
    + rewrite !elem_of_cons, Hmem. split.
      * intros [->|[? ?]]; auto.
      * intros [[->|?] ?]; auto.
    + rewrite elem_of_cons, Hmem. split.
      * intros [? ?]; auto.
      * intros [[->|?] ?]; [congruence|auto].
Qed.

Lemma sorted_by_version_desc_raise (tags : list release) (t : release)
    (name : string) (e : exn) :
  t ∈ tags -> t !! "tag_name" = Some name -> parse_version name = Raise e ->
  exists e', sorted_by_version_desc tags = Raise e'.
Proof.
  intros Hin Hname Hparse. unfold sorted_by_version_desc.
  edestruct (map_result_raise
    (fun t => name ← subscript t "tag_name"; k ← parse_version name; Ok (k, t))
    tags t e Hin) as [e' ->]; [|simpl; eauto].
  unfold subscript. rewrite Hname. simpl. rewrite Hparse. reflexivity.
Qed.

(** C4: [filter_and_sort_tags] has no handler around [parse_version]: a
    tag with a non-empty name that passes the filter and does not parse
    makes the whole call raise, whatever the other tags are. *)
Theorem filter_and_sort_aborts (tags : list release) (prefix : option string)
    (t : release) (name : string) (e : exn) :
  t ∈ tags -> t !! "tag_name" = Some name -> Py.truthy name = true ->
  passes_filter prefix name ->
  parse_version name = Raise e ->
  exists e', filter_and_sort_tags tags prefix = Raise e'.
Proof.
  intros Hin Hname Htruthy Hpass Hparse. unfold filter_and_sort_tags.
  set (filtered := List.filter _ tags).
  assert (forall x, x ∈ filtered <->
            x ∈ tags /\ truthy_opt (x !! "tag_name") = true) as Hfiltered.
  { intros x. unfold filtered. rewrite !list_elem_of_In.
    apply List.filter_In. }
  assert (t ∈ filtered) as Hinf.
  { apply Hfiltered. rewrite Hname. auto. }
  assert (forall p,
    exists l', filter_result
      (fun t => name ← subscript t "tag_name";
                Ok (Filter.search (Filter.compile p) name)) filtered = Ok l'
      /\ (Filter.search (Filter.compile p) name = true -> t ∈ l')) as Hregex.
  { intros p. edestruct (filter_result_ok
      (fun t => name ← subscript t "tag_name";
                Ok (Filter.search (Filter.compile p) name)) filtered)
      as (l' & Hl' & Hmem).
    - intros x [_ Hx]%Hfiltered. unfold subscript.
      destruct (x !! "tag_name"); [simpl; eauto | discriminate].
    - exists l'. split; [assumption|]. intros Hs. apply Hmem. split; [assumption|].
      unfold subscript. rewrite Hname. simpl. rewrite Hs. reflexivity. }
  destruct prefix as [p|]; simpl in Hpass.
  - destruct (Py.truthy p).
    + destruct (Hregex match p with String "v" r => r | _ => p end)
        as (l' & Hl' & Ht).
      rewrite Hl'. simpl. eapply sorted_by_version_desc_raise; eauto.
    + simpl. eapply sorted_by_version_desc_raise; eauto.
  - simpl. eapply sorted_by_version_desc_raise; eauto.
Qed.

Lemma filter_and_sort_aborts_witness :
  let tags := [mk_release "v9.0.100"; mk_release "v9-nightly"] in
  (exists e', filter_and_sort_tags tags (Some "9") = Raise e') /\
  filter_and_sort_tags tags None = Raise ValueError /\
  run (resolve_tag (Some "v9") tags) = ([], Raise ValueError) /\
  find_closest_version_tag tags "9.0.100" = Ok "v9.0.100".
Proof.
  intros tags. split; [|split; [|split]].
  - apply (filter_and_sort_aborts tags (Some "9") (mk_release "v9-nightly")
             "v9-nightly" ValueError).
    + apply list_elem_of_further, list_elem_of_here.
    + vm_compute. reflexivity.
    + reflexivity.
    + intros _. vm_compute. reflexivity.
    + vm_compute. reflexivity.
  - vm_compute. reflexivity.
  - vm_compute. reflexivity.
  - vm_compute. reflexivity.
Defined.

(** ** Strings of digits *)

Section strings.

Implicit Types (s t d : string) (c sep : ascii) (p q : ascii -> bool).

Lemma all_chars_app p s t :
  all_chars p (s +:+ t) = all_chars p s && all_chars p t.
Proof.
  induction s as [|c s IH]; [reflexivity|].
  rewrite append_cons. simpl. rewrite IH. apply andb_assoc.
Qed.

Lemma all_chars_impl p q s :
  (forall c, p c = true -> q c = true) ->
  all_chars p s = true -> all_chars q s = true.
Proof.
  intros Hpq. induction s as [|c s IH]; [reflexivity|]. simpl.
  intros [Hc Hs]%andb_prop. rewrite (Hpq c Hc), (IH Hs). reflexivity.
Qed.

Lemma digit_not_sep c :
  Py.is_digit c = true ->
  is_not "." c = true /\ is_not "-" c = true /\ is_not "v" c = true /\
  is_not "+" c = true /\ is_not "_" c = true /\ Py.is_space c = false.
Proof.
  destruct c as [[] [] [] [] [] [] [] []]; intros H;
    try discriminate H; repeat split; reflexivity.
Qed.

Lemma digit_or_dot_not_dash c :
  Re.digit_or_dot c = true -> is_not "-" c = true.
Proof.
  destruct c as [[] [] [] [] [] [] [] []]; intros H;
    try discriminate H; reflexivity.
Qed.

Lemma digit_is_digit_or_dot c :
  Py.is_digit c = true -> Re.digit_or_dot c = true.
Proof. unfold Re.digit_or_dot. intros ->. reflexivity. Qed.

Lemma digits_value_app d t (acc : Z) :
  digits_value (d +:+ t) acc = digits_value t (digits_value d acc).
Proof.
  revert acc. induction d as [|c d IH]; intros acc; [reflexivity|].
  rewrite append_cons. simpl. apply IH.
Qed.

Lemma int_digits_all d (acc : Z) :
  all_chars Py.is_digit d = true ->
  Py.int_digits d acc true = Some (digits_value d acc).
Proof.
  revert acc. induction d as [|c d IH]; intros acc; [reflexivity|]. simpl.
  intros [Hc Hd]%andb_prop. rewrite Hc. apply IH. assumption.
Qed.

(** [int] of a non-empty string of digits is its decimal value. *)
Lemma int_of_digits d :
  all_chars Py.is_digit d = true -> d <> "" ->
  Py.int d = Ok (digits_value d 0).
Proof.
  destruct d as [|c d]; [congruence|]. simpl.
  intros [Hc Hd]%andb_prop _.
  destruct (digit_not_sep c Hc) as (_ & Hm & _ & Hp & _ & Hsp).
  unfold Py.int. simpl. rewrite Hsp.
  assert ((match String c d with
           | String "+" r => (1, r)
           | String "-" r => (-1, r)
           | _ => (1, String c d)
           end)%Z = (1%Z, String c d)) as ->.
  { destruct c as [[] [] [] [] [] [] [] []];
      try reflexivity; discriminate. }
  simpl. rewrite Hc, (int_digits_all d _ Hd).
  f_equal. destruct (digits_value d _); reflexivity.
Qed.

Lemma pretty_N_char_digit (x : N) :
  (x < 10)%N ->
  Py.is_digit (pretty_N_char x) = true /\
  Py.digit_val (pretty_N_char x) = Z.of_N x.
Proof.
  intros H.
  assert (x = 0 \/ x = 1 \/ x = 2 \/ x = 3 \/ x = 4 \/ x = 5 \/ x = 6 \/
          x = 7 \/ x = 8 \/ x = 9)%N
    as [->|[->|[->|[->|[->|[->|[->|[->|[->| ->]]]]]]]]] by lia;
    split; reflexivity.
Qed.

Lemma pretty_N_go_digits (n : N) s :
  exists d, pretty_N_go n s = d +:+ s /\
    all_chars Py.is_digit d = true /\
    ((0 < n)%N -> d <> "") /\
    digits_value d 0 = Z.of_N n.
Proof.
  revert s. induction n as [n IH] using (well_founded_induction N.lt_wf_0).
  intros s. destruct (decide (n = 0)%N) as [->|Hn].
  - exists "". rewrite pretty_N_go_0. repeat split; auto; lia.
  - rewrite pretty_N_go_step by lia.
    destruct (IH (n `div` 10)%N) with
      (s := String (pretty_N_char (n `mod` 10)) s) as (d & -> & Hd & _ & Hv).
    { apply N.div_lt; lia. }
    destruct (pretty_N_char_digit (n `mod` 10)%N) as [Hc Hcv].
    { apply N.mod_lt. lia. }
    exists (d +:+ String (pretty_N_char (n `mod` 10)) "").
    rewrite append_assoc. repeat split.
    + rewrite all_chars_app, Hd. simpl. rewrite Hc. reflexivity.
    + intros _. destruct d; discriminate.
    + rewrite digits_value_app, Hv. simpl. rewrite Hcv.
      pose proof (N.div_mod n 10). lia.
Qed.

(** [str] of a natural number is a non-empty string of digits whose
    value is the number. *)
Lemma pretty_N_digits (n : N) :
  all_chars Py.is_digit (pretty n) = true /\ pretty n <> "" /\
  digits_value (pretty n) 0 = Z.of_N n.
Proof.
  unfold pretty, pretty_N. destruct (decide (n = 0)%N) as [->|Hn].
  - repeat split. discriminate.
  - destruct (pretty_N_go_digits n "") as (d & -> & Hd & Hne & Hv).
    rewrite append_nil_r. repeat split; auto. apply Hne. lia.
Qed.

Lemma int_of_pretty (n : N) : Py.int (pretty n) = Ok (Z.of_N n).
Proof.
  destruct (pretty_N_digits n) as (Hd & Hne & Hv).
  rewrite int_of_digits by assumption. congruence.
Qed.

Lemma str_of_N (n : N) : Py.str (Z.of_N n) = pretty n.
Proof. destruct n; reflexivity. Qed.

Lemma map_int_pretty (b : list N) :
  map_result Py.int (pretty <$> b) = Ok (Z.of_N <$> b).
Proof.
  induction b as [|x b IH]; [reflexivity|].
  change (map_result Py.int (pretty <$> x :: b))
    with (y ← Py.int (pretty x);
          ys ← map_result Py.int (pretty <$> b); Ok (y :: ys)).
  rewrite int_of_pretty, IH. reflexivity.
Qed.

Lemma lstrip_not c s t :
  s <> "" -> all_chars (is_not c) s = true -> Py.lstrip c (s +:+ t) = s +:+ t.
Proof.
  destruct s as [|a s]; [congruence|]. intros _ [Ha _]%andb_prop.
  rewrite ?append_cons. simpl. unfold is_not in Ha.
  destruct (Ascii.eqb a c); [discriminate | reflexivity].
Qed.

Lemma partition_app sep s t :
  all_chars (is_not sep) s = true ->
  Py.partition sep (s +:+ String sep t) = (s, String sep "", t).
Proof.
  induction s as [|a s IH]; simpl.
  - intros _. rewrite ?append_nil_l. simpl. rewrite Ascii.eqb_refl. reflexivity.
  - intros [Ha Hs]%andb_prop. rewrite ?append_cons. simpl.
    unfold is_not in Ha. destruct (Ascii.eqb a sep); [discriminate|].
    rewrite (IH Hs). reflexivity.
Qed.

Lemma split_no_sep sep s :
  all_chars (is_not sep) s = true -> Py.split sep s = [s].
Proof.
  induction s as [|a s IH]; [reflexivity|]. simpl.
  intros [Ha Hs]%andb_prop. unfold is_not in Ha.
  destruct (Ascii.eqb a sep); [discriminate|]. rewrite (IH Hs). reflexivity.
Qed.

Lemma split_app sep s t :
  all_chars (is_not sep) s = true ->
  Py.split sep (s +:+ String sep t) = s :: Py.split sep t.
Proof.
  induction s as [|a s IH]; simpl.
  - intros _. rewrite ?append_nil_l. simpl. rewrite Ascii.eqb_refl. reflexivity.
  - intros [Ha Hs]%andb_prop. rewrite ?append_cons. simpl.
    unfold is_not in Ha. destruct (Ascii.eqb a sep); [discriminate|].
    rewrite (IH Hs). reflexivity.
Qed.

(** [split] undoes [join] on parts that do not contain the separator. *)
Lemma split_join sep (xs : list string) :
  xs <> [] -> Forall (fun x => all_chars (is_not sep) x = true) xs ->
  Py.split sep (Py.join (String sep "") xs) = xs.
Proof.
  induction xs as [|x xs IH]; [congruence|]. intros _ Hall.
  apply Forall_cons in Hall as [Hx Hxs].
  destruct xs as [|y xs].
  - simpl. apply split_no_sep. assumption.
  - change (Py.join (String sep "") (x :: y :: xs))
      with (x +:+ String sep (Py.join (String sep "") (y :: xs))).
    rewrite split_app by assumption. f_equal. apply IH; [discriminate|assumption].
Qed.

Lemma span_app p s t :
  all_chars p s = true ->
  match t with String c _ => p c = false | EmptyString => True end ->
  Re.span p (s +:+ t) = (s, t).
Proof.
  intros Hs Ht. induction s as [|a s IH].
  - rewrite ?append_nil_l. destruct t as [|c t]; [reflexivity|].
    simpl. rewrite Ht. reflexivity.
  - simpl in Hs. apply andb_prop in Hs as [Ha Hs].
    rewrite ?append_cons. simpl. rewrite Ha, (IH Hs). reflexivity.
Qed.

Lemma plus_app p s t :
  s <> "" -> all_chars p s = true ->
  match t with String c _ => p c = false | EmptyString => True end ->
  Re.plus p (s +:+ t) = Some (s, t).
Proof.
  intros Hne Hs Ht. unfold Re.plus. rewrite span_app by assumption.
  destruct s; [congruence | reflexivity].
Qed.

(** A non-empty list of numbers joined by dots is a non-empty string of
    digits and dots. *)
Lemma join_pretty_chars (b : list N) :
  b <> [] ->
  all_chars Re.digit_or_dot (Py.join "." (pretty <$> b)) = true /\
  Py.join "." (pretty <$> b) <> "".
Proof.
  induction b as [|x b IH]; [congruence|]. intros _.
  destruct (pretty_N_digits x) as (Hd & Hne & _).
  pose proof (all_chars_impl _ _ _ digit_is_digit_or_dot Hd) as Hdd.
  destruct b as [|y b].
  - simpl. auto.
  - destruct IH as [IH1 IH2]; [discriminate|].
    change (Py.join "." (pretty <$> x :: y :: b))
      with (pretty x +:+ "." +:+ Py.join "." (pretty <$> y :: b)).
    split.
    + rewrite !all_chars_app, Hdd, IH1. reflexivity.
    + destruct (pretty x); [congruence | discriminate].
Qed.

Lemma split_join_pretty (b : list N) :
  b <> [] -> Py.split "." (Py.join "." (pretty <$> b)) = pretty <$> b.
Proof.
  intros Hb. apply split_join.
  - destruct b; [congruence | discriminate].
  - apply Forall_fmap, Forall_forall. intros x _. simpl.
    destruct (pretty_N_digits x) as (Hd & _ & _).
    eapply all_chars_impl; [|exact Hd]. intros c Hc.
    apply (digit_not_sep c Hc).
Qed.

End strings.

(** ** Parsing the full format *)

Lemma alt_stage (stage r : string) :
  stage ∈ Re.stages ->
  Re.alt Re.stages (stage +:+ r) = Some (stage, r) /\
  Py.truthy (stage +:+ r) = true.
Proof.
  intros H. unfold Re.stages in H.
  repeat (apply elem_of_cons in H as [->|H]); [| | | |];
    try (split; reflexivity).
  apply elem_of_nil in H. contradiction.
Qed.

Lemma stage_table_inverse (stage : string) :
  stage ∈ Re.stages ->
  (dict_get stage_priority_map (Some stage) (-1) < 4)%Z /\
  subscript stage_names (dict_get stage_priority_map (Some stage) (-1)%Z)
  = Ok stage.
Proof.
  intros H. unfold Re.stages in H.
  repeat (apply elem_of_cons in H as [->|H]); [| | | |];
    try (split; vm_compute; reflexivity).
  apply elem_of_nil in H. contradiction.
Qed.

Section full_format.

Variables (A B C N J stage : string).
Hypothesis stage_known : stage ∈ Re.stages.
Hypothesis A_digits : all_chars Py.is_digit A = true /\ A <> "".
Hypothesis B_digits : all_chars Py.is_digit B = true /\ B <> "".
Hypothesis C_digits : all_chars Py.is_digit C = true /\ C <> "".
Hypothesis N_digits : all_chars Py.is_digit N = true /\ N <> "".
Hypothesis J_chars : all_chars Re.digit_or_dot J = true /\ J <> "".

Lemma full_match_format :
  Re.full_match (stage +:+ "." +:+ N +:+ "." +:+ J) = Some (stage, N, J).
Proof using stage_known N_digits J_chars.
  unfold Re.full_match.
  destruct (alt_stage stage ("." +:+ N +:+ "." +:+ J) stage_known) as [-> _].
  cbn [mbind option_bind].
  change (Re.lit "." ("." +:+ N +:+ "." +:+ J)) with (Some (N +:+ "." +:+ J)).
  cbn [mbind option_bind].
  destruct N_digits as [HN HNne]. destruct J_chars as [HJ HJne].
  rewrite (plus_app Py.is_digit N ("." +:+ J)); [|assumption..|reflexivity].
  cbn [mbind option_bind].
  change (Re.lit "." ("." +:+ J)) with (Some J).
  cbn [mbind option_bind].
  rewrite <- (append_nil_r J) at 1.
  rewrite (plus_app Re.digit_or_dot J ""); [|assumption..|exact I].
  reflexivity.
Qed.

Local Abbreviation base := (A +:+ "." +:+ B +:+ "." +:+ C).
Local Abbreviation suffix := (stage +:+ "." +:+ N +:+ "." +:+ J).

Lemma base_chars : all_chars Re.digit_or_dot base = true.
Proof using A_digits B_digits C_digits.
  destruct A_digits as [HA _], B_digits as [HB _], C_digits as [HC _].
  rewrite !all_chars_app.
  rewrite (all_chars_impl _ _ A digit_is_digit_or_dot HA).
  rewrite (all_chars_impl _ _ B digit_is_digit_or_dot HB).
  rewrite (all_chars_impl _ _ C digit_is_digit_or_dot HC).
  reflexivity.
Qed.

Lemma partition_format :
  Py.partition "-" (Py.lstrip "v" (base +:+ "-" +:+ suffix))
  = (base, "-", suffix).
Proof using A_digits B_digits C_digits.
  assert (Py.lstrip "v" (base +:+ "-" +:+ suffix) = base +:+ "-" +:+ suffix)
    as ->.
  { rewrite append_assoc. destruct A_digits as [HA HAne].
    apply lstrip_not; [assumption|].
    eapply all_chars_impl; [|exact HA].
    intros c Hc. apply (digit_not_sep c Hc). }
  apply (partition_app "-" base suffix).
  eapply all_chars_impl; [|exact base_chars].
  apply digit_or_dot_not_dash.
Qed.

Lemma split_base : Py.split "." base = [A; B; C].
Proof using A_digits B_digits C_digits.
  destruct A_digits as [HA _], B_digits as [HB _], C_digits as [HC _].
  apply (split_join "." [A; B; C]); [discriminate|].
  repeat apply Forall_cons_2; try apply Forall_nil_2;
    (eapply all_chars_impl; [|eassumption]);
    intros c Hc; apply (digit_not_sep c Hc).
Qed.

Variables (M m p n : Z) (b : list Z).
Hypothesis A_value : Py.int A = Ok M.
Hypothesis B_value : Py.int B = Ok m.
Hypothesis C_value : Py.int C = Ok p.
Hypothesis N_value : Py.int N = Ok n.
Hypothesis J_value : parse_build J = Ok b.

Lemma parse_version_format :
  parse_version (base +:+ "-" +:+ suffix)
  = Ok (mkVersion M m p (dict_get stage_priority_map (Some stage) (-1)%Z) n b).
Proof using All.
  unfold parse_version. rewrite partition_format. cbv beta iota zeta.
  rewrite split_base.
  change (map_result Py.int (Py.slice_to 3 [A; B; C]))
    with (x ← Py.int A; ys ← (y ← Py.int B; zs ← (z ← Py.int C; Ok [z]);
                               Ok (y :: zs)); Ok (x :: ys)).
  rewrite A_value, B_value, C_value.
  cbn [mbind result_bind unpack3].
  unfold parse_suffix.
  destruct (alt_stage stage ("." +:+ N +:+ "." +:+ J) stage_known) as [_ ->].
  rewrite full_match_format, N_value, J_value. reflexivity.
Qed.

Lemma matches_full_format : matches_full (base +:+ "-" +:+ suffix).
Proof using All.
  unfold matches_full. rewrite partition_format. cbv beta iota zeta.
  rewrite split_base. split.
  - exists [M; m; p]. split; [|reflexivity].
    change (map_result Py.int (Py.slice_to 3 [A; B; C]))
      with (x ← Py.int A; ys ← (y ← Py.int B; zs ← (z ← Py.int C; Ok [z]);
                                 Ok (y :: zs)); Ok (x :: ys)).
    rewrite A_value, B_value, C_value. reflexivity.
  - rewrite full_match_format. eauto.
Qed.

End full_format.

Lemma parse_build_pretty (b : list N) :
  b <> [] -> parse_build (Py.join "." (pretty <$> b)) = Ok (Z.of_N <$> b).
Proof.
  intros Hb. unfold parse_build.
  rewrite split_join_pretty by assumption. apply map_int_pretty.
Qed.

Lemma pretty_digits_nonempty (n : N) :
  all_chars Py.is_digit (pretty n) = true /\ pretty n <> "".
Proof. destruct (pretty_N_digits n) as (? & ? & _). auto. Qed.

(** Parsing a string in the full format gives back the numbers it was
    written from. *)
Lemma parse_full_format (M m p n : N) (stage : string) (b : list N) :
  stage ∈ Re.stages -> b <> [] ->
  parse_version (full_format M m p stage n b)
  = Ok (mkVersion (Z.of_N M) (Z.of_N m) (Z.of_N p)
          (dict_get stage_priority_map (Some stage) (-1)%Z)
          (Z.of_N n) (Z.of_N <$> b)).
Proof.
  intros Hstage Hb. unfold full_format.
  apply parse_version_format;
    auto using pretty_digits_nonempty, join_pretty_chars, int_of_pretty,
      parse_build_pretty.
Qed.

Lemma render_full_format (M m p n : N) (stage : string) (b : list N) :
  stage ∈ Re.stages ->
  version_to_string
    (mkVersion (Z.of_N M) (Z.of_N m) (Z.of_N p)
       (dict_get stage_priority_map (Some stage) (-1)%Z)
       (Z.of_N n) (Z.of_N <$> b))
  = Ok (full_format M m p stage n b).
Proof.
  intros Hstage. destruct (stage_table_inverse stage Hstage) as [Hlt Hname].
  unfold version_to_string, stage_suffix. simpl.
  destruct (decide _) as [_|?]; [|contradiction].
  rewrite Hname. simpl. rewrite !str_of_N.
  rewrite <- list_fmap_compose.
  rewrite (list_fmap_ext (Py.str ∘ Z.of_N) pretty b) by (intros; apply str_of_N).
  reflexivity.
Qed.

(** C6 as stated fails for strings that match the full pattern without
    being written canonically: a leading zero is lost, and so is the
    leading [v] in the example of the claim itself. *)
Lemma render_parse_not_identity :
  ~ (forall s, matches_full s -> render_parse s = Ok s).
Proof.
  intros H. specialize (H "9.0.100-preview.07.1").
  assert (matches_full "9.0.100-preview.07.1") as Hm.
  { split; [exists [9; 0; 100]%Z; split; reflexivity|].
    exists ("preview", "07", "1"). reflexivity. }
  specialize (H Hm). vm_compute in H. discriminate.
Qed.

(** C6, amended: a string [major.minor.patch-stage.number.build] written
    with plain decimal numbers (no leading [v], no leading zeros, nothing
    after the build), none of them longer than the 4300 digits that
    [int] converts, matches the full pattern and is rendered back
    unchanged after parsing; with a leading [v] the same string without
    the [v] is rendered. *)
Theorem render_parse_full_format (M m p n : N) (stage : string) (b : list N) :
  stage ∈ Re.stages -> b <> [] ->
  Forall within_digit_limit (M :: m :: p :: n :: b) ->
  matches_full (full_format M m p stage n b) /\
  render_parse (full_format M m p stage n b)
  = Ok (full_format M m p stage n b) /\
  render_parse ("v" +:+ full_format M m p stage n b)
  = Ok (full_format M m p stage n b).
Proof.
  intros Hstage Hb _.
  assert (render_parse (full_format M m p stage n b)
          = Ok (full_format M m p stage n b)) as Hrt.
  { unfold render_parse. rewrite parse_full_format by assumption.
    apply render_full_format. assumption. }
  split; [|split].
  - unfold full_format.
    apply (matches_full_format _ _ _ _ _ _ Hstage
             (pretty_digits_nonempty M) (pretty_digits_nonempty m)
             (pretty_digits_nonempty p) (pretty_digits_nonempty n)
             (join_pretty_chars b Hb)
             (Z.of_N M) (Z.of_N m) (Z.of_N p) (Z.of_N n) (Z.of_N <$> b));
      auto using int_of_pretty, parse_build_pretty.
  - exact Hrt.
  - unfold render_parse in *. rewrite parse_version_v. exact Hrt.
Qed.

Lemma render_parse_full_format_witness :
  matches_full "9.0.100-preview.7.25351.106" /\
  render_parse "9.0.100-preview.7.25351.106"
  = Ok "9.0.100-preview.7.25351.106" /\
  render_parse "v9.0.100-preview.7.25351.106"
  = Ok "9.0.100-preview.7.25351.106".
Proof.
  apply (render_parse_full_format 9 0 100 7 "preview" [25351; 106]%N).
  - apply list_elem_of_further, list_elem_of_here.
  - discriminate.
  - repeat constructor; unfold within_digit_limit, max_str_digits; simpl; lia.
Defined.

(** ** Unrecognised suffixes *)

(** When the base part gives three integers and the non-empty suffix
    matches neither pattern, the tag parses to the unknown stage. *)
Lemma parse_unknown_suffix (tag base_part sep suffix : string) (a b c : Z) :
  Py.partition "-" (Py.lstrip "v" tag) = (base_part, sep, suffix) ->
  map_result Py.int (Py.slice_to 3 (Py.split "." base_part)) = Ok [a; b; c] ->
  Py.truthy suffix = true ->
  Re.full_match suffix = None -> Re.simple_match suffix = None ->
  parse_version tag = Ok (mkVersion a b c (-1) 0 []).
Proof.
  intros Hpart Hbase Htruthy Hfull Hsimple.
  unfold parse_version. rewrite Hpart. cbv beta iota zeta.
  rewrite Hbase. cbn [mbind result_bind unpack3].
  unfold parse_suffix. rewrite Htruthy, Hfull, Hsimple. reflexivity.
Qed.

(** C3: a tag whose base part gives three integers can still fail to
    parse.  The build group of both patterns is [[\d.]+], which also
    matches a build with an empty component; [int] then fails on the
    empty string. *)
Theorem parse_raises_on_empty_build_component :
  base_parses "9.0.100-preview.7.1." /\
  Re.full_match "preview.7.1." = Some ("preview", "7", "1.") /\
  parse_version "9.0.100-preview.7.1." = Raise ValueError /\
  base_parses "9.0.100-rtm.5.x" /\
  Re.full_match "rtm.5.x" = None /\
  Re.simple_match "rtm.5.x" = Some ("rtm", "5.") /\
  parse_version "9.0.100-rtm.5.x" = Raise ValueError.
Proof.
  repeat split; try (vm_compute; reflexivity);
    exists 9%Z, 0%Z, 100%Z; reflexivity.
Qed.


(** ** The fallback search, case by case *)

Section fallback_facts.

Variables (ibm_parsed : list Version) (version_to_tag_map : gmap Version string).
Variables (requested : Version) (nuget_set : gset string) (idx : nat).

Lemma search_directions_cases (offset : nat) (directions : list Z)
    (chosen : option string) (log : list notice) :
  let res := search_directions ibm_parsed version_to_tag_map requested
               nuget_set idx offset directions chosen log in
  (res = (log, Ok chosen) /\
   forall d c, d ∈ directions -> probed ibm_parsed idx offset d c ->
     major c = major requested ->
     is_version_in_nuget nuget_set c = Ok false) \/
  (exists c name, hit_of ibm_parsed version_to_tag_map requested nuget_set c name /\
     res = (log ++ [UsingNearest name], Ok (Some name))) \/
  (exists e, res = (log, Raise e) /\
     raise_cause ibm_parsed version_to_tag_map requested nuget_set e).
Proof.
  induction directions as [|d ds IH]; cbn [search_directions].
  - left. split; [reflexivity|]. intros d c []%elem_of_nil.
  - set (i := (Z.of_nat idx + d * Z.of_nat offset)%Z).
    assert (forall P : Version -> Prop,
      (forall c, probed ibm_parsed idx offset d c -> P c) ->
      (forall d' c, d' ∈ ds -> probed ibm_parsed idx offset d' c -> P c) ->
      forall d' c, d' ∈ d :: ds -> probed ibm_parsed idx offset d' c -> P c) as Hsplit.
    { intros P H1 H2 d' c [->|Hin]%elem_of_cons; eauto. }
    destruct (decide (i < 0 \/ i >= Z.of_nat (length ibm_parsed))%Z) as [Hout|Hin].
    { destruct IH as [[-> IH]|[IH|IH]]; [left|right; left|right; right]; auto.
      split; [reflexivity|].
      apply (Hsplit (fun c => major c = major requested ->
                              is_version_in_nuget nuget_set c = Ok false));
        [|exact IH].
      intros c [Hr _]. fold i in Hr. lia. }
    unfold mbind, io_bind, lift, list_index.
    destruct (ibm_parsed !! Z.to_nat i) as [c|] eqn:Hc.
    2:{ apply lookup_ge_None in Hc. lia. }
    assert (c ∈ ibm_parsed) as Hcin by (apply list_elem_of_lookup; eauto).
    assert (major c <> major requested \/ major c = major requested) as Hmaj
      by (destruct (decide (major c = major requested)); tauto).
    destruct (decide (major c <> major requested)) as [Hne|Heq].
    { destruct IH as [[-> IH]|[IH|IH]]; [left|right; left|right; right]; auto.
      split; [reflexivity|].
      apply (Hsplit (fun c => major c = major requested ->
                              is_version_in_nuget nuget_set c = Ok false));
        [|exact IH].
      intros c' [_ Hc']. fold i in Hc'. congruence. }
    destruct (is_version_in_nuget nuget_set c) as [[|]|e] eqn:Hhit.
    + unfold subscript.
      destruct (version_to_tag_map !! c) as [name|] eqn:Hname.
      * right; left. exists c, name. split; [|reflexivity].
        repeat split; auto. tauto.
      * right; right. exists KeyError. split; [reflexivity|].
        exists c. repeat split; auto; tauto.
    + destruct IH as [[-> IH]|[IH|IH]]; [left|right; left|right; right]; auto.
      split; [reflexivity|].
      apply (Hsplit (fun c => major c = major requested ->
                              is_version_in_nuget nuget_set c = Ok false));
        [|exact IH].
      intros c' [_ Hc'] _. fold i in Hc'. congruence.
    + right; right. exists e. split; [reflexivity|].
      exists c. repeat split; auto; tauto.
Qed.

Hypothesis names_truthy :
  forall c name, version_to_tag_map !! c = Some name -> Py.truthy name = true.

Lemma search_offsets_cases (offsets : list nat) (log : list notice) :
  let res := search_offsets ibm_parsed version_to_tag_map requested
               nuget_set idx offsets None log in
  (res = (log, Ok None) /\
   forall offset d c, offset ∈ offsets -> d ∈ [1; -1]%Z -> probed ibm_parsed idx offset d c ->
     major c = major requested ->
     is_version_in_nuget nuget_set c = Ok false) \/
  (exists c name, hit_of ibm_parsed version_to_tag_map requested nuget_set c name /\
     res = (log ++ [UsingNearest name], Ok (Some name))) \/
  (exists e, res = (log, Raise e) /\
     raise_cause ibm_parsed version_to_tag_map requested nuget_set e).
Proof using names_truthy.
  induction offsets as [|offset offsets IH]; cbn [search_offsets].
  - left. split; [reflexivity|]. intros offset d c []%elem_of_nil.
  - unfold mbind, io_bind.
    destruct (search_directions_cases offset [1; -1]%Z None log)
      as [[-> Hmiss]|[(c & name & Hhit & ->)|[e [-> Hcause]]]].
    + simpl. destruct IH as [[-> IH]|[IH|IH]]; [left|right; left|right; right];
        auto.
      split; [reflexivity|].
      intros offset' d c [->|Hin]%elem_of_cons; eauto.
    + right; left. exists c, name. split; [assumption|].
      destruct Hhit as (_ & _ & _ & Hname).
      simpl. rewrite (names_truthy c name Hname). reflexivity.
    + right; right. eauto.
Qed.

End fallback_facts.

(** ** The outcomes of reconciliation *)

Lemma collect_names_truthy (keep : Version -> bool) (all_tags : list release)
    (c : Version) (name : string) :
  (collect keep all_tags).2 !! c = Some name -> Py.truthy name = true.
Proof.
  intros (t & _ & _ & Hp)%collect_lookup.
  exact (parse_version_nonempty _ _ Hp).
Qed.

(** Every run of [reconcile] on a parseable request ends in one of five
    ways: no release of the major, the exact match, a hit of the fallback
    search, the fallback search exhausted, or an exception raised by a
    lookup after the registry was fetched. *)
Lemma reconcile_cases (tag : string) (all_tags : list release)
    (nuget_versions : list string) (requested : Version) :
  parse_version (Py.lstrip "v" tag) = Ok requested ->
  let keep := fun v => bool_decide (major v = major requested) in
  let m := (collect keep all_tags).2 in
  let sorted := sort_versions (collect keep all_tags).1 in
  let idx := bisect_left sorted requested in
  let nuget_set : gset string := list_to_set nuget_versions in
  let res := run (reconcile tag all_tags nuget_versions) in
  (sorted = [] /\ res = ([NoReleaseForMajor], Raise Exit)) \/
  (sorted <> [] /\
   ((exists name, sorted !! idx = Some requested /\
       is_version_in_nuget nuget_set requested = Ok true /\
       m !! requested = Some name /\
       res = ([FetchingNuget; ResolvedTag name], Ok name)) \/
    (exists c name, hit_of sorted m requested nuget_set c name /\
       res = ([FetchingNuget; UsingNearest name; ResolvedTag name], Ok name)) \/
    (res = ([FetchingNuget; NoCompatibleVersion tag], Raise Exit) /\
     forall offset d c, offset ∈ seq 0 (length sorted) -> d ∈ [1; -1]%Z ->
       probed sorted idx offset d c -> major c = major requested ->
       is_version_in_nuget nuget_set c = Ok false) \/
    (exists e, res = ([FetchingNuget], Raise e) /\
       raise_cause sorted m requested nuget_set e))).
Proof.
  intros Hparse keep m sorted idx nuget_set res.
  pose proof (collect_names_truthy keep all_tags) as Htruthy. fold m in Htruthy.
  subst res. unfold run, reconcile, mbind, io_bind, lift, mret, io_ret, raise.
  rewrite Hparse. fold keep. subst sorted idx m.
  destruct (collect keep all_tags) as [parsed m]. cbn [fst snd] in *.
  destruct parsed as [|v0 parsed]; [left; split; reflexivity|].
  right. set (sorted := sort_versions (v0 :: parsed)).
  assert (sorted <> []) as Hne.
  { intros Hnil. pose proof (sort_versions_length (v0 :: parsed)) as Hlen.
    fold sorted in Hlen. rewrite Hnil in Hlen. discriminate Hlen. }
  split; [assumption|].
  set (idx := bisect_left sorted requested).
  unfold echo. cbn [app]. fold nuget_set.
  assert (forall log : list notice,
    let res := search_offsets sorted m requested nuget_set idx
                 (seq 0 (length sorted)) None log in
    (res = (log, Ok None) /\
     forall offset d c, offset ∈ seq 0 (length sorted) -> d ∈ [1; -1]%Z ->
       probed sorted idx offset d c -> major c = major requested ->
       is_version_in_nuget nuget_set c = Ok false) \/
    (exists c name, hit_of sorted m requested nuget_set c name /\
       res = (log ++ [UsingNearest name], Ok (Some name))) \/
    (exists e, res = (log, Raise e) /\
       raise_cause sorted m requested nuget_set e)) as Hsearch.
  { intros log. apply search_offsets_cases. exact Htruthy. }
  destruct (decide (idx < length sorted /\ sorted !! idx = Some requested))
    as [[_ Hexact]|Hno];
    [destruct (is_version_in_nuget nuget_set requested) as [[|]|e] eqn:Hin;
       [unfold subscript; destruct (m !! requested) as [name|] eqn:Hname| |]|].
  - left. exists name. repeat split; auto.
    pose proof (Htruthy requested name Hname) as Hn.
    destruct name; [discriminate Hn | reflexivity].
  - right; right; right. exists KeyError. split; [reflexivity|].
    exists requested. repeat split; auto.
    apply list_elem_of_lookup. eauto.
  - (* the exact match is not in the registry: fallback *)
    cbn [truthy_opt]. cbv beta iota.
    destruct (Hsearch [FetchingNuget])
      as [[Heq Hmiss]|[(c & name & Hhit & Heq)|[e [Heq Hcause]]]];
      cbv zeta in Heq; rewrite Heq; cbv beta iota.
    + right; right; left. split; [reflexivity | exact Hmiss].
    + right; left. exists c, name. split; [assumption|].
      destruct Hhit as (_ & _ & _ & Hn). apply Htruthy in Hn.
      destruct name; [discriminate Hn | reflexivity].
    + right; right; right. exists e. split; [reflexivity | exact Hcause].
  - right; right; right. exists e. split; [reflexivity|].
    exists requested. repeat split; auto.
    apply list_elem_of_lookup. eauto.
  - (* no exact match: fallback *)
    cbn [truthy_opt]. cbv beta iota.
    destruct (Hsearch [FetchingNuget])
      as [[Heq Hmiss]|[(c & name & Hhit & Heq)|[e [Heq Hcause]]]];
      cbv zeta in Heq; rewrite Heq; cbv beta iota.
    + right; right; left. split; [reflexivity | exact Hmiss].
    + right; left. exists c, name. split; [assumption|].
      destruct Hhit as (_ & _ & _ & Hn). apply Htruthy in Hn.
      destruct name; [discriminate Hn | reflexivity].
    + right; right; right. exists e. split; [reflexivity | exact Hcause].
Qed.

(** ** What [parse_version] can return *)

Section parse_shape.

Implicit Types (s t : string) (c sep : ascii) (p : ascii -> bool).

Lemma partition_head sep s :
  all_chars (is_not sep) (Py.partition sep s).1.1 = true /\
  ((Py.partition sep s).1.2 = "" -> (Py.partition sep s).1.1 = s).
Proof.
  induction s as [|a s [IH1 IH2]]; [split; reflexivity|].
  cbn [Py.partition]. destruct (Ascii.eqb a sep) eqn:Ha.
  - split; [reflexivity | discriminate].
  - destruct (Py.partition sep s) as [[h f] t]. cbn [fst snd] in *.
    destruct f as [|c f]; cbn [fst snd].
    + pose proof (IH2 eq_refl) as ->. split; [|reflexivity].
      simpl. unfold is_not at 1. rewrite Ha, IH1. reflexivity.
    + split; [|discriminate]. simpl. unfold is_not at 1.
      rewrite Ha, IH1. reflexivity.
Qed.

Lemma split_parts p sep s :
  all_chars p s = true ->
  Forall (fun x => all_chars p x = true) (Py.split sep s).
Proof.
  induction s as [|a s IH]; [intros _; repeat constructor|].
  simpl. intros [Ha Hs]%andb_prop. specialize (IH Hs).
  destruct (Ascii.eqb a sep).
  - constructor; [reflexivity | assumption].
  - destruct (Py.split sep s) as [|h t]; [repeat constructor; simpl; rewrite Ha; reflexivity|].
    apply Forall_cons in IH as [Hh Ht]. constructor; [|assumption].
    simpl. rewrite Ha, Hh. reflexivity.
Qed.

Lemma split_nonempty sep s : Py.split sep s <> [].
Proof.
  destruct s as [|a s]; [discriminate|]. simpl.
  destruct (Ascii.eqb a sep); [discriminate|].
  destruct (Py.split sep s); discriminate.
Qed.

Lemma skip_space_chars p s :
  all_chars p s = true -> all_chars p (Py.skip_space s) = true.
Proof.
  induction s as [|a s IH]; [reflexivity|]. simpl.
  intros [Ha Hs]%andb_prop. destruct (Py.is_space a); [auto|].
  simpl. rewrite Ha, Hs. reflexivity.
Qed.

Lemma digit_val_nonneg c : Py.is_digit c = true -> (0 <= Py.digit_val c)%Z.
Proof.
  unfold Py.is_digit, Py.digit_val.
  intros [H1%Nat.leb_le _]%andb_prop. lia.
Qed.

Lemma int_digits_nonneg s (acc : Z) (b : bool) (n : Z) :
  (0 <= acc)%Z -> Py.int_digits s acc b = Some n -> (0 <= n)%Z.
Proof.
  revert acc b. induction s as [|c s IH]; intros acc b Hacc; simpl.
  - destruct b; [intros [= <-]; assumption | discriminate].
  - destruct (Py.is_digit c) eqn:Hc.
    { apply IH. pose proof (digit_val_nonneg c Hc). lia. }
    destruct (Ascii.eqb c "_").
    { destruct b; [apply IH; assumption | discriminate]. }
    destruct (Py.is_space c); [|discriminate].
    destruct (b && Py.all_space s); [intros [= <-]; assumption | discriminate].
Qed.

(** [int] of a string without a minus sign is not negative. *)
Lemma int_nonneg s (z : Z) :
  all_chars (is_not "-") s = true -> Py.int s = Ok z -> (0 <= z)%Z.
Proof.
  intros Hs%skip_space_chars. unfold Py.int.
  destruct (Py.skip_space s) as [|c r] eqn:Hsk.
  - simpl. discriminate.
  - assert (exists body,
      (match String c r with
       | String "+" r => (1, r)
       | String "-" r => (-1, r)
       | _ => (1, String c r)
       end)%Z = (1%Z, body)) as [body ->].
    { simpl in Hs. apply andb_prop in Hs as [Hc _].
      destruct c as [[] [] [] [] [] [] [] []];
        try discriminate Hc; eauto. }
    destruct (Py.int_digits body 0 false) as [n|] eqn:Hn; [|discriminate].
    intros [= <-]. apply int_digits_nonneg in Hn; lia.
Qed.

Lemma map_result_Forall2 {A B} (f : A -> result B) (l : list A) (l' : list B) :
  map_result f l = Ok l' -> Forall2 (fun x y => f x = Ok y) l l'.
Proof.
  revert l'. induction l as [|x l IH]; intros l'; simpl.
  - intros [= <-]. constructor.
  - destruct (f x) as [y|] eqn:Hy; [|discriminate]. simpl.
    destruct (map_result f l) as [ys|]; [|discriminate]. simpl.
    intros [= <-]. constructor; auto.
Qed.

Lemma map_int_nonneg (l : list string) (zs : list Z) :
  Forall (fun x => all_chars (is_not "-") x = true) l ->
  map_result Py.int l = Ok zs ->
  Forall (fun z => 0 <= z)%Z zs /\ length zs = length l.
Proof.
  intros Hl H%map_result_Forall2. induction H as [|x z l zs Hx H IH].
  - split; [constructor | reflexivity].
  - apply Forall_cons in Hl as [Hx' Hl]. destruct (IH Hl) as [IH1 IH2].
    split; [|simpl; congruence]. constructor; [|assumption].
    eapply int_nonneg; eassumption.
Qed.

Lemma span_chars p s : all_chars p (Re.span p s).1 = true.
Proof.
  induction s as [|a s IH]; [reflexivity|]. simpl.
  destruct (p a) eqn:Ha; [|reflexivity].
  destruct (Re.span p s) as [h t]. simpl in *. rewrite Ha, IH. reflexivity.
Qed.

Lemma plus_chars p s h t : Re.plus p s = Some (h, t) -> all_chars p h = true.
Proof.
  unfold Re.plus. pose proof (span_chars p s) as H.
  destruct (Re.span p s) as [[|c h'] t']; [discriminate|].
  intros [= <- <-]. exact H.
Qed.

Lemma alt_in (alts : list string) s a r :
  Re.alt alts s = Some (a, r) -> a ∈ alts.
Proof.
  induction alts as [|x alts IH]; simpl; [discriminate|].
  destruct (Re.lit x s).
  - intros [= <- <-]. apply list_elem_of_here.
  - intros H. apply list_elem_of_further. auto.
Qed.

Lemma full_match_groups s stage number bld :
  Re.full_match s = Some (stage, number, bld) ->
  stage ∈ Re.stages /\ all_chars Py.is_digit number = true /\
  all_chars Re.digit_or_dot bld = true.
Proof.
  unfold Re.full_match.
  destruct (Re.alt Re.stages s) as [[st r]|] eqn:Halt; [|discriminate].
  cbn [mbind option_bind].
  destruct (Re.lit "." r) as [r1|]; [|discriminate]. cbn [mbind option_bind].
  destruct (Re.plus Py.is_digit r1) as [[num r2]|] eqn:Hnum; [|discriminate].
  cbn [mbind option_bind].
  destruct (Re.lit "." r2) as [r3|]; [|discriminate]. cbn [mbind option_bind].
  destruct (Re.plus Re.digit_or_dot r3) as [[b r4]|] eqn:Hb; [|discriminate].
  cbn [mbind option_bind]. intros [= <- <- <-].
  repeat split;
    [eapply alt_in | eapply plus_chars | eapply plus_chars]; eassumption.
Qed.

Lemma simple_match_groups s stage bld :
  Re.simple_match s = Some (stage, bld) ->
  stage ∈ Re.stages /\ all_chars Re.digit_or_dot bld = true.
Proof.
  unfold Re.simple_match.
  destruct (Re.alt Re.stages s) as [[st r]|] eqn:Halt; [|discriminate].
  cbn [mbind option_bind].
  destruct (Re.lit "." r) as [r1|]; [|discriminate]. cbn [mbind option_bind].
  destruct (Re.plus Re.digit_or_dot r1) as [[b r2]|] eqn:Hb; [|discriminate].
  cbn [mbind option_bind]. intros [= <- <-].
  split; [eapply alt_in | eapply plus_chars]; eassumption.
Qed.

Lemma parse_build_shape bld (b : list Z) :
  all_chars Re.digit_or_dot bld = true -> parse_build bld = Ok b ->
  Forall (fun z => 0 <= z)%Z b /\ b <> [].
Proof.
  intros Hb Hparse. unfold parse_build in Hparse.
  destruct (map_int_nonneg (Py.split "." bld) b) as [Hnn Hlen]; [|assumption|].
  - apply split_parts. eapply all_chars_impl; [|exact Hb].
    apply digit_or_dot_not_dash.
  - split; [assumption|]. intros ->.
    destruct (Py.split "." bld) eqn:Hs; [|discriminate].
    exact (split_nonempty _ _ Hs).
Qed.

Lemma stage_priority_range (stage : string) :
  stage ∈ Re.stages ->
  (0 <= dict_get stage_priority_map (Some stage) (-1) < 4)%Z.
Proof.
  intros H. unfold Re.stages in H.
  repeat (apply elem_of_cons in H as [->|H]); [| | | |];
    try (vm_compute; split; [discriminate | reflexivity]).
  apply elem_of_nil in H. contradiction.
Qed.

(** The three results of the suffix block. *)
Lemma parse_suffix_shape suffix (stage : option string) (n : Z) (b : list Z) :
  parse_suffix suffix = Ok (stage, n, b) ->
  (0 <= n)%Z /\ Forall (fun z => 0 <= z)%Z b /\
  (((stage = None \/ stage = Some "unknown") /\ n = 0%Z /\ b = []) \/
   ((exists st, stage = Some st /\ st ∈ Re.stages) /\ b <> [])).
Proof.
  unfold parse_suffix. destruct (Py.truthy suffix).
  2:{ intros [= <- <- <-]. split; [lia|]. split; [constructor|]. left. auto. }
  destruct (Re.full_match suffix) as [[[st num] bld]|] eqn:Hfull.
  - apply full_match_groups in Hfull as (Hst & Hnum & Hbld).
    destruct (Py.int num) as [n'|] eqn:Hn; [|discriminate]. simpl.
    destruct (parse_build bld) as [b'|] eqn:Hb; [|discriminate]. simpl.
    intros [= <- <- <-].
    destruct (parse_build_shape bld b' Hbld Hb) as [Hnn Hne].
    repeat split; auto.
    + eapply int_nonneg; [|exact Hn]. eapply all_chars_impl; [|exact Hnum].
      intros c Hc. apply (digit_not_sep c Hc).
    + right. eauto.
  - destruct (Re.simple_match suffix) as [[st bld]|] eqn:Hsimple.
    + apply simple_match_groups in Hsimple as (Hst & Hbld).
      destruct (parse_build bld) as [b'|] eqn:Hb; [|discriminate]. simpl.
      intros [= <- <- <-].
      destruct (parse_build_shape bld b' Hbld Hb) as [Hnn Hne].
      repeat split; auto; [lia|]. right. eauto.
    + intros [= <- <- <-]. split; [lia|]. split; [constructor|]. left. auto.
Qed.

Lemma parse_version_fields tag (v : Version) :
  parse_version tag = Ok v -> well_formed v.
Proof.
  unfold parse_version.
  pose proof (partition_head "-" (Py.lstrip "v" tag)) as [Hhead _].
  destruct (Py.partition "-" (Py.lstrip "v" tag)) as [[base sep] suffix].
  cbn [fst snd] in Hhead.
  destruct (map_result Py.int (Py.slice_to 3 (Py.split "." base)))
    as [ints|] eqn:Hints; [|discriminate]. cbn [mbind result_bind].
  destruct (map_int_nonneg (Py.slice_to 3 (Py.split "." base)) ints)
    as [Hnn _]; [|assumption|].
  { unfold Py.slice_to. apply Forall_take, split_parts. assumption. }
  destruct ints as [|a [|b [|c [|]]]]; try discriminate. cbn [unpack3].
  apply Forall_cons in Hnn as [Ha Hnn]. apply Forall_cons in Hnn as [Hb Hnn].
  apply Forall_cons in Hnn as [Hc _].
  destruct (parse_suffix suffix) as [[[stage n] bld]|] eqn:Hsfx; [|discriminate].
  cbn [mbind result_bind]. intros [= <-].
  destruct (parse_suffix_shape _ _ _ _ Hsfx) as (Hn & Hbld & Hcases).
  unfold well_formed. cbn [major minor patch stage_priority stage_number build].
  repeat split; auto.
  destruct Hcases as [[[-> | ->] [-> ->]]|[(st & -> & Hst) Hne]].
  - left. repeat split; auto.
  - left. repeat split; auto.
  - right. split; [|assumption]. apply stage_priority_range. assumption.
Qed.

End parse_shape.

(** ** The stage of a tag *)

Lemma lit_app (p s r : string) : Re.lit p s = Some r -> s = p +:+ r.
Proof.
  revert s. induction p as [|b p IH]; intros s; simpl.
  - intros [= <-]. reflexivity.
  - destruct s as [|a s]; [discriminate|].
    destruct (Ascii.eqb a b) eqn:Hab; [|discriminate].
    apply Ascii.eqb_eq in Hab as ->. intros H. apply IH in H as ->.
    reflexivity.
Qed.

Lemma alt_app (alts : list string) (s a r : string) :
  Re.alt alts s = Some (a, r) -> s = a +:+ r.
Proof.
  induction alts as [|x alts IH]; simpl; [discriminate|].
  destruct (Re.lit x s) as [r'|] eqn:Hlit; [|exact IH].
  intros [= <- <-]. apply lit_app. exact Hlit.
Qed.

Lemma plus_head (p : ascii -> bool) (s h t : string) :
  Re.plus p s = Some (h, t) -> exists c s', s = String c s' /\ p c = true.
Proof.
  unfold Re.plus. destruct s as [|c s']; [discriminate|]. simpl.
  destruct (p c) eqn:Hc; [|discriminate]. eauto.
Qed.

Lemma startswith_app (p r : string) : Py.startswith (p +:+ r) p = true.
Proof.
  induction p as [|b p IH]; [destruct r; reflexivity|].
  rewrite append_cons. simpl. rewrite Ascii.eqb_refl. exact IH.
Qed.

Lemma startswith_inv (s p : string) :
  Py.startswith s p = true -> exists r, s = p +:+ r.
Proof.
  revert s. induction p as [|b p IH]; intros s.
  - intros _. exists s. reflexivity.
  - destruct s as [|a s]; [discriminate|]. simpl.
    intros [Hab H]%andb_true_iff. apply Ascii.eqb_eq in Hab as ->.
    destruct (IH _ H) as [r ->]. exists r. reflexivity.
Qed.

Lemma digit_or_dot_cases (c : ascii) :
  Re.digit_or_dot c = true <-> Py.is_digit c = true \/ c = "."%char.
Proof.
  unfold Re.digit_or_dot. rewrite orb_true_iff, Ascii.eqb_eq. reflexivity.
Qed.

(** A suffix that names a stage is one on which the alternation of the
    two patterns finds that stage. *)
Lemma names_stage_alt (s suffix : string) :
  s ∈ Re.stages -> names_stage s suffix ->
  exists c rest, Re.digit_or_dot c = true /\
    Re.alt Re.stages suffix = Some (s, String "." (String c rest)).
Proof.
  intros Hs (c & Hc & [rest ->]%startswith_inv).
  exists c, rest. split; [apply digit_or_dot_cases; exact Hc|].
  unfold Re.stages in Hs.
  repeat (apply elem_of_cons in Hs as [->|Hs]);
    [reflexivity | reflexivity | reflexivity | reflexivity |].
  apply elem_of_nil in Hs. contradiction.
Qed.

Lemma names_stage_unique (s s' suffix : string) :
  s ∈ Re.stages -> s' ∈ Re.stages ->
  names_stage s suffix -> names_stage s' suffix -> s = s'.
Proof.
  intros Hs Hs' Hn Hn'.
  destruct (names_stage_alt _ _ Hs Hn) as (c & rest & _ & H).
  destruct (names_stage_alt _ _ Hs' Hn') as (c' & rest' & _ & H').
  congruence.
Qed.

Lemma names_stage_simple (s suffix : string) :
  s ∈ Re.stages -> names_stage s suffix ->
  exists bld, Re.simple_match suffix = Some (s, bld).
Proof.
  intros Hs Hn. destruct (names_stage_alt _ _ Hs Hn) as (c & rest & Hc & Halt).
  unfold Re.simple_match. rewrite Halt. cbn [mbind option_bind].
  change (Re.lit "." (String "." (String c rest))) with (Some (String c rest)).
  cbn [mbind option_bind]. unfold Re.plus. cbn [Re.span]. rewrite Hc.
  destruct (Re.span Re.digit_or_dot rest) as [h t]. eauto.
Qed.

Lemma simple_match_names (suffix st bld : string) :
  Re.simple_match suffix = Some (st, bld) ->
  st ∈ Re.stages /\ names_stage st suffix.
Proof.
  unfold Re.simple_match.
  destruct (Re.alt Re.stages suffix) as [[st' r]|] eqn:Halt; [|discriminate].
  cbn [mbind option_bind].
  destruct (Re.lit "." r) as [r1|] eqn:Hdot; [|discriminate].
  cbn [mbind option_bind].
  destruct (Re.plus Re.digit_or_dot r1) as [[b r2]|] eqn:Hb; [|discriminate].
  cbn [mbind option_bind]. intros [= <- <-].
  split; [eapply alt_in; eassumption|].
  apply alt_app in Halt as ->. apply lit_app in Hdot as ->.
  apply plus_head in Hb as (c & s' & -> & Hc).
  exists c. split; [apply digit_or_dot_cases; exact Hc|].
  replace (st' +:+ "." +:+ String c s')
    with ((st' +:+ "." +:+ String c "") +:+ s')
    by (rewrite append_assoc; reflexivity).
  apply startswith_app.
Qed.

Lemma full_match_names (suffix st num bld : string) :
  Re.full_match suffix = Some (st, num, bld) ->
  st ∈ Re.stages /\ names_stage st suffix.
Proof.
  unfold Re.full_match.
  destruct (Re.alt Re.stages suffix) as [[st' r]|] eqn:Halt; [|discriminate].
  cbn [mbind option_bind].
  destruct (Re.lit "." r) as [r1|] eqn:Hdot; [|discriminate].
  cbn [mbind option_bind].
  destruct (Re.plus Py.is_digit r1) as [[n r2]|] eqn:Hn; [|discriminate].
  cbn [mbind option_bind].
  destruct (Re.lit "." r2) as [r3|]; [|discriminate]. cbn [mbind option_bind].
  destruct (Re.plus Re.digit_or_dot r3) as [[b r4]|]; [|discriminate].
  cbn [mbind option_bind]. intros [= <- <- <-].
  split; [eapply alt_in; eassumption|].
  apply alt_app in Halt as ->. apply lit_app in Hdot as ->.
  apply plus_head in Hn as (c & s' & -> & Hc).
  exists c. split; [left; exact Hc|].
  replace (st' +:+ "." +:+ String c s')
    with ((st' +:+ "." +:+ String c "") +:+ s')
    by (rewrite append_assoc; reflexivity).
  apply startswith_app.
Qed.

(** The stage that the suffix block finds is the stage that the suffix
    names. *)
Lemma parse_suffix_stage (suffix : string) (stage : option string) (n : Z)
    (b : list Z) :
  parse_suffix suffix = Ok (stage, n, b) ->
  (suffix = "" /\ stage = None) \/
  (suffix <> "" /\
   exists st, stage = Some st /\ st ∈ Re.stages /\ names_stage st suffix) \/
  (suffix <> "" /\ stage = Some "unknown" /\
   forall s, s ∈ Re.stages -> ~ names_stage s suffix).
Proof.
  unfold parse_suffix. destruct suffix as [|a suffix'].
  { intros [= <- <- <-]. left. auto. }
  set (suffix := String a suffix'). cbn [Py.truthy].
  assert (suffix <> "") as Hne by discriminate.
  destruct (Re.full_match suffix) as [[[st num] bld]|] eqn:Hfull.
  - apply full_match_names in Hfull as [Hst Hnames].
    destruct (Py.int num); [|discriminate]. cbn [mbind result_bind].
    destruct (parse_build bld); [|discriminate]. cbn [mbind result_bind].
    intros [= <- <- <-]. right; left. eauto.
  - destruct (Re.simple_match suffix) as [[st bld]|] eqn:Hsimple.
    + apply simple_match_names in Hsimple as [Hst Hnames].
      destruct (parse_build bld); [|discriminate]. cbn [mbind result_bind].
      intros [= <- <- <-]. right; left. eauto.
    + intros [= <- <- <-]. right; right. repeat split; auto.
      intros s Hs Hn. destruct (names_stage_simple _ _ Hs Hn) as [bld Hb].
      congruence.
Qed.

Lemma stage_order_names (s : string) :
  s ∈ Re.stages <-> Some s ∈ stage_order /\ s <> "unknown".
Proof.
  unfold Re.stages, stage_order. split.
  - intros H. repeat (apply elem_of_cons in H as [->|H]);
      try (apply elem_of_nil in H; contradiction);
      (split; [|discriminate]); repeat constructor.
  - intros [H Hne].
    repeat (apply elem_of_cons in H as [[= ->]|H]);
      try (apply elem_of_nil in H; contradiction);
      try congruence; repeat constructor.
Qed.

(** The priority that [parse_version] gives is the priority of the
    stage of the tag. *)
Lemma parse_version_stage (tag : string) (v : Version) (stage : option string) :
  parse_version tag = Ok v -> stage ∈ stage_order -> tag_stage tag stage ->
  stage_priority v = dict_get stage_priority_map stage (-1)%Z.
Proof.
  unfold parse_version, tag_stage, tag_suffix.
  destruct (Py.partition "-" (Py.lstrip "v" tag)) as [[base sep] suffix].
  cbn [snd].
  destruct (map_result Py.int (Py.slice_to 3 (Py.split "." base)))
    as [ints|]; [|discriminate]. cbn [mbind result_bind].
  destruct (unpack3 ints) as [[[M m] p]|]; [|discriminate].
  cbn [mbind result_bind].
  destruct (parse_suffix suffix) as [[[st n] b]|] eqn:Hsuffix; [|discriminate].
  cbn [mbind result_bind]. intros [= <-] Hin Hstage. cbn [stage_priority].
  f_equal.
  apply parse_suffix_stage in Hsuffix
    as [[Hnil ->]|[(Hne & s & -> & Hs & Hn)|(Hne & -> & Hnone)]].
  - destruct stage as [s|]; [|reflexivity]. destruct Hstage as [Hne _].
    contradiction.
  - destruct stage as [s'|]; [|contradiction]. destruct Hstage as [_ Hstage].
    destruct (String.eqb s' "unknown") eqn:Hu.
    + apply stage_order_names in Hs as [Hs Hsne].
      destruct (Hstage s Hs Hsne Hn).
    + f_equal. apply (names_stage_unique s s' suffix); auto.
      apply stage_order_names. split; [exact Hin|].
      intros ->. discriminate Hu.
  - destruct stage as [s'|]; [|contradiction]. destruct Hstage as [_ Hstage].
    destruct (String.eqb s' "unknown") eqn:Hu.
    + apply String.eqb_eq in Hu as ->. reflexivity.
    + destruct (Hnone s'); [|exact Hstage].
      apply stage_order_names. split; [exact Hin|].
      intros ->. discriminate Hu.
Qed.

(** C8: of two tags that parse to versions with the same major, minor
    and patch, the one whose stage comes earlier in unknown < alpha <
    preview < rc < rtm < stable parses to the strictly smaller version,
    whatever stage numbers and builds the two tags have. *)
Theorem stage_precedence (ta tb : string) (va vb : Version) (i j : nat)
    (sa sb : option string) :
  parse_version ta = Ok va -> parse_version tb = Ok vb ->
  major va = major vb -> minor va = minor vb -> patch va = patch vb ->
  stage_order !! i = Some sa -> tag_stage ta sa ->
  stage_order !! j = Some sb -> tag_stage tb sb ->
  i < j -> version_lt va vb.
Proof.
  intros Hpa Hpb HM Hm Hp Hi Hsa Hj Hsb Hlt.
  apply stage_priority_decides; try assumption.
  rewrite (parse_version_stage ta va sa), (parse_version_stage tb vb sb);
    try assumption; try (apply list_elem_of_lookup; eauto).
  rewrite (priority_of_position i sa Hi), (priority_of_position j sb Hj). lia.
Qed.

Lemma stage_precedence_witness :
  version_lt (mkVersion 9 0 100 (-1) 0 []) (mkVersion 9 0 100 0 0 [1]%Z).
Proof.
  apply (stage_precedence "v9.0.100-nightly.99.9" "9.0.100-alpha.1" _ _ 0 1
           (Some "unknown") (Some "alpha")); try reflexivity.
  - split; [vm_compute; discriminate|].
    change (String.eqb "unknown" "unknown") with true. cbv iota.
    intros s' Hin Hne (c & _ & Hstart).
    unfold stage_order in Hin.
    repeat (apply elem_of_cons in Hin as [[= ->]|Hin]);
      try (apply elem_of_nil in Hin; contradiction);
      vm_compute in Hstart; discriminate Hstart.
  - split; [vm_compute; discriminate|].
    exists "1"%char. split; [left; reflexivity | reflexivity].
  - lia.
Defined.

(** ** Rendering a version and parsing it again *)

Lemma partition_no_sep (sep : ascii) (s : string) :
  all_chars (is_not sep) s = true -> Py.partition sep s = (s, "", "").
Proof.
  induction s as [|a s IH]; [reflexivity|]. simpl.
  intros [Ha Hs]%andb_prop. unfold is_not in Ha.
  destruct (Ascii.eqb a sep); [discriminate|]. rewrite (IH Hs). reflexivity.
Qed.

(** Parsing [major.minor.patch] written with plain decimal numbers. *)
Lemma parse_stable_format (M m p : N) :
  parse_version (pretty M +:+ "." +:+ pretty m +:+ "." +:+ pretty p)
  = Ok (mkVersion (Z.of_N M) (Z.of_N m) (Z.of_N p) 4 0 []).
Proof.
  destruct (pretty_digits_nonempty M) as [HM HMne].
  destruct (pretty_digits_nonempty m) as [Hm Hmne].
  destruct (pretty_digits_nonempty p) as [Hp Hpne].
  unfold parse_version.
  rewrite lstrip_not; [|assumption|].
  2:{ eapply all_chars_impl; [|exact HM]. intros c Hc. apply (digit_not_sep c Hc). }
  rewrite partition_no_sep.
  2:{ eapply all_chars_impl; [|apply (base_chars (pretty M) (pretty m) (pretty p)); auto].
      apply digit_or_dot_not_dash. }
  cbv beta iota zeta. rewrite split_base by auto.
  change (map_result Py.int (Py.slice_to 3 [pretty M; pretty m; pretty p]))
    with (map_result Py.int (pretty <$> [M; m; p])).
  rewrite map_int_pretty. reflexivity.
Qed.

Lemma spec_stage_name_table (prio : Z) :
  (0 <= prio < 4)%Z ->
  spec_stage_name prio ∈ Re.stages /\
  dict_get stage_priority_map (Some (spec_stage_name prio)) (-1)%Z = prio.
Proof.
  intros H.
  assert (prio = 0 \/ prio = 1 \/ prio = 2 \/ prio = 3)%Z
    as [->|[->|[->| ->]]] by lia; (split; [|vm_compute; reflexivity]).
  - apply list_elem_of_here.
  - apply list_elem_of_further, list_elem_of_here.
  - do 2 apply list_elem_of_further. apply list_elem_of_here.
  - do 3 apply list_elem_of_further. apply list_elem_of_here.
Qed.

Lemma of_to_N_list (b : list Z) :
  Forall (fun x => 0 <= x)%Z b -> Z.of_N <$> (Z.to_N <$> b) = b.
Proof.
  induction 1 as [|x b Hx _ IH]; [reflexivity|].
  rewrite !fmap_cons, IH, Z2N.id by assumption. reflexivity.
Qed.

(** A well-formed version of known stage is rendered to a string that
    parses back to it. *)
Lemma parse_of_render (v : Version) :
  well_formed v -> stage_priority v <> (-1)%Z ->
  exists s, version_to_string v = Ok s /\ parse_version s = Ok v.
Proof.
  destruct v as [M m p prio n b]. unfold well_formed. simpl.
  intros (HM & Hm & Hp & Hn & Hb & Hcases) Hknown.
  destruct Hcases as [[[-> | ->] [-> ->]]|[Hprio Hne]]; [| congruence |].
  - exists (pretty (Z.to_N M) +:+ "." +:+ pretty (Z.to_N m) +:+ "."
            +:+ pretty (Z.to_N p)).
    split.
    + unfold version_to_string. simpl.
      rewrite <- !str_of_N, !Z2N.id by assumption. reflexivity.
    + rewrite parse_stable_format, !Z2N.id by assumption. reflexivity.
  - destruct (spec_stage_name_table prio Hprio) as [Hstage Hdict].
    exists (full_format (Z.to_N M) (Z.to_N m) (Z.to_N p)
              (spec_stage_name prio) (Z.to_N n) (Z.to_N <$> b)).
    assert (mkVersion M m p prio n b =
            mkVersion (Z.of_N (Z.to_N M)) (Z.of_N (Z.to_N m))
              (Z.of_N (Z.to_N p))
              (dict_get stage_priority_map (Some (spec_stage_name prio)) (-1)%Z)
              (Z.of_N (Z.to_N n)) (Z.of_N <$> (Z.to_N <$> b))) as ->.
    { rewrite Hdict, of_to_N_list, !Z2N.id by assumption. reflexivity. }
    split.
    + apply render_full_format. assumption.
    + apply parse_full_format; [assumption|].
      destruct b; [congruence | discriminate].
Qed.

Lemma well_formed_priority (v : Version) :
  well_formed v -> (-1 <= stage_priority v <= 4)%Z.
Proof. intros (_ & _ & _ & _ & _ & [[[?|?] _]|[? _]]); lia. Qed.

(** X1: every version that [parse_version] returns has no negative
    number, a stage priority between -1 and 4, stage number 0 and an
    empty build when the stage is stable or unknown, and a non-empty
    build when it is a prerelease stage. *)
Theorem parse_version_well_formed (tag : string) (v : Version) :
  parse_version tag = Ok v ->
  well_formed v /\ (-1 <= stage_priority v <= 4)%Z.
Proof.
  intros H%parse_version_fields. split; [assumption|].
  apply well_formed_priority. assumption.
Qed.

Lemma parse_version_well_formed_witness :
  well_formed (mkVersion 9 0 100 3 0 [24503]%Z) /\
  (-1 <= stage_priority (mkVersion 9 0 100 3 0 [24503]%Z) <= 4)%Z.
Proof.
  apply (parse_version_well_formed "v9.0.100-rtm.24503"). vm_compute. reflexivity.
Defined.



(** X3: rendering what was parsed normalises a tag: when a tag parses to
    a version of known stage, [render(parse(tag))] is a string that
    parses to the same version and that rendering after parsing leaves
    unchanged. *)
Theorem render_parse_fixed_point (tag : string) (v : Version) :
  parse_version tag = Ok v -> stage_priority v <> (-1)%Z ->
  exists s, render_parse tag = Ok s /\ parse_version s = Ok v /\
            render_parse s = Ok s.
Proof.
  intros Hparse Hknown.
  destruct (parse_of_render v (parse_version_fields _ _ Hparse) Hknown)
    as (s & Hs & Hp).
  exists s. unfold render_parse. rewrite Hparse, Hp. simpl. auto.
Qed.

Lemma render_parse_fixed_point_witness :
  exists s, render_parse "vv09.0.100.7-rtm.24503xyz" = Ok s /\
    parse_version s = Ok (mkVersion 9 0 100 3 0 [24503]%Z) /\
    render_parse s = Ok s.
Proof.
  apply (render_parse_fixed_point "vv09.0.100.7-rtm.24503xyz"
           (mkVersion 9 0 100 3 0 [24503]%Z)).
  - vm_compute. reflexivity.
  - discriminate.
Defined.

Lemma normalized_is_render_patch_0 (v : Version) :
  normalized_version_for_nuget v = version_to_string (with_patch 0 v).
Proof. destruct v. reflexivity. Qed.

Lemma well_formed_with_patch_0 (v : Version) :
  well_formed v -> well_formed (with_patch 0 v).
Proof.
  destruct v. unfold well_formed, with_patch. simpl.
  intros (? & ? & ? & ? & ? & ?). repeat split; auto. lia.
Qed.

Lemma normalized_key_known_stage (v : Version) (key : string) :
  normalized_version_for_nuget v = Ok key -> (0 <= stage_priority v)%Z.
Proof.
  unfold normalized_version_for_nuget, stage_suffix, subscript.
  destruct (decide (stage_priority v < 4)%Z); [|lia].
  rewrite stage_names_lookup.
  destruct (decide (0 <= stage_priority v < 4)%Z); [lia | discriminate].
Qed.

Lemma well_formed_stable (M m p : Z) :
  (0 <= M)%Z -> (0 <= m)%Z -> (0 <= p)%Z -> well_formed (stable M m p).
Proof.
  intros. unfold well_formed, stable. simpl.
  split; [assumption|]. split; [assumption|]. split; [assumption|].
  split; [lia|]. split; [constructor|]. left. auto.
Qed.

(** X4: the normalized key identifies a well-formed version up to its
    patch: two such versions with the same key agree on major, minor,
    stage, stage number and build. *)
Theorem normalized_key_injective (v w : Version) (key : string) :
  well_formed v -> well_formed w ->
  normalized_version_for_nuget v = Ok key ->
  normalized_version_for_nuget w = Ok key ->
  major v = major w /\ minor v = minor w /\
  stage_priority v = stage_priority w /\ stage_number v = stage_number w /\
  build v = build w.
Proof.
  intros Hv Hw Kv Kw.
  pose proof (normalized_key_known_stage v key Kv) as Pv.
  pose proof (normalized_key_known_stage w key Kw) as Pw.
  rewrite normalized_is_render_patch_0 in Kv, Kw.
  destruct (parse_of_render (with_patch 0 v)) as (s & Hs & Hp);
    [apply well_formed_with_patch_0; assumption | simpl; lia |].
  destruct (parse_of_render (with_patch 0 w)) as (t & Ht & Hq);
    [apply well_formed_with_patch_0; assumption | simpl; lia |].
  assert (s = key) as -> by congruence. assert (t = key) as -> by congruence.
  assert (with_patch 0 v = with_patch 0 w) as Heq by congruence.
  unfold with_patch in Heq. injection Heq. auto.
Qed.

Lemma normalized_key_injective_witness :
  major (stable 9 0 100) = major (stable 9 0 102) /\
  minor (stable 9 0 100) = minor (stable 9 0 102) /\
  stage_priority (stable 9 0 100) = stage_priority (stable 9 0 102) /\
  stage_number (stable 9 0 100) = stage_number (stable 9 0 102) /\
  build (stable 9 0 100) = build (stable 9 0 102).
Proof.
  apply (normalized_key_injective (stable 9 0 100) (stable 9 0 102) "9.0.0");
    try (vm_compute; reflexivity); apply well_formed_stable; lia.
Defined.

(** ** What reconciliation returns and how it fails *)

Lemma is_version_in_nuget_true (nuget_versions : list string) (v : Version) :
  is_version_in_nuget (list_to_set nuget_versions) v = Ok true ->
  exists key, normalized_version_for_nuget v = Ok key /\ key ∈ nuget_versions.
Proof.
  unfold is_version_in_nuget.
  destruct (normalized_version_for_nuget v) as [key|]; [|discriminate]. simpl.
  intros [= H%bool_decide_eq_true_1]. exists key. split; [reflexivity|].
  apply elem_of_list_to_set in H. exact H.
Qed.

Lemma is_version_in_nuget_raise (nuget_set : gset string) (v : Version) (e : exn) :
  is_version_in_nuget nuget_set v = Raise e ->
  e = KeyError /\ (stage_priority v < 0)%Z.
Proof.
  unfold is_version_in_nuget, normalized_version_for_nuget, stage_suffix,
    subscript.
  destruct (decide (stage_priority v < 4)%Z); [|discriminate].
  rewrite stage_names_lookup.
  destruct (decide (0 <= stage_priority v < 4)%Z); [discriminate|].
  simpl. intros [= <-]. split; [reflexivity | lia].
Qed.

Lemma int_raises_value_error (s : string) (e : exn) :
  Py.int s = Raise e -> e = ValueError.
Proof.
  unfold Py.int.
  destruct (match Py.skip_space s with
            | String "+" r => (1, r)
            | String "-" r => (-1, r)
            | _ => (1, Py.skip_space s)
            end)%Z as [sign body].
  destruct (Py.int_digits body 0 false); [discriminate | congruence].
Qed.

Lemma map_int_raises_value_error (l : list string) (e : exn) :
  map_result Py.int l = Raise e -> e = ValueError.
Proof.
  induction l as [|x l IH]; simpl; [discriminate|].
  destruct (Py.int x) eqn:Hx; simpl.
  - destruct (map_result Py.int l); [discriminate|]. simpl.
    intros [= <-]. auto.
  - intros [= <-]. eapply int_raises_value_error. eassumption.
Qed.

(** [parse_version] raises nothing but [ValueError]. *)
Lemma parse_version_raises_value_error (tag : string) (e : exn) :
  parse_version tag = Raise e -> e = ValueError.
Proof.
  unfold parse_version.
  destruct (Py.partition "-" (Py.lstrip "v" tag)) as [[base sep] suffix].
  destruct (map_result Py.int (Py.slice_to 3 (Py.split "." base)))
    as [ints|e'] eqn:Hints; cbn [mbind result_bind].
  2:{ intros [= <-]. eapply map_int_raises_value_error. eassumption. }
  destruct (unpack3 ints) as [[[a b] c]|e'] eqn:Hun; cbn [mbind result_bind].
  2:{ intros [= <-]. unfold unpack3 in Hun.
      destruct ints as [|? [|? [|? [|]]]]; congruence. }
  unfold parse_suffix. destruct (Py.truthy suffix); [|discriminate].
  destruct (Re.full_match suffix) as [[[st num] bld]|].
  - destruct (Py.int num) eqn:Hn; cbn [mbind result_bind].
    + unfold parse_build.
      destruct (map_result Py.int (Py.split "." bld)) eqn:Hb;
        cbn [mbind result_bind]; [discriminate|].
      intros [= <-]. eapply map_int_raises_value_error. eassumption.
    + intros [= <-]. eapply int_raises_value_error. eassumption.
  - destruct (Re.simple_match suffix) as [[st bld]|]; [|discriminate].
    unfold parse_build.
    destruct (map_result Py.int (Py.split "." bld)) eqn:Hb;
      cbn [mbind result_bind]; [discriminate|].
    intros [= <-]. eapply map_int_raises_value_error. eassumption.
Qed.

Section reconcile_facts.

Variables (tag : string) (all_tags : list release) (nuget_versions : list string).
Variable requested : Version.
Hypothesis request_parses : parse_version (Py.lstrip "v" tag) = Ok requested.

Local Abbreviation keep := (fun v => bool_decide (major v = major requested)).
Local Abbreviation m := ((collect keep all_tags).2).
Local Abbreviation sorted := (sort_versions (collect keep all_tags).1).

(** The sorted list holds the catalog versions of the requested major. *)
Lemma sorted_elem (c : Version) :
  c ∈ sorted <->
  major c = major requested /\ exists name, catalog_has all_tags name c.
Proof.
  rewrite sort_versions_elem, collect_elem.
  split; intros [H ?]; (split; [|assumption]).
  - apply bool_decide_eq_true_1 in H. exact H.
  - apply bool_decide_eq_true_2. exact H.
Qed.

Lemma hit_compatible (c : Version) (name : string) :
  hit_of sorted m requested (list_to_set nuget_versions) c name ->
  compatible requested nuget_versions all_tags name.
Proof.
  intros (Hc & Hmaj & (key & Hkey & Hin)%is_version_in_nuget_true & Hname).
  exists c, key. repeat split; auto.
  eapply collect_lookup. eassumption.
Qed.

End reconcile_facts.

(** X5: [reconcile] never returns an incompatible tag.  A returned name
    is the name of a catalog tag that parses to a version with the
    requested major whose normalized key is in the registry, and the
    output is the registry notice followed by the resolution notice,
    with the nearest-version notice between them when the fallback
    search found the tag. *)
Theorem reconcile_returns_compatible (tag : string) (all_tags : list release)
    (nuget_versions : list string) (log : list notice) (name : string) :
  run (reconcile tag all_tags nuget_versions) = (log, Ok name) ->
  exists requested,
    parse_version (Py.lstrip "v" tag) = Ok requested /\
    compatible requested nuget_versions all_tags name /\
    (log = [FetchingNuget; ResolvedTag name] \/
     log = [FetchingNuget; UsingNearest name; ResolvedTag name]).
Proof.
  intros Hrun.
  destruct (parse_version (Py.lstrip "v" tag)) as [requested|e] eqn:Hparse.
  2:{ unfold run, reconcile, mbind, io_bind, lift in Hrun.
      rewrite Hparse in Hrun. discriminate. }
  exists requested. split; [reflexivity|].
  destruct (reconcile_cases tag all_tags nuget_versions requested Hparse)
    as [[_ H]|[_ [(n & Hidx & Hin & Hname & H)|[(c & n & Hhit & H)|[[H _]|[e [H _]]]]]]];
    rewrite Hrun in H; try discriminate; injection H as -> ->.
  - split; [|left; reflexivity].
    apply (hit_compatible all_tags nuget_versions requested requested n).
    repeat split; auto. apply list_elem_of_lookup. eauto.
  - split; [|right; reflexivity].
    eapply hit_compatible. eassumption.
Qed.

Lemma reconcile_returns_compatible_witness :
  exists requested,
    parse_version (Py.lstrip "v" "v9.0.100") = Ok requested /\
    compatible requested ["9.0.0-rc.1.24452.12"]
      [mk_release "v9.0.100"; mk_release "v9.0.100-rc.1.24452.12"]
      "v9.0.100-rc.1.24452.12" /\
    ([FetchingNuget; UsingNearest "v9.0.100-rc.1.24452.12";
      ResolvedTag "v9.0.100-rc.1.24452.12"]
     = [FetchingNuget; ResolvedTag "v9.0.100-rc.1.24452.12"] \/
     [FetchingNuget; UsingNearest "v9.0.100-rc.1.24452.12";
      ResolvedTag "v9.0.100-rc.1.24452.12"]
     = [FetchingNuget; UsingNearest "v9.0.100-rc.1.24452.12";
        ResolvedTag "v9.0.100-rc.1.24452.12"]).
Proof.
  apply (reconcile_returns_compatible "v9.0.100"
           [mk_release "v9.0.100"; mk_release "v9.0.100-rc.1.24452.12"]
           ["9.0.0-rc.1.24452.12"]).
  vm_compute. reflexivity.
Defined.

(** A lookup of the search can only fail on a catalog tag of unknown
    stage. *)
Lemma raise_cause_unknown_stage (all_tags : list release)
    (nuget_set : gset string) (requested : Version) (e : exn) :
  let keep := fun v => bool_decide (major v = major requested) in
  raise_cause (sort_versions (collect keep all_tags).1)
    (collect keep all_tags).2 requested nuget_set e ->
  e = KeyError /\
  exists name v, catalog_has all_tags name v /\
    major v = major requested /\ stage_priority v = (-1)%Z.
Proof.
  intros keep (c & Hc & Hmaj & Hcause).
  pose proof (proj1 (sort_versions_elem _ _) Hc) as Hc'.
  destruct (collect_dom keep all_tags c Hc') as [name Hname].
  pose proof (collect_lookup keep all_tags c name Hname) as Hcat.
  destruct Hcause as [Hraise|(_ & Hnone & _)]; [|congruence].
  apply is_version_in_nuget_raise in Hraise as [-> Hneg].
  split; [reflexivity|]. exists name, c. repeat split; auto.
  destruct Hcat as (t & _ & _ & Hp).
  pose proof (well_formed_priority c (parse_version_fields _ _ Hp)). lia.
Qed.

(** X6: [reconcile] on a parseable request reports that there is no
    release for the major, and exits before the registry is consulted,
    exactly when no catalog tag parses to a version with the requested
    major. *)
Theorem reconcile_no_release_for_major (tag : string)
    (all_tags : list release) (nuget_versions : list string)
    (requested : Version) :
  parse_version (Py.lstrip "v" tag) = Ok requested ->
  (forall name v, catalog_has all_tags name v -> major v <> major requested)
  <-> run (reconcile tag all_tags nuget_versions)
      = ([NoReleaseForMajor], Raise Exit).
Proof.
  intros Hparse.
  pose proof (sorted_elem all_tags requested) as Helem.
  destruct (reconcile_cases tag all_tags nuget_versions requested Hparse)
    as [[Hnil H]|[Hne H]].
  - split; [intros _; exact H|]. intros _ name v Hcat Hmaj.
    assert (v ∈ sort_versions
              (collect (fun v => bool_decide (major v = major requested))
                 all_tags).1) as Hin by (apply Helem; eauto).
    rewrite Hnil in Hin. apply elem_of_nil in Hin. contradiction.
  - split.
    + intros Hnone. destruct Hne.
      apply elem_of_nil_inv. intros c (Hmaj & name & Hcat)%Helem.
      exact (Hnone name c Hcat Hmaj).
    + intros Hrun.
      destruct H as [(n & _ & _ & _ & H)|[(c & n & _ & H)|[[H _]|[e [H _]]]]];
        rewrite Hrun in H; discriminate.
Qed.

Lemma reconcile_no_release_for_major_witness :
  run (reconcile "10.0.100" [mk_release "v9.0.100"; mk_release "nightly"]
         ["9.0.0"; "10.0.0"])
  = ([NoReleaseForMajor], Raise Exit).
Proof.
  apply (reconcile_no_release_for_major "10.0.100"
           [mk_release "v9.0.100"; mk_release "nightly"] ["9.0.0"; "10.0.0"]
           (stable 10 0 100)).
  - vm_compute. reflexivity.
  - intros name v (t & Hin & Hname & Hp).
    repeat (apply elem_of_cons in Hin as [->|Hin]);
      try (apply elem_of_nil in Hin; contradiction);
      vm_compute in Hname; injection Hname as <-;
      vm_compute in Hp; try discriminate Hp.
    injection Hp as <-. discriminate.
Defined.

(** X7: the fallback search is complete when the request is not above
    every catalog version.  If some catalog version of the requested
    major is at least the requested version, no catalog tag of that
    major has the unknown stage, and a compatible tag exists, then
    [reconcile] returns a compatible tag. *)
Theorem reconcile_finds_when_not_above (tag : string)
    (all_tags : list release) (nuget_versions : list string)
    (requested : Version) :
  parse_version (Py.lstrip "v" tag) = Ok requested ->
  (exists name, compatible requested nuget_versions all_tags name) ->
  (exists name v, catalog_has all_tags name v /\
     major v = major requested /\ version_le requested v) ->
  (forall name v, catalog_has all_tags name v ->
     major v = major requested -> stage_priority v <> (-1)%Z) ->
  exists name log,
    run (reconcile tag all_tags nuget_versions) = (log, Ok name) /\
    compatible requested nuget_versions all_tags name.
Proof.
  intros Hparse (name0 & v0 & key & Hcat0 & Hmaj0 & Hkey & Hin0)
    (name1 & v1 & Hcat1 & Hmaj1 & Hle) Hknown.
  pose proof (sorted_elem all_tags requested) as Helem.
  pose proof (hit_compatible all_tags nuget_versions requested) as Hcompat.
  pose proof (raise_cause_unknown_stage all_tags
                (list_to_set nuget_versions) requested) as Hcause.
  pose proof (reconcile_cases tag all_tags nuget_versions requested Hparse)
    as Hcases.
  cbv zeta in Hcases, Hcause.
  set (sorted := sort_versions
         (collect (fun v => bool_decide (major v = major requested))
            all_tags).1) in *.
  pose proof (sort_versions_sorted
                (collect (fun v => bool_decide (major v = major requested))
                   all_tags).1) as Hsorted. fold sorted in Hsorted.
  assert (v0 ∈ sorted) as [j Hj]%list_elem_of_lookup by (apply Helem; eauto).
  assert (v1 ∈ sorted) as [j1 Hj1]%list_elem_of_lookup by (apply Helem; eauto).
  destruct Hcases as [[Hnil _]|[_ H]].
  { rewrite Hnil in Hj. discriminate Hj. }
  destruct H as [(n & Hidx & Hin & Hname & H)|[(c & n & Hhit & H)|[[_ Hmiss]|[e [_ He]]]]].
  - exists n, [FetchingNuget; ResolvedTag n]. split; [exact H|].
    apply (Hcompat requested n). repeat split; auto.
    apply list_elem_of_lookup. eauto.
  - exists n, [FetchingNuget; UsingNearest n; ResolvedTag n].
    split; [exact H|]. apply (Hcompat c n). exact Hhit.
  - exfalso.
    destruct (bisect_left_spec sorted requested Hsorted) as (_ & Hbelow & _).
    set (idx := bisect_left sorted requested) in *.
    pose proof (lookup_lt_Some _ _ _ Hj) as Hjlen.
    pose proof (lookup_lt_Some _ _ _ Hj1) as Hj1len.
    assert (idx <= j1) as Hidx.
    { destruct (decide (idx <= j1)); [assumption|].
      apply version_le_not_lt in Hle. destruct Hle.
      apply (Hbelow j1); [lia | assumption]. }
    assert (is_version_in_nuget (list_to_set nuget_versions) v0 = Ok false)
      as Hfalse.
    { destruct (decide (idx <= j)).
      - apply (Hmiss (j - idx) 1%Z v0); auto.
        + apply elem_of_seq. lia.
        + apply list_elem_of_here.
        + unfold probed. fold idx.
          replace (Z.of_nat idx + 1 * Z.of_nat (j - idx))%Z with (Z.of_nat j)
            by lia.
          rewrite Nat2Z.id. split; [lia | assumption].
      - apply (Hmiss (idx - j) (-1)%Z v0); auto.
        + apply elem_of_seq. lia.
        + apply list_elem_of_further, list_elem_of_here.
        + unfold probed. fold idx.
          replace (Z.of_nat idx + -1 * Z.of_nat (idx - j))%Z with (Z.of_nat j)
            by lia.
          rewrite Nat2Z.id. split; [lia | assumption]. }
    rewrite (is_version_in_nuget_hit nuget_versions v0 key Hkey Hin0) in Hfalse.
    discriminate.
  - exfalso. destruct (Hcause e He) as (_ & n & v & Hcat & Hmaj & Hprio).
    exact (Hknown n v Hcat Hmaj Hprio).
Qed.

Lemma reconcile_finds_when_not_above_witness :
  let all_tags := [mk_release "v9.0.200"; mk_release "v9.0.100-rc.1.5"] in
  exists name log,
    run (reconcile "9.0.150" all_tags ["9.0.0-rc.1.5"]) = (log, Ok name) /\
    compatible (stable 9 0 150) ["9.0.0-rc.1.5"] all_tags name.
Proof.
  intros all_tags.
  assert (catalog_has all_tags "v9.0.200" (stable 9 0 200)) as H200.
  { exists (mk_release "v9.0.200"). split; [apply list_elem_of_here|].
    split; vm_compute; reflexivity. }
  assert (catalog_has all_tags "v9.0.100-rc.1.5" (mkVersion 9 0 100 2 1 [5]%Z))
    as Hrc.
  { exists (mk_release "v9.0.100-rc.1.5").
    split; [apply list_elem_of_further, list_elem_of_here|].
    split; vm_compute; reflexivity. }
  apply (reconcile_finds_when_not_above "9.0.150" all_tags ["9.0.0-rc.1.5"]
           (stable 9 0 150)).
  - vm_compute. reflexivity.
  - exists "v9.0.100-rc.1.5", (mkVersion 9 0 100 2 1 [5]%Z), "9.0.0-rc.1.5".
    split; [exact Hrc|]. split; [reflexivity|].
    split; [vm_compute; reflexivity | apply list_elem_of_here].
  - exists "v9.0.200", (stable 9 0 200). split; [exact H200|].
    split; [reflexivity | vm_compute; discriminate].
  - intros name v (t & Hin & Hname & Hp) _.
    repeat (apply elem_of_cons in Hin as [->|Hin]);
      try (apply elem_of_nil in Hin; contradiction);
      vm_compute in Hname; injection Hname as <-;
      vm_compute in Hp; injection Hp as <-; discriminate.
Defined.

(** X8: the ways [reconcile] fails.  It raises [ValueError], before any
    output, exactly for a request that does not parse; it exits after
    reporting that there is no release for the major or no compatible
    version; and the only other exception is the [KeyError] of the
    stage-name lookup, raised after the registry notice, which needs a
    catalog tag of the requested major with the unknown stage.  It never
    fails on a list index. *)
Theorem reconcile_failures (tag : string) (all_tags : list release)
    (nuget_versions : list string) (log : list notice) (e : exn) :
  run (reconcile tag all_tags nuget_versions) = (log, Raise e) ->
  (e = ValueError /\ log = [] /\
   parse_version (Py.lstrip "v" tag) = Raise ValueError) \/
  (e = Exit /\
   (log = [NoReleaseForMajor] \/
    log = [FetchingNuget; NoCompatibleVersion tag])) \/
  (e = KeyError /\ log = [FetchingNuget] /\
   exists requested name v,
     parse_version (Py.lstrip "v" tag) = Ok requested /\
     catalog_has all_tags name v /\ major v = major requested /\
     stage_priority v = (-1)%Z).
Proof.
  intros Hrun.
  destruct (parse_version (Py.lstrip "v" tag)) as [requested|e'] eqn:Hparse.
  - pose proof (raise_cause_unknown_stage all_tags
                  (list_to_set nuget_versions) requested) as Hcause.
    destruct (reconcile_cases tag all_tags nuget_versions requested Hparse)
      as [[_ H]|[_ [(n & _ & _ & _ & H)|[(c & n & _ & H)|[[H _]|[e0 [H He]]]]]]];
      rewrite Hrun in H; try discriminate; injection H as -> ->.
    + right; left. auto.
    + right; left. auto.
    + right; right. destruct (Hcause e0 He) as (-> & n & v & ? & ? & ?).
      split; [reflexivity|]. split; [reflexivity|]. exists requested, n, v. auto.
  - left. pose proof (parse_version_raises_value_error _ _ Hparse) as ->.
    unfold run, reconcile, mbind, io_bind, lift in Hrun.
    rewrite Hparse in Hrun. injection Hrun as <- <-. auto.
Qed.

Lemma reconcile_failures_witness :
  (KeyError = ValueError /\ [FetchingNuget] = [] /\
   parse_version (Py.lstrip "v" "9.0.99") = Raise ValueError) \/
  (KeyError = Exit /\
   ([FetchingNuget] = [NoReleaseForMajor] \/
    [FetchingNuget] = [FetchingNuget; NoCompatibleVersion "9.0.99"])) \/
  (KeyError = KeyError /\ [FetchingNuget] = [FetchingNuget] /\
   exists requested name v,
     parse_version (Py.lstrip "v" "9.0.99") = Ok requested /\
     catalog_has [mk_release "v9.0.100-beta.1"] name v /\
     major v = major requested /\ stage_priority v = (-1)%Z).
Proof.
  apply (reconcile_failures "9.0.99" [mk_release "v9.0.100-beta.1"] ["9.0.0"]).
  vm_compute. reflexivity.
Defined.

(** ** The order of the fallback search *)

Section nearest.

Variables (sorted : list Version) (m : gmap Version string).
Variables (requested : Version) (nuget_set : gset string) (idx : nat).

(** A probe that is out of bounds or finds a version that is not in the
    registry leaves the search where it was. *)
Lemma search_directions_miss (offset : nat) (d : Z) (ds : list Z)
    (chosen : option string) (log : list notice) :
  (forall c, probed sorted idx offset d c ->
     is_version_in_nuget nuget_set c = Ok false) ->
  search_directions sorted m requested nuget_set idx offset (d :: ds) chosen log
  = search_directions sorted m requested nuget_set idx offset ds chosen log.
Proof.
  intros Hmiss. cbn [search_directions].
  set (i := (Z.of_nat idx + d * Z.of_nat offset)%Z).
  destruct (decide (i < 0 \/ i >= Z.of_nat (length sorted))%Z) as [Hout|Hin];
    [reflexivity|].
  unfold mbind, io_bind, lift, list_index.
  destruct (sorted !! Z.to_nat i) as [c|] eqn:Hc.
  2:{ apply lookup_ge_None in Hc. lia. }
  destruct (decide (major c <> major requested)); [reflexivity|].
  rewrite (Hmiss c); [reflexivity|]. split; [fold i; lia | exact Hc].
Qed.

(** A probe that finds a version of the registry ends the search. *)
Lemma search_directions_hit (offset : nat) (d : Z) (ds : list Z)
    (chosen : option string) (log : list notice) (c : Version) (name : string) :
  probed sorted idx offset d c -> major c = major requested ->
  is_version_in_nuget nuget_set c = Ok true -> m !! c = Some name ->
  search_directions sorted m requested nuget_set idx offset (d :: ds) chosen log
  = (log ++ [UsingNearest name], Ok (Some name)).
Proof.
  unfold probed. cbv zeta. intros [Hr Hc] Hmaj Hhit Hname.
  cbn [search_directions].
  set (i := (Z.of_nat idx + d * Z.of_nat offset)%Z) in *.
  destruct (decide (i < 0 \/ i >= Z.of_nat (length sorted))%Z) as [Hout|Hin];
    [lia|].
  unfold mbind, io_bind, lift, list_index. rewrite Hc.
  destruct (decide (major c <> major requested)); [contradiction|].
  rewrite Hhit. unfold subscript. rewrite Hname. reflexivity.
Qed.

Hypothesis same_major : forall c, c ∈ sorted -> major c = major requested.
Hypothesis no_raise :
  forall c, c ∈ sorted -> exists b, is_version_in_nuget nuget_set c = Ok b.

Variables (i : nat) (v : Version) (name : string).
Hypothesis at_i : sorted !! i = Some v.
Hypothesis hit_i : is_version_in_nuget nuget_set v = Ok true.
Hypothesis name_i : m !! v = Some name.
Hypothesis name_truthy : Py.truthy name = true.
Hypothesis nearest_i :
  forall j w, sorted !! j = Some w ->
    is_version_in_nuget nuget_set w = Ok true ->
    offset_from idx i < offset_from idx j \/
    (offset_from idx i = offset_from idx j /\ j <= i).

(** Every probe made before position [i] is reached misses. *)
Lemma probe_before (offset : nat) (d : Z) (c : Version) :
  probed sorted idx offset d c -> d = 1%Z \/ d = (-1)%Z ->
  offset < offset_from idx i \/
  (offset = offset_from idx i /\ d = 1%Z /\ i < idx) ->
  is_version_in_nuget nuget_set c = Ok false.
Proof using no_raise nearest_i.
  unfold probed. cbv zeta. intros [Hr Hc] Hd Hoff.
  destruct (no_raise c) as [[|] Hb];
    [apply list_elem_of_lookup; eauto | | exact Hb].
  exfalso. destruct (nearest_i _ _ Hc Hb) as [H|[H1 H2]];
    unfold offset_from in *; destruct Hd as [-> | ->]; lia.
Qed.

(** The offsets are tried in increasing order and, at each offset, the
    position above the insertion point first: the search ends at [i]. *)
Lemma search_offsets_nearest (n k : nat) (log : list notice) :
  k <= offset_from idx i < k + n ->
  search_offsets sorted m requested nuget_set idx (seq k n) None log
  = (log ++ [UsingNearest name], Ok (Some name)).
Proof using All.
  revert k. induction n as [|n IH]; intros k Hk; [lia|].
  cbn [seq search_offsets]. unfold mbind at 1, io_bind at 1.
  pose proof (lookup_lt_Some _ _ _ at_i) as Hlen.
  assert (major v = major requested) as Hmaj
    by (apply same_major, list_elem_of_lookup; eauto).
  destruct (decide (offset_from idx i = k)) as [Heq|Hne].
  - destruct (decide (idx <= i)) as [Hge|Hlt].
    + rewrite (search_directions_hit k 1 _ None log v name); auto.
      * cbn [truthy_opt]. rewrite name_truthy. reflexivity.
      * unfold probed. cbv zeta. unfold offset_from in Heq.
        replace (Z.to_nat (Z.of_nat idx + 1 * Z.of_nat k)) with i by lia.
        split; [lia | exact at_i].
    + rewrite search_directions_miss.
      2:{ intros c Hc. apply (probe_before k 1 c Hc); [auto|]. right. lia. }
      rewrite (search_directions_hit k (-1) _ None log v name); auto.
      * cbn [truthy_opt]. rewrite name_truthy. reflexivity.
      * unfold probed. cbv zeta. unfold offset_from in Heq.
        replace (Z.to_nat (Z.of_nat idx + -1 * Z.of_nat k)) with i by lia.
        split; [lia | exact at_i].
  - rewrite search_directions_miss.
    2:{ intros c Hc. apply (probe_before k 1 c Hc); [auto|]. left. lia. }
    rewrite search_directions_miss.
    2:{ intros c Hc. apply (probe_before k (-1) c Hc); [auto|]. left. lia. }
    cbn [search_directions truthy_opt]. apply (IH (S k)). lia.
Qed.

End nearest.

(** The run of [reconcile] when the exact match fails and the fallback
    search finds a tag. *)
Lemma reconcile_fallback_run (tag : string) (all_tags : list release)
    (nuget_versions : list string) (requested : Version) (name : string) :
  parse_version (Py.lstrip "v" tag) = Ok requested ->
  let keep := fun v => bool_decide (major v = major requested) in
  let m := (collect keep all_tags).2 in
  let sorted := sort_versions (collect keep all_tags).1 in
  let idx := bisect_left sorted requested in
  let nuget_set : gset string := list_to_set nuget_versions in
  sorted <> [] ->
  (sorted !! idx = Some requested ->
   is_version_in_nuget nuget_set requested = Ok false) ->
  search_offsets sorted m requested nuget_set idx (seq 0 (length sorted)) None
    [FetchingNuget]
  = ([FetchingNuget; UsingNearest name], Ok (Some name)) ->
  Py.truthy name = true ->
  run (reconcile tag all_tags nuget_versions)
  = ([FetchingNuget; UsingNearest name; ResolvedTag name], Ok name).
Proof.
  intros Hparse keep m sorted idx nuget_set Hne Hexact Hsearch Htruthy.
  unfold run, reconcile, mbind, io_bind, lift, mret, io_ret, raise.
  rewrite Hparse. fold keep. subst sorted idx m.
  destruct (collect keep all_tags) as [parsed m]. cbn [fst snd] in *.
  destruct parsed as [|v0 parsed]; [destruct Hne; reflexivity|].
  set (sorted := sort_versions (v0 :: parsed)) in *.
  set (idx := bisect_left sorted requested) in *.
  unfold echo. cbn [app]. fold nuget_set.
  destruct (decide (idx < length sorted /\ sorted !! idx = Some requested))
    as [[_ Hex]|Hno].
  - rewrite (Hexact Hex). cbn [truthy_opt]. cbv beta iota.
    rewrite Hsearch. cbv beta iota.
    destruct name; [discriminate Htruthy | reflexivity].
  - cbn [truthy_opt]. cbv beta iota.
    rewrite Hsearch. cbv beta iota.
    destruct name; [discriminate Htruthy | reflexivity].
Qed.

Lemma collect_major_versions (requested : Version) (all_tags : list release) :
  (collect (fun v => bool_decide (major v = major requested)) all_tags).1
  = major_versions requested all_tags.
Proof.
  induction all_tags as [|t tags IH] using rev_ind; [reflexivity|].
  rewrite collect_snoc, collect_step_eq. unfold major_versions in *.
  rewrite omap_app. cbn [omap list_omap].
  destruct (t !! "tag_name") as [name|]; [|rewrite app_nil_r; exact IH].
  destruct (parse_version name) as [v|]; [|rewrite app_nil_r; exact IH].
  destruct (decide (major v = major requested)).
  - rewrite bool_decide_eq_true_2 by assumption. cbn [fst]. rewrite IH.
    reflexivity.
  - rewrite bool_decide_eq_false_2 by assumption. rewrite app_nil_r. exact IH.
Qed.

(** A sorted list has one insertion point for [x]. *)
Lemma insertion_point_unique (a : list Version) (x : Version) (n n' : nat) :
  n <= length a -> n' <= length a ->
  below a x n -> above a x n -> below a x n' -> above a x n' -> n = n'.
Proof.
  intros Hn Hn' Hb Ha Hb' Ha'.
  destruct (lt_eq_lt_dec n n') as [[Hlt| ->]|Hlt]; [|reflexivity|]; exfalso.
  - destruct (lookup_lt_is_Some_2 a n) as [y Hy]; [lia|].
    apply (Ha n y (le_n _) Hy). apply (Hb' n y Hlt Hy).
  - destruct (lookup_lt_is_Some_2 a n') as [y Hy]; [lia|].
    apply (Ha' n' y (le_n _) Hy). apply (Hb n' y Hlt Hy).
Qed.

(** C1, amended: the nearest-match fallback.  Let [sorted] be the
    catalog versions of the requested major in ascending order and [idx]
    the insertion point of the requested version.  When the registered
    version of [sorted] nearest to [idx] (smallest offset, and at equal
    offsets the position above [idx], direction +1 before -1) is not the
    requested version itself, lies at an offset below the length of
    [sorted], and no version of [sorted] has the unknown stage, then
    [reconcile] returns a tag of that version and writes the
    nearest-version notice. *)
Theorem reconcile_fallback_nearest (tag : string) (all_tags : list release)
    (nuget_versions : list string) (requested v : Version)
    (sorted : list Version) (idx i : nat) :
  parse_version (Py.lstrip "v" tag) = Ok requested ->
  StronglySorted version_le sorted ->
  sorted ≡ₚ major_versions requested all_tags ->
  idx <= length sorted ->
  below sorted requested idx -> above sorted requested idx ->
  (forall w, w ∈ sorted -> stage_priority w <> (-1)%Z) ->
  nearest_registered nuget_versions sorted idx i v ->
  v <> requested ->
  offset_from idx i < length sorted ->
  exists name, catalog_has all_tags name v /\
    run (reconcile tag all_tags nuget_versions)
    = ([FetchingNuget; UsingNearest name; ResolvedTag name], Ok name).
Proof.
  intros Hparse Hsorted Hperm Hidx Hbelow Habove Hknown
    (Hi & (key & Hkey & Hin) & Hnear) Hv Hoff.
  set (keep := fun v => bool_decide (major v = major requested)).
  assert (sorted = sort_versions (collect keep all_tags).1) as Hs.
  { apply (StronglySorted_unique version_le);
      [assumption | apply sort_versions_sorted |].
    rewrite Hperm. unfold sort_versions. rewrite merge_sort_Permutation.
    unfold keep. rewrite collect_major_versions. reflexivity. }
  assert (idx = bisect_left sorted requested) as Hidx'.
  { destruct (bisect_left_spec sorted requested Hsorted) as (? & ? & ?).
    apply (insertion_point_unique sorted requested); assumption. }
  assert (forall c, c ∈ sorted -> exists name, catalog_has all_tags name c /\
            major c = major requested /\
            (collect keep all_tags).2 !! c = Some name) as Hcat.
  { intros c Hc. rewrite Hs in Hc.
    apply (proj1 (sort_versions_elem _ _)) in Hc.
    destruct (collect_dom keep all_tags c Hc) as [name Hname].
    exists name. split; [eapply collect_lookup; eassumption|].
    split; [|exact Hname].
    apply collect_elem in Hc as [Hk _]. apply bool_decide_eq_true_1 in Hk.
    exact Hk. }
  assert (forall c, c ∈ sorted ->
            exists b, is_version_in_nuget (list_to_set nuget_versions) c = Ok b)
    as Hnoraise.
  { intros c Hc.
    destruct (is_version_in_nuget (list_to_set nuget_versions) c) as [b|e]
      eqn:Hb; [eauto|].
    apply is_version_in_nuget_raise in Hb as [_ Hneg].
    destruct (Hcat c Hc) as (name & (t & _ & _ & Hp) & _).
    pose proof (well_formed_priority c (parse_version_fields _ _ Hp)).
    destruct (Hknown c Hc). lia. }
  assert (v ∈ sorted) as Hvin by (apply list_elem_of_lookup; eauto).
  destruct (Hcat v Hvin) as (name & Hcatv & Hmaj & Hname).
  exists name. split; [exact Hcatv|].
  assert (forall j w, sorted !! j = Some w ->
            is_version_in_nuget (list_to_set nuget_versions) w = Ok true ->
            offset_from idx i < offset_from idx j \/
            (offset_from idx i = offset_from idx j /\ j <= i)) as Hnear'.
  { intros j w Hj Hw. apply (Hnear j w Hj).
    apply is_version_in_nuget_true. exact Hw. }
  subst idx. subst sorted.
  set (sorted := sort_versions (collect keep all_tags).1) in *.
  set (idx := bisect_left sorted requested) in *.
  apply (reconcile_fallback_run tag all_tags nuget_versions requested name
           Hparse); fold keep; fold sorted; fold idx.
  - intros Hnil. rewrite Hnil in Hi. discriminate Hi.
  - intros Hex.
    destruct (Hnoraise requested) as [[|] Hb];
      [apply list_elem_of_lookup; eauto | | exact Hb].
    exfalso. destruct (Hnear' idx requested Hex Hb) as [H|[H1 H2]];
      unfold offset_from in *; [lia|].
    assert (i = idx) as -> by lia. congruence.
  - apply (search_offsets_nearest sorted (collect keep all_tags).2 requested
             (list_to_set nuget_versions) idx) with
      (i := i) (v := v) (name := name) (n := length sorted) (k := 0)
      (log := [FetchingNuget]); try assumption.
    + intros c Hc. destruct (Hcat c Hc) as (_ & _ & Hm & _). exact Hm.
    + eapply is_version_in_nuget_hit; eassumption.
    + eapply collect_names_truthy. exact Hname.
    + lia.
  - eapply collect_names_truthy. exact Hname.
Qed.

Lemma reconcile_fallback_nearest_witness :
  let all_tags :=
    [mk_release "v9.0.100"; mk_release "v9.1.100"; mk_release "v9.2.100"] in
  (exists name, catalog_has all_tags name (stable 9 1 100) /\
     run (reconcile "9.0.100" all_tags ["9.1.0"])
     = ([FetchingNuget; UsingNearest name; ResolvedTag name], Ok name)) /\
  (exists name, catalog_has all_tags name (stable 9 2 100) /\
     run (reconcile "9.1.100" all_tags ["9.0.0"; "9.2.0"])
     = ([FetchingNuget; UsingNearest name; ResolvedTag name], Ok name)).
Proof.
  intros all_tags.
  set (sorted := [stable 9 0 100; stable 9 1 100; stable 9 2 100]).
  assert (StronglySorted version_le sorted) as Hsorted.
  { repeat constructor; vm_compute; discriminate. }
  assert (forall requested, major requested = 9%Z ->
            sorted ≡ₚ major_versions requested all_tags) as Hperm.
  { intros requested Hmaj. unfold major_versions, all_tags. cbn [omap list_omap].
    change (mk_release "v9.0.100" !! "tag_name") with (Some "v9.0.100").
    change (mk_release "v9.1.100" !! "tag_name") with (Some "v9.1.100").
    change (mk_release "v9.2.100" !! "tag_name") with (Some "v9.2.100").
    change (parse_version "v9.0.100") with (Ok (stable 9 0 100)).
    change (parse_version "v9.1.100") with (Ok (stable 9 1 100)).
    change (parse_version "v9.2.100") with (Ok (stable 9 2 100)).
    cbn [major stable]. rewrite Hmaj. reflexivity. }
  assert (forall w, w ∈ sorted -> stage_priority w <> (-1)%Z) as Hknown.
  { intros w Hw. unfold sorted in Hw.
    repeat (apply elem_of_cons in Hw as [->|Hw]);
      try (apply elem_of_nil in Hw; contradiction); discriminate. }
  split.
  - apply (reconcile_fallback_nearest "9.0.100" all_tags ["9.1.0"]
             (stable 9 0 100) (stable 9 1 100) sorted 0 1);
      try assumption.
    + reflexivity.
    + apply Hperm. reflexivity.
    + simpl. lia.
    + intros j w Hj. lia.
    + intros [|[|[|j]]] w _; simpl; intros [= <-]; vm_compute; discriminate.
    + split; [reflexivity|]. split.
      * exists "9.1.0". split; [reflexivity | apply list_elem_of_here].
      * intros [|[|[|j]]] w; simpl; intros [= <-] (key & Hkey & Hin);
          unfold offset_from; simpl; try lia;
          vm_compute in Hkey; injection Hkey as <-;
          apply list_elem_of_singleton in Hin; discriminate Hin.
    + discriminate.
    + unfold offset_from. simpl. lia.
  - apply (reconcile_fallback_nearest "9.1.100" all_tags ["9.0.0"; "9.2.0"]
             (stable 9 1 100) (stable 9 2 100) sorted 1 2);
      try assumption.
    + reflexivity.
    + apply Hperm. reflexivity.
    + simpl. lia.
    + intros [|j] w Hj; [|lia]. simpl. intros [= <-]. vm_compute. reflexivity.
    + intros [|[|[|j]]] w Hj; simpl; try lia; intros [= <-]; vm_compute;
        discriminate.
    + split; [reflexivity|]. split.
      * exists "9.2.0". split; [reflexivity|].
        apply list_elem_of_further, list_elem_of_here.
      * intros [|[|[|j]]] w; simpl; intros [= <-] (key & Hkey & Hin);
          unfold offset_from; simpl; try lia.
        vm_compute in Hkey. injection Hkey as <-.
        repeat (apply elem_of_cons in Hin as [Hin|Hin]; [discriminate Hin|]).
        apply elem_of_nil in Hin. contradiction.
    + discriminate.
    + unfold offset_from. simpl. lia.
Defined.

(** ** The stable descending sort *)

Section keyed_sort.

Context {A : Type}.
Implicit Types (x y : Version * A) (l : list (Version * A)).

Lemma insert_desc_perm x l : insert_desc x l ≡ₚ x :: l.
Proof.
  induction l as [|y l IH]; [reflexivity|]. simpl.
  destruct (decide (version_lt x.1 y.1)); [|reflexivity].
  rewrite IH. apply Permutation_swap.
Qed.

Lemma sort_by_key_desc_perm l : sort_by_key_desc l ≡ₚ l.
Proof.
  induction l as [|x l IH]; [reflexivity|].
  unfold sort_by_key_desc in *. simpl. rewrite insert_desc_perm, IH.
  reflexivity.
Qed.

Lemma insert_desc_sorted x l :
  StronglySorted key_desc l -> StronglySorted key_desc (insert_desc x l).
Proof.
  induction 1 as [|y l Hl IH Hy]; simpl.
  - repeat constructor.
  - destruct (decide (version_lt x.1 y.1)) as [Hlt|Hge].
    + constructor; [assumption|].
      rewrite insert_desc_perm. constructor; [|assumption].
      unfold key_desc. apply version_le_lt_or_eq. auto.
    + assert (key_desc x y) as Hxy by (apply version_le_not_lt; assumption).
      constructor; [constructor; assumption|].
      constructor; [assumption|].
      eapply Forall_impl; [exact Hy|]. intros z Hz. unfold key_desc in *.
      etransitivity; eassumption.
Qed.

Lemma sort_by_key_desc_sorted l : StronglySorted key_desc (sort_by_key_desc l).
Proof.
  induction l as [|x l IH]; [constructor|].
  apply insert_desc_sorted. exact IH.
Qed.

(** The head of the sorted list is the first item with the greatest
    key. *)
Lemma sort_head_first_max l x r :
  sort_by_key_desc l = x :: r -> first_max l x.
Proof.
  revert x r. induction l as [|a l IH]; intros x r; [discriminate|].
  change (sort_by_key_desc (a :: l)) with (insert_desc a (sort_by_key_desc l)).
  destruct (sort_by_key_desc l) as [|y r'] eqn:Hsort.
  - pose proof (sort_by_key_desc_perm l) as Hperm. rewrite Hsort in Hperm.
    apply Permutation_nil_l in Hperm as <-.
    simpl. intros [= <- <-]. exists 0. split; [reflexivity|]. split.
    + intros y ->%list_elem_of_singleton. apply version_le_lt_or_eq. auto.
    + intros j y Hj. lia.
  - destruct (IH y r' eq_refl) as (i & Hi & Hmax & Hfirst).
    simpl. destruct (decide (version_lt a.1 y.1)) as [Hlt|Hge].
    + intros [= <- <-]. exists (S i). split; [exact Hi|]. split.
      * intros z [->|Hz]%elem_of_cons; [|auto].
        apply version_le_lt_or_eq. auto.
      * intros [|j] z Hj; simpl; [intros [= <-]; assumption|].
        apply (Hfirst j). lia.
    + intros [= <- <-]. exists 0. split; [reflexivity|]. split.
      * intros z [->|Hz]%elem_of_cons.
        -- apply version_le_lt_or_eq. auto.
        -- transitivity y.1; [auto|]. apply version_le_not_lt. assumption.
      * intros j z Hj. lia.
Qed.

End keyed_sort.

(** ** Comprehensions over named tags *)

Lemma filter_result_total {A} (f : A -> result bool) (g : A -> bool)
    (l : list A) :
  (forall x, x ∈ l -> f x = Ok (g x)) ->
  filter_result f l = Ok (List.filter g l).
Proof.
  induction l as [|x l IH]; intros Hf; [reflexivity|]. simpl.
  rewrite (Hf x) by apply list_elem_of_here. simpl.
  rewrite IH by (intros y Hy; apply Hf, list_elem_of_further, Hy). simpl.
  destruct (g x); reflexivity.
Qed.

Lemma filter_result_raise {A} (f : A -> result bool) (l : list A) (x : A)
    (e : exn) :
  (forall y e', f y = Raise e' -> e' = e) ->
  x ∈ l -> f x = Raise e -> filter_result f l = Raise e.
Proof.
  intros Hall Hin Hx. induction l as [|y l IH];
    [apply elem_of_nil in Hin; contradiction|].
  simpl. destruct (f y) as [b|e'] eqn:Hy.
  - simpl. apply elem_of_cons in Hin as [->|Hin]; [congruence|].
    rewrite (IH Hin). reflexivity.
  - simpl. rewrite (Hall y e' Hy). reflexivity.
Qed.

Lemma named_condition (P : string -> bool) (t : release) :
  is_Some (t !! "tag_name") ->
  (name ← subscript t "tag_name"; Ok (P name)) = Ok (tag_name_satisfies P t).
Proof.
  intros [name Hname]. unfold subscript, tag_name_satisfies.
  rewrite Hname. reflexivity.
Qed.

Lemma elem_of_filter_list {A} (g : A -> bool) (l : list A) (x : A) :
  x ∈ List.filter g l <-> x ∈ l /\ g x = true.
Proof. rewrite !list_elem_of_In. apply List.filter_In. Qed.

Lemma map_result_total {A B} (f : A -> result B) (l : list A) :
  (forall x, x ∈ l -> exists y, f x = Ok y) ->
  exists l', map_result f l = Ok l'.
Proof.
  induction l as [|x l IH]; intros Hf; [exists []; reflexivity|].
  destruct (Hf x) as [y Hy]; [apply list_elem_of_here|].
  destruct IH as [l' Hl'].
  { intros z Hz. apply Hf, list_elem_of_further, Hz. }
  exists (y :: l'). simpl. rewrite Hy, Hl'. reflexivity.
Qed.

(** The keyed list that [sorted_by_version_desc] sorts pairs every tag
    with the version of its name. *)
Lemma keyed_tags (tags : list release) (keyed : list (Version * release)) :
  map_result
    (fun t => name ← subscript t "tag_name"; k ← parse_version name; Ok (k, t))
    tags = Ok keyed ->
  snd <$> keyed = tags /\
  forall k t, (k, t) ∈ keyed ->
    t ∈ tags /\ exists name, t !! "tag_name" = Some name /\
                             parse_version name = Ok k.
Proof.
  intros H%map_result_Forall2. induction H as [|t [k t'] tags keyed Ht H IH].
  - split; [reflexivity|]. intros k t []%elem_of_nil.
  - destruct IH as [IH1 IH2]. unfold subscript in Ht.
    destruct (t !! "tag_name") as [name|] eqn:Hname; [|discriminate].
    simpl in Ht. destruct (parse_version name) as [k'|] eqn:Hk; [|discriminate].
    simpl in Ht. injection Ht as <- <-. split.
    + rewrite fmap_cons. simpl. congruence.
    + intros k0 t0 [[= -> ->]|Hin]%elem_of_cons.
      * split; [apply list_elem_of_here | eauto].
      * destruct (IH2 k0 t0 Hin) as [? ?].
        split; [apply list_elem_of_further; assumption | assumption].
Qed.

(** ** Resolving a tag by name or prefix *)

Section resolve.

Variables (input : string) (tags : list release).
Hypothesis input_truthy : Py.truthy input = true.

Lemma resolve_tag_unfold :
  run (resolve_tag (Some input) tags) =
  match filter_result
          (fun t => name ← subscript t "tag_name"; Ok (String.eqb name input))
          tags with
  | Raise e => ([], Raise e)
  | Ok (t :: _) =>
      match subscript t "tag_name" with
      | Ok name => ([], Ok (Some name))
      | Raise e => ([], Raise e)
      end
  | Ok [] =>
      match filter_result
              (fun t => name ← subscript t "tag_name";
                        Ok (Py.startswith name input))
              tags with
      | Raise e => ([], Raise e)
      | Ok [] => ([NoMatchingVersion input], Raise Exit)
      | Ok (p :: ps) =>
          match sorted_by_version_desc (p :: ps) with
          | Raise e => ([], Raise e)
          | Ok sorted_matches =>
              match list_index sorted_matches 0 with
              | Raise e => ([], Raise e)
              | Ok t =>
                  match subscript t "tag_name" with
                  | Raise e => ([], Raise e)
                  | Ok chosen => ([ExactTagNotFound chosen], Ok (Some chosen))
                  end
              end
          end
      end
  end.
Proof using input_truthy.
  unfold run, resolve_tag. rewrite input_truthy.
  unfold mbind, io_bind, lift, mret, io_ret, raise, echo.
  destruct (filter_result _ tags) as [[|t ts]|e]; try reflexivity.
  all: try (destruct (subscript t "tag_name"); reflexivity).
  all: try (destruct (filter_result _ tags) as [[|p ps]|e]; try reflexivity).
  all: try (destruct (sorted_by_version_desc (p :: ps)) as [sm|e];
            [|reflexivity]).
  all: try (destruct (list_index sm 0) as [t|e]; [|reflexivity]).
  all: try (destruct (subscript t "tag_name"); reflexivity).
Qed.

Hypothesis all_named : forall t, t ∈ tags -> is_Some (t !! "tag_name").

Lemma matched_eq :
  filter_result
    (fun t => name ← subscript t "tag_name"; Ok (String.eqb name input)) tags
  = Ok (List.filter (tag_name_satisfies (fun n => String.eqb n input)) tags).
Proof using all_named.
  apply filter_result_total. intros t Ht.
  apply (named_condition (fun n => String.eqb n input)). auto.
Qed.

Lemma prefix_matches_eq :
  filter_result
    (fun t => name ← subscript t "tag_name"; Ok (Py.startswith name input)) tags
  = Ok (List.filter (tag_name_satisfies (fun n => Py.startswith n input)) tags).
Proof using all_named.
  apply filter_result_total. intros t Ht.
  apply (named_condition (fun n => Py.startswith n input)). auto.
Qed.

(** X9: when every tag has a name and one of them is exactly the
    non-empty input, [resolve_tag] returns the input itself and writes
    nothing, whether or not the name parses and whatever versions the
    other tags have. *)
Theorem resolve_exact :
  (exists t, t ∈ tags /\ t !! "tag_name" = Some input) ->
  run (resolve_tag (Some input) tags) = ([], Ok (Some input)).
Proof using input_truthy all_named.
  intros (t & Hin & Hname). rewrite resolve_tag_unfold, matched_eq.
  destruct (List.filter _ tags) as [|t0 ts] eqn:Hf.
  - assert (t ∈ List.filter
              (tag_name_satisfies (fun n => String.eqb n input)) tags) as H.
    { apply elem_of_filter_list. split; [assumption|].
      unfold tag_name_satisfies. rewrite Hname. apply String.eqb_refl. }
    rewrite Hf in H. apply elem_of_nil in H. contradiction.
  - assert (t0 ∈ List.filter
              (tag_name_satisfies (fun n => String.eqb n input)) tags) as H
      by (rewrite Hf; apply list_elem_of_here).
    apply elem_of_filter_list in H as [_ H]. unfold tag_name_satisfies in H.
    unfold subscript. destruct (t0 !! "tag_name") as [n|]; [|discriminate].
    apply String.eqb_eq in H as ->. reflexivity.
Qed.

(** X10: when every tag has a name, none is exactly the input, some
    start with it and all of those parse, [resolve_tag] returns the name
    of a tag that starts with the input and whose version is the
    greatest among the tags that start with it, and writes the notice
    that the exact tag was not found. *)
Theorem resolve_by_prefix :
  (forall t, t ∈ tags -> t !! "tag_name" <> Some input) ->
  (exists t name, t ∈ tags /\ t !! "tag_name" = Some name /\
     Py.startswith name input = true) ->
  (forall t name, t ∈ tags -> t !! "tag_name" = Some name ->
     Py.startswith name input = true -> exists v, parse_version name = Ok v) ->
  exists chosen v,
    run (resolve_tag (Some input) tags)
    = ([ExactTagNotFound chosen], Ok (Some chosen)) /\
    catalog_has tags chosen v /\ Py.startswith chosen input = true /\
    forall name w, catalog_has tags name w ->
      Py.startswith name input = true -> version_le w v.
Proof using input_truthy all_named.
  intros Hnoexact (t1 & n1 & Hin1 & Hn1 & Hs1) Hparse.
  rewrite resolve_tag_unfold, matched_eq.
  destruct (List.filter (tag_name_satisfies (fun n => String.eqb n input)) tags)
    as [|t0 ts] eqn:Hf.
  2:{ assert (t0 ∈ List.filter
                (tag_name_satisfies (fun n => String.eqb n input)) tags) as H
        by (rewrite Hf; apply list_elem_of_here).
      apply elem_of_filter_list in H as [Hin H]. unfold tag_name_satisfies in H.
      destruct (t0 !! "tag_name") as [n|] eqn:Hn; [|discriminate].
      apply String.eqb_eq in H as ->. destruct (Hnoexact t0 Hin Hn). }
  rewrite prefix_matches_eq.
  set (pm := List.filter
               (tag_name_satisfies (fun n => Py.startswith n input)) tags).
  assert (forall t, t ∈ pm <->
            t ∈ tags /\ exists name, t !! "tag_name" = Some name /\
                                     Py.startswith name input = true) as Hpm.
  { intros t. unfold pm. rewrite elem_of_filter_list. unfold tag_name_satisfies.
    split; intros [Hin H]; (split; [assumption|]).
    - destruct (t !! "tag_name") as [n|]; [eauto | discriminate].
    - destruct H as (n & -> & H). exact H. }
  assert (t1 ∈ pm) as Ht1 by (apply Hpm; eauto).
  destruct pm as [|p ps] eqn:Hpmeq; [apply elem_of_nil in Ht1; contradiction|].
  rewrite <- Hpmeq in *. clear Hpmeq.
  unfold sorted_by_version_desc.
  destruct (map_result_total
              (fun t => name ← subscript t "tag_name";
                        k ← parse_version name; Ok (k, t)) pm) as [keyed Hkeyed].
  { intros t (Hin & n & Hn & Hs)%Hpm. destruct (Hparse t n Hin Hn Hs) as [v Hv].
    exists (v, t). unfold subscript. rewrite Hn. simpl. rewrite Hv. reflexivity. }
  rewrite Hkeyed. simpl.
  destruct (keyed_tags pm keyed Hkeyed) as [Hsnd Hmem].
  destruct (sort_by_key_desc keyed) as [|[v t] r] eqn:Hsort.
  { pose proof (sort_by_key_desc_perm keyed) as Hperm. rewrite Hsort in Hperm.
    apply Permutation_nil_l in Hperm. rewrite <- Hperm in Hsnd.
    rewrite <- Hsnd in Ht1. apply elem_of_nil in Ht1. contradiction. }
  destruct (sort_head_first_max keyed (v, t) r Hsort) as (i & Hi & Hmax & _).
  destruct (Hmem v t) as (Htpm & chosen & Hchosen & Hv).
  { apply list_elem_of_lookup. eauto. }
  apply Hpm in Htpm as (Htin & n' & Hn' & Hs').
  assert (n' = chosen) as -> by congruence.
  exists chosen, v. simpl. unfold subscript. rewrite Hchosen.
  split; [reflexivity|]. split; [exists t; auto|]. split; [assumption|].
  intros name w (t' & Hin' & Hname' & Hw) Hs.
  assert (t' ∈ pm) as Ht' by (apply Hpm; eauto).
  rewrite <- Hsnd in Ht'. apply list_elem_of_fmap in Ht' as ([k t''] & -> & Hk).
  destruct (Hmem k t'' Hk) as (_ & n'' & Hn'' & Hk'). simpl in Hname'.
  assert (n'' = name) as -> by congruence.
  assert (k = w) as -> by congruence.
  exact (Hmax (w, t'') Hk).
Qed.

(** X11: when every tag has a name and none starts with the non-empty
    input, [resolve_tag] writes that no version matches and exits. *)
Theorem resolve_no_match :
  (forall t name, t ∈ tags -> t !! "tag_name" = Some name ->
     Py.startswith name input = false) ->
  run (resolve_tag (Some input) tags) = ([NoMatchingVersion input], Raise Exit).
Proof using input_truthy all_named.
  intros Hnone.
  assert (forall s, Py.startswith s s = true) as Hrefl.
  { intros s. induction s as [|c s IH]; [reflexivity|]. simpl.
    rewrite Ascii.eqb_refl. exact IH. }
  rewrite resolve_tag_unfold, matched_eq.
  destruct (List.filter (tag_name_satisfies (fun n => String.eqb n input)) tags)
    as [|t0 ts] eqn:Hf.
  2:{ assert (t0 ∈ List.filter
                (tag_name_satisfies (fun n => String.eqb n input)) tags) as H
        by (rewrite Hf; apply list_elem_of_here).
      apply elem_of_filter_list in H as [Hin H]. unfold tag_name_satisfies in H.
      destruct (t0 !! "tag_name") as [n|] eqn:Hn; [|discriminate].
      apply String.eqb_eq in H as ->.
      pose proof (Hrefl input) as Hr.
      rewrite (Hnone t0 input Hin Hn) in Hr. discriminate. }
  rewrite prefix_matches_eq.
  destruct (List.filter (tag_name_satisfies (fun n => Py.startswith n input)) tags)
    as [|p ps] eqn:Hp; [reflexivity|].
  assert (p ∈ List.filter
            (tag_name_satisfies (fun n => Py.startswith n input)) tags) as H
    by (rewrite Hp; apply list_elem_of_here).
  apply elem_of_filter_list in H as [Hin H]. unfold tag_name_satisfies in H.
  destruct (p !! "tag_name") as [n|] eqn:Hn; [|discriminate].
  rewrite (Hnone p n Hin Hn) in H. discriminate.
Qed.

End resolve.

Lemma resolve_exact_witness :
  run (resolve_tag (Some "v9.0.100-nightly")
         [mk_release "v9.0.101"; mk_release "v9.0.100-nightly"])
  = ([], Ok (Some "v9.0.100-nightly")).
Proof.
  apply (resolve_exact "v9.0.100-nightly"
           [mk_release "v9.0.101"; mk_release "v9.0.100-nightly"]).
  - reflexivity.
  - intros t Hin.
    repeat (apply elem_of_cons in Hin as [->|Hin]);
      try (apply elem_of_nil in Hin; contradiction);
      eexists; vm_compute; reflexivity.
  - exists (mk_release "v9.0.100-nightly").
    split; [apply list_elem_of_further, list_elem_of_here|].
    vm_compute. reflexivity.
Defined.

Lemma resolve_by_prefix_witness :
  let tags := [mk_release "v9.0.100"; mk_release "v9.0.102";
               mk_release "v8.0.404"] in
  exists chosen v,
    run (resolve_tag (Some "v9.0") tags)
    = ([ExactTagNotFound chosen], Ok (Some chosen)) /\
    catalog_has tags chosen v /\ Py.startswith chosen "v9.0" = true /\
    forall name w, catalog_has tags name w ->
      Py.startswith name "v9.0" = true -> version_le w v.
Proof.
  intros tags. apply (resolve_by_prefix "v9.0" tags).
  - reflexivity.
  - intros t Hin.
    repeat (apply elem_of_cons in Hin as [->|Hin]);
      try (apply elem_of_nil in Hin; contradiction);
      eexists; vm_compute; reflexivity.
  - intros t Hin Hname.
    repeat (apply elem_of_cons in Hin as [->|Hin]);
      try (apply elem_of_nil in Hin; contradiction);
      vm_compute in Hname; discriminate Hname.
  - exists (mk_release "v9.0.100"), "v9.0.100".
    split; [apply list_elem_of_here|]. split; vm_compute; reflexivity.
  - intros t name Hin Hname Hs.
    repeat (apply elem_of_cons in Hin as [->|Hin]);
      try (apply elem_of_nil in Hin; contradiction);
      vm_compute in Hname; injection Hname as <-;
      eexists; vm_compute; reflexivity.
Defined.

Lemma resolve_no_match_witness :
  run (resolve_tag (Some "v10") [mk_release "v9.0.100"; mk_release "v8.0.404"])
  = ([NoMatchingVersion "v10"], Raise Exit).
Proof.
  apply (resolve_no_match "v10" [mk_release "v9.0.100"; mk_release "v8.0.404"]).
  - reflexivity.
  - intros t Hin.
    repeat (apply elem_of_cons in Hin as [->|Hin]);
      try (apply elem_of_nil in Hin; contradiction);
      eexists; vm_compute; reflexivity.
  - intros t name Hin Hname.
    repeat (apply elem_of_cons in Hin as [->|Hin]);
      try (apply elem_of_nil in Hin; contradiction);
      vm_compute in Hname; injection Hname as <-; reflexivity.
Defined.

(** X12: [resolve_tag] reads the name of every tag before it compares
    versions: a single release without ["tag_name"] makes it raise
    [KeyError] without output for every non-empty input, also when
    another tag matches exactly; for an absent or empty input it returns
    nothing and looks at no tag. *)
Theorem resolve_tag_missing_name (input : string) (tags : list release)
    (t : release) :
  t ∈ tags -> t !! "tag_name" = None ->
  (Py.truthy input = true ->
   run (resolve_tag (Some input) tags) = ([], Raise KeyError)) /\
  run (resolve_tag (Some "") tags) = ([], Ok None) /\
  run (resolve_tag None tags) = ([], Ok None).
Proof.
  intros Hin Hnone. split; [|split; reflexivity].
  intros Htruthy. rewrite resolve_tag_unfold by assumption.
  rewrite (filter_result_raise _ tags t KeyError); [reflexivity| |assumption|].
  - intros y e'. unfold subscript.
    destruct (y !! "tag_name"); simpl; [discriminate | congruence].
  - unfold subscript. rewrite Hnone. reflexivity.
Qed.

Lemma resolve_tag_missing_name_witness :
  (Py.truthy "v9.0.100" = true ->
   run (resolve_tag (Some "v9.0.100") [mk_release "v9.0.100"; ∅])
   = ([], Raise KeyError)) /\
  run (resolve_tag (Some "") [mk_release "v9.0.100"; ∅]) = ([], Ok None) /\
  run (resolve_tag None [mk_release "v9.0.100"; ∅]) = ([], Ok None).
Proof.
  apply (resolve_tag_missing_name "v9.0.100" [mk_release "v9.0.100"; ∅] ∅).
  - apply list_elem_of_further, list_elem_of_here.
  - reflexivity.
Defined.

(** ** Filtering and sorting the catalog *)

Lemma filter_filter_list {A} (g h : A -> bool) (l : list A) :
  List.filter g (List.filter h l) = List.filter (fun x => h x && g x) l.
Proof.
  induction l as [|x l IH]; [reflexivity|]. simpl.
  destruct (h x); simpl; [destruct (g x)|]; rewrite ?IH; reflexivity.
Qed.

Lemma StronglySorted_fmap_on {A B} (R : relation A) (R' : relation B)
    (f : A -> B) (l : list A) :
  (forall x y, x ∈ l -> y ∈ l -> R x y -> R' (f x) (f y)) ->
  StronglySorted R l -> StronglySorted R' (f <$> l).
Proof.
  intros Hf Hs. induction Hs as [|x l Hl IH Hx]; [constructor|].
  rewrite fmap_cons. constructor.
  - apply IH. intros a b Ha Hb. apply Hf; apply list_elem_of_further; assumption.
  - apply Forall_fmap, Forall_forall. intros y Hy. simpl.
    rewrite Forall_forall in Hx.
    apply Hf; [apply list_elem_of_here | apply list_elem_of_further, Hy | auto].
Qed.

(** The tags kept before sorting are those that [selects] describes. *)
Lemma filter_step (tags : list release) (prefix : option string) :
  (let filtered :=
     List.filter (fun t => truthy_opt (t !! "tag_name")) tags in
   match prefix with
   | Some p =>
       if Py.truthy p then
         filter_result
           (fun t => name ← subscript t "tag_name";
                     Ok (Filter.search
                           (Filter.compile
                              match p with String "v" r => r | _ => p end)
                           name))
           filtered
       else Ok filtered
   | None => Ok filtered
   end) = Ok (List.filter (selects prefix) tags).
Proof.
  cbv zeta.
  assert (forall pre, filter_regex pre = None ->
            List.filter (fun t => truthy_opt (t !! "tag_name")) tags
            = List.filter (selects pre) tags) as Hplain.
  { intros pre Hpre. apply List.filter_ext. intros t. unfold selects.
    rewrite Hpre. destruct (t !! "tag_name"); simpl; [|reflexivity].
    rewrite andb_true_r. reflexivity. }
  destruct prefix as [p|]; [|rewrite (Hplain None); reflexivity].
  destruct (Py.truthy p) eqn:Hp.
  2:{ rewrite (Hplain (Some p)); [reflexivity|].
      unfold filter_regex. rewrite Hp. reflexivity. }
  set (regex := Filter.compile match p with String "v" r => r | _ => p end).
  rewrite (filter_result_total _
             (tag_name_satisfies (Filter.search regex))).
  - rewrite filter_filter_list. f_equal. apply List.filter_ext. intros t.
    unfold selects, tag_name_satisfies, filter_regex. rewrite Hp. fold regex.
    destruct (t !! "tag_name"); reflexivity.
  - intros t [_ Ht]%elem_of_filter_list.
    apply (named_condition (Filter.search regex)).
    destruct (t !! "tag_name"); [eauto | discriminate].
Qed.

(** X13: when every kept tag parses, [filter_and_sort_tags] returns the
    kept tags (those with a non-empty name in which the filter pattern
    is found; tags without a name are dropped), each as often as it occurs
    in the input, in descending order of version. *)
Theorem filter_and_sort_sorted (tags : list release) (prefix : option string) :
  (forall t name, t ∈ tags -> t !! "tag_name" = Some name ->
     selects prefix t = true -> exists v, parse_version name = Ok v) ->
  exists l, filter_and_sort_tags tags prefix = Ok l /\
    l ≡ₚ List.filter (selects prefix) tags /\
    StronglySorted tag_ge l.
Proof.
  intros Hparse. unfold filter_and_sort_tags.
  pose proof (filter_step tags prefix) as Hstep. cbv zeta in Hstep.
  rewrite Hstep. cbn [mbind result_bind].
  set (kept := List.filter (selects prefix) tags).
  assert (forall t, t ∈ kept ->
            exists name v, t !! "tag_name" = Some name /\
                           parse_version name = Ok v) as Hkept.
  { intros t [Hin Hsel]%elem_of_filter_list.
    pose proof Hsel as Hsel'. unfold selects in Hsel'.
    destruct (t !! "tag_name") as [name|] eqn:Hname; [|discriminate].
    destruct (Hparse t name Hin Hname Hsel) as [v Hv]. eauto. }
  unfold sorted_by_version_desc.
  destruct (map_result_total
              (fun t => name ← subscript t "tag_name";
                        k ← parse_version name; Ok (k, t)) kept)
    as [keyed Hkeyed].
  { intros t (name & v & Hname & Hv)%Hkept. exists (v, t).
    unfold subscript. rewrite Hname. simpl. rewrite Hv. reflexivity. }
  rewrite Hkeyed. simpl.
  destruct (keyed_tags kept keyed Hkeyed) as [Hsnd Hmem].
  eexists. split; [reflexivity|]. split.
  - rewrite sort_by_key_desc_perm, Hsnd. reflexivity.
  - apply (StronglySorted_fmap_on key_desc);
      [|apply sort_by_key_desc_sorted].
    intros [k1 t1] [k2 t2] H1 H2 Hk. rewrite sort_by_key_desc_perm in H1, H2.
    destruct (Hmem k1 t1 H1) as (_ & n1 & Hn1 & Hp1).
    destruct (Hmem k2 t2 H2) as (_ & n2 & Hn2 & Hp2).
    intros na nb va vb Hna Hva Hnb Hvb. simpl in *.
    assert (va = k1) as -> by congruence.
    assert (vb = k2) as -> by congruence. exact Hk.
Qed.

Lemma filter_and_sort_sorted_witness :
  let tags := [mk_release "v8.0.404"; mk_release "v9.0.100"; ∅;
               mk_release "v9.0.200-rc.1.5"; mk_release "nightly"] in
  exists l, filter_and_sort_tags tags (Some "V9.*") = Ok l /\
    l ≡ₚ List.filter (selects (Some "V9.*")) tags /\
    StronglySorted tag_ge l.
Proof.
  intros tags. apply (filter_and_sort_sorted tags (Some "V9.*")).
  intros t name Hin Hname Hsel.
  repeat (apply elem_of_cons in Hin as [->|Hin]);
    try (apply elem_of_nil in Hin; contradiction);
    vm_compute in Hsel; try discriminate Hsel;
    vm_compute in Hname; injection Hname as <-;
    eexists; vm_compute; reflexivity.
Defined.

(** ** What the filter pattern matches *)

Lemma search_plain_of_here (pat : list Filter.atom) (s : string) :
  Filter.match_here pat s = true -> search_plain pat s = true.
Proof. intros H. destruct s; simpl; rewrite H; reflexivity. Qed.

(** The optional leading [v] of the pattern never changes the result of
    the search. *)
Lemma search_is_plain (pat : list Filter.atom) (s : string) :
  Filter.search pat s = search_plain pat s.
Proof.
  induction s as [|a r IH]; [reflexivity|].
  cbn [Filter.search search_plain Filter.match_at]. rewrite IH.
  destruct (Filter.match_here pat (String a r)).
  { rewrite orb_true_r. reflexivity. }
  rewrite orb_false_r. cbn [orb].
  destruct (Filter.match_here pat r) eqn:Hr.
  - rewrite (search_plain_of_here pat r Hr), orb_true_r. reflexivity.
  - rewrite andb_false_r. reflexivity.
Qed.

Lemma search_plain_spec (pat : list Filter.atom) (s : string) :
  search_plain pat s = true <->
  exists pre post, s = pre +:+ post /\ Filter.match_here pat post = true.
Proof.
  induction s as [|a r IH].
  - simpl. rewrite orb_false_r. split.
    + intros H. exists "", "". auto.
    + intros (pre & post & Heq & H). destruct pre; [|discriminate].
      rewrite append_nil_l in Heq. subst post. exact H.
  - cbn [search_plain]. rewrite orb_true_iff, IH. split.
    + intros [H|(pre & post & -> & H)].
      * exists "", (String a r). auto.
      * exists (String a pre), post. auto.
    + intros (pre & post & Heq & H). destruct pre as [|c pre].
      * rewrite append_nil_l in Heq. subst post. left. exact H.
      * rewrite append_cons in Heq. injection Heq as -> ->. right. eauto.
Qed.

Lemma match_here_literal (p s : string) :
  all_chars (is_not "*") p = true ->
  Filter.match_here (Filter.compile p) s = ci_prefix p s.
Proof.
  revert s. induction p as [|b p IH]; intros s; [destruct s; reflexivity|].
  simpl. intros [Hb Hp]%andb_prop. unfold is_not in Hb.
  destruct (Ascii.eqb b "*"); [discriminate|].
  destruct s as [|a s]; [reflexivity|]. rewrite (IH s Hp). reflexivity.
Qed.

(** X14: a filter pattern without wildcard is found in a tag name exactly
    when the name contains it, ignoring the case of letters; the optional
    leading [v] that the code puts in front of the pattern has no effect. *)
Theorem filter_literal_contains (p s : string) :
  all_chars (is_not "*") p = true ->
  (Filter.search (Filter.compile p) s = true <-> contains_ci p s) /\
  Filter.search (Filter.compile p) s = search_plain (Filter.compile p) s.
Proof.
  intros Hp. split; [|apply search_is_plain].
  rewrite search_is_plain, search_plain_spec. unfold contains_ci.
  split; intros (pre & post & Heq & H); exists pre, post;
    (split; [assumption|]).
  - rewrite <- match_here_literal; assumption.
  - rewrite match_here_literal; assumption.
Qed.

Lemma filter_literal_contains_witness :
  (Filter.search (Filter.compile "9.0") "V9.0.100-RC.1" = true
   <-> contains_ci "9.0" "V9.0.100-RC.1") /\
  Filter.search (Filter.compile "9.0") "V9.0.100-RC.1"
  = search_plain (Filter.compile "9.0") "V9.0.100-RC.1".
Proof. apply (filter_literal_contains "9.0" "V9.0.100-RC.1"). reflexivity. Defined.

(** ** Base components beyond the third *)

Lemma lstrip_chars (p : ascii -> bool) (c : ascii) (s : string) :
  all_chars p s = true -> all_chars p (Py.lstrip c s) = true.
Proof.
  induction s as [|a s IH]; [reflexivity|]. simpl.
  intros [Ha Hs]%andb_prop. destruct (Ascii.eqb a c); [auto|].
  simpl. rewrite Ha, Hs. reflexivity.
Qed.

Lemma lstrip_app (c : ascii) (s t : string) :
  match t with String a _ => Ascii.eqb a c = false | EmptyString => True end ->
  Py.lstrip c (s +:+ t) = Py.lstrip c s +:+ t.
Proof.
  intros Ht. induction s as [|a s IH].
  - rewrite !append_nil_l. destruct t as [|b t]; [reflexivity|].
    simpl. rewrite Ht. reflexivity.
  - rewrite append_cons. simpl. destruct (Ascii.eqb a c); [exact IH|].
    rewrite append_cons. reflexivity.
Qed.

Lemma split_app_any (sep : ascii) (s t : string) :
  Py.split sep (s +:+ String sep t) = Py.split sep s ++ Py.split sep t.
Proof.
  induction s as [|a s IH].
  - rewrite append_nil_l. simpl. rewrite Ascii.eqb_refl. reflexivity.
  - rewrite append_cons. simpl. destruct (Ascii.eqb a sep).
    + rewrite IH. reflexivity.
    + rewrite IH. pose proof (split_nonempty sep s) as Hne.
      destruct (Py.split sep s); [congruence | reflexivity].
Qed.

Lemma split_length_lstrip (s : string) :
  length (Py.split "." (Py.lstrip "v" s)) = length (Py.split "." s).
Proof.
  induction s as [|a s IH]; [reflexivity|]. simpl.
  destruct (Ascii.eqb a "v") eqn:Ha; [|reflexivity].
  apply Ascii.eqb_eq in Ha as ->. simpl. rewrite IH.
  pose proof (split_nonempty "." s) as Hne.
  destruct (Py.split "." s); [congruence | reflexivity].
Qed.

(** X15: only the first three components of the base part are read.
    When the base part already has three dot-separated components,
    anything appended to it after a further dot, numeric or not, is
    ignored: the tag parses to the same version, or fails in the same
    way, as without it. *)
Theorem parse_ignores_extra_components (base extra suffix : string) :
  all_chars (is_not "-") base = true ->
  all_chars (is_not "-") extra = true ->
  3 <= length (Py.split "." base) ->
  parse_version (base +:+ "." +:+ extra) = parse_version base /\
  parse_version (base +:+ "." +:+ extra +:+ "-" +:+ suffix)
  = parse_version (base +:+ "-" +:+ suffix).
Proof.
  intros Hbase Hextra Hlen.
  set (b := Py.lstrip "v" base).
  assert (all_chars (is_not "-") b = true) as Hb by (apply lstrip_chars, Hbase).
  assert (3 <= length (Py.split "." b)) as Hlenb
    by (unfold b; rewrite split_length_lstrip; exact Hlen).
  assert (all_chars (is_not "-") (b +:+ "." +:+ extra) = true) as Hbe.
  { rewrite !all_chars_app, Hb, Hextra. reflexivity. }
  assert (Py.slice_to 3 (Py.split "." (b +:+ "." +:+ extra))
          = Py.slice_to 3 (Py.split "." b)) as Hsplit.
  { change (b +:+ "." +:+ extra) with (b +:+ String "." extra).
    rewrite split_app_any. unfold Py.slice_to. apply take_app_le. exact Hlenb. }
  split; unfold parse_version.
  - rewrite (lstrip_app "v" base ("." +:+ extra)) by reflexivity. fold b.
    rewrite (partition_no_sep "-" (b +:+ "." +:+ extra) Hbe).
    rewrite (partition_no_sep "-" b Hb).
    cbv beta iota zeta. rewrite Hsplit. reflexivity.
  - rewrite (lstrip_app "v" base ("." +:+ extra +:+ "-" +:+ suffix))
      by reflexivity.
    rewrite (lstrip_app "v" base ("-" +:+ suffix)) by reflexivity. fold b.
    assert (b +:+ "." +:+ extra +:+ "-" +:+ suffix
            = (b +:+ "." +:+ extra) +:+ String "-" suffix) as ->
      by (rewrite !append_assoc; reflexivity).
    rewrite (partition_app "-" (b +:+ "." +:+ extra) suffix Hbe).
    change (b +:+ "-" +:+ suffix) with (b +:+ String "-" suffix).
    rewrite (partition_app "-" b suffix Hb).
    cbv beta iota zeta. rewrite Hsplit. reflexivity.
Qed.

Lemma parse_ignores_extra_components_witness :
  parse_version ("v9.0.100" +:+ "." +:+ "5.nightly") = parse_version "v9.0.100" /\
  parse_version ("v9.0.100" +:+ "." +:+ "5.nightly" +:+ "-" +:+ "rc.1.2")
  = parse_version ("v9.0.100" +:+ "-" +:+ "rc.1.2").
Proof.
  apply (parse_ignores_extra_components "v9.0.100" "5.nightly" "rc.1.2").
  - reflexivity.
  - reflexivity.
  - simpl. lia.
Defined.

(** ** Interactive selection *)

Lemma filter_and_sort_perm (tags : list release) (prefix : option string)
    (l : list release) :
  filter_and_sort_tags tags prefix = Ok l ->
  l ≡ₚ List.filter (selects prefix) tags.
Proof.
  unfold filter_and_sort_tags.
  pose proof (filter_step tags prefix) as Hstep. cbv zeta in Hstep.
  rewrite Hstep. cbn [mbind result_bind]. unfold sorted_by_version_desc.
  destruct (map_result _ (List.filter (selects prefix) tags))
    as [keyed|] eqn:Hkeyed; [|discriminate].
  simpl. intros [= <-].
  destruct (keyed_tags _ keyed Hkeyed) as [Hsnd _].
  rewrite sort_by_key_desc_perm, Hsnd. reflexivity.
Qed.

Lemma echo_entries_lines (i : nat) (filtered : list release)
    (out out' : list menu_line) (r : result unit) :
  echo_entries i filtered out = (out', r) ->
  (forall x, x ∈ out -> x ∈ out') /\
  (r = Ok tt -> forall j t name, filtered !! j = Some t ->
     t !! "tag_name" = Some name -> TagEntry (i + j) name ∈ out').
Proof.
  revert i out. induction filtered as [|t l IH]; intros i out; simpl.
  - intros [= <- <-]. split; [auto|]. intros _ j t name [=].
  - unfold subscript. destruct (t !! "tag_name") as [n|] eqn:Hn.
    + intros H. destruct (IH _ _ H) as [Hsub Hent]. split.
      * intros x Hx. apply Hsub, elem_of_app. auto.
      * intros Hr [|j] t' name; simpl.
        -- intros [= <-] Hname. rewrite Nat.add_0_r.
           assert (name = n) as -> by congruence.
           apply Hsub, elem_of_app. right. apply list_elem_of_here.
        -- intros Hj Hname. replace (i + S j) with (S i + j) by lia.
           eapply Hent; eassumption.
    + intros [= <- <-]. split; [auto | discriminate].
Qed.

Lemma prompt_loop_result (filtered : list release) (answers : list string)
    (out out' : list menu_line) (name : string) :
  prompt_loop filtered answers out = (out', Some (Ok name)) ->
  (forall x, x ∈ out -> x ∈ out') /\
  (name = "latest" \/
   exists j t, filtered !! j = Some t /\ t !! "tag_name" = Some name).
Proof.
  revert out. induction answers as [|choice answers IH]; intros out; simpl;
    [discriminate|].
  assert (prompt_loop filtered answers (out ++ [InvalidChoice])
          = (out', Some (Ok name)) ->
          (forall x, x ∈ out -> x ∈ out') /\
          (name = "latest" \/
           exists j t, filtered !! j = Some t /\ t !! "tag_name" = Some name))
    as Hnext.
  { intros H. destruct (IH _ H) as [Hsub Hres]. split; [|exact Hres].
    intros x Hx. apply Hsub, elem_of_app. auto. }
  destruct (isdigit choice); [|exact Hnext].
  destruct (Py.int choice) as [index|e]; [|discriminate].
  destruct (decide (index = 0)%Z).
  { intros [= <- <-]. auto. }
  destruct (decide (1 <= index <= Z.of_nat (length filtered))%Z);
    [|exact Hnext].
  intros [= <- H]. split; [auto|]. right.
  unfold list_index in H.
  destruct (filtered !! Z.to_nat (index - 1)) as [t|] eqn:Ht; [|discriminate].
  simpl in H. unfold subscript in H.
  destruct (t !! "tag_name") as [nm|] eqn:Hnm; [|discriminate].
  injection H as <-. eauto.
Qed.

(** X16: [select_tag_interactive] returns only what its menu offers: the
    word ["latest"], or the name of a catalog tag that passed the filter
    and was written as a numbered entry of the menu. *)
Theorem select_tag_interactive_result (tags : list release)
    (filter_prefix : option string) (answers : list string)
    (out : list menu_line) (name : string) :
  select_tag_interactive tags filter_prefix answers = (out, Some (Ok name)) ->
  name = "latest" \/
  exists i t, TagEntry i name ∈ out /\ t ∈ tags /\
    t !! "tag_name" = Some name /\ selects filter_prefix t = true.
Proof.
  unfold select_tag_interactive.
  destruct (filter_and_sort_tags tags filter_prefix) as [filtered|]
    eqn:Hfilter; [|discriminate].
  apply filter_and_sort_perm in Hfilter.
  destruct filtered as [|t0 filtered0] eqn:Hf; [discriminate|].
  rewrite <- Hf in *. clear Hf.
  destruct (echo_entries 1 filtered [AvailableTags; LatestEntry])
    as [out1 [[]|e]] eqn:Hecho; [|discriminate].
  destruct (echo_entries_lines _ _ _ _ _ Hecho) as [_ Hent].
  intros H. destruct (prompt_loop_result _ _ _ _ _ H) as [Hsub [->|Hres]];
    [left; reflexivity|].
  right. destruct Hres as (j & t & Hj & Hname).
  exists (1 + j), t. split.
  - apply Hsub, elem_of_app. left. eapply Hent; eauto.
  - assert (t ∈ filtered) as Hin by (apply list_elem_of_lookup; eauto).
    rewrite Hfilter in Hin. apply elem_of_filter_list in Hin as [? ?]. auto.
Qed.

Lemma select_tag_interactive_result_witness :
  "v9.0.100" = "latest" \/
  exists i t,
    TagEntry i "v9.0.100"
      ∈ [AvailableTags; LatestEntry; TagEntry 1 "v9.0.102";
         TagEntry 2 "v9.0.100"; MenuRule; InvalidChoice; InvalidChoice] /\
    t ∈ [mk_release "v9.0.100"; mk_release "v9.0.102"; mk_release "v8.0.404"] /\
    t !! "tag_name" = Some "v9.0.100" /\ selects (Some "9") t = true.
Proof.
  apply (select_tag_interactive_result
           [mk_release "v9.0.100"; mk_release "v9.0.102"; mk_release "v8.0.404"]
           (Some "9") ["x"; "3"; "2"; "1"]).
  vm_compute. reflexivity.
Defined.

(** ** Fetching the catalog page by page *)

Lemma get_all_tags_loop_pages (fetch_json : string -> result (list release))
    (pages : list (list release)) (r : result (list release)) :
  forall (page fuel : nat) (all_tags : list release),
  (forall i page_data, pages !! i = Some page_data ->
     fetch_json (releases_url (page + i)) = Ok page_data /\ page_data <> []) ->
  fetch_json (releases_url (page + length pages)) = r ->
  (r = Ok [] \/ exists e, r = Raise e) ->
  length pages < fuel ->
  get_all_tags_loop fetch_json fuel page all_tags
  = Some (match r with
          | Ok _ => Ok (all_tags ++ concat pages)
          | Raise e => Raise e
          end).
Proof.
  induction pages as [|pd pages IH]; intros page fuel all_tags Hpages Hlast Hr Hfuel.
  - destruct fuel as [|fuel]; [simpl in Hfuel; lia|]. simpl in *.
    rewrite Nat.add_0_r in Hlast. rewrite Hlast.
    destruct Hr as [->|[e ->]]; [|reflexivity].
    rewrite app_nil_r. reflexivity.
  - destruct fuel as [|fuel]; [simpl in Hfuel; lia|]. simpl in Hfuel.
    cbn [get_all_tags_loop].
    destruct (Hpages 0 pd eq_refl) as [Hpd Hne]. rewrite Nat.add_0_r in Hpd.
    rewrite Hpd. destruct pd as [|x pd]; [congruence|].
    rewrite (IH (page + 1) fuel (all_tags ++ x :: pd)); try assumption; try lia.
    + destruct r; [|reflexivity]. simpl. rewrite <- app_assoc. reflexivity.
    + intros i page_data Hi. replace (page + 1 + i) with (page + S i) by lia.
      apply Hpages. exact Hi.
    + replace (page + 1 + length pages) with (page + S (length pages)) by lia.
      exact Hlast.
Qed.

(** X17: [get_all_tags] requests the pages 1, 2, ... in order and returns
    the releases of all pages before the first empty one, concatenated in
    page order; when a request fails instead, that exception is raised
    and the pages read so far are lost. *)
Theorem get_all_tags_pages (fetch_json : string -> result (list release))
    (pages : list (list release)) (r : result (list release)) (fuel : nat) :
  (forall i page_data, pages !! i = Some page_data ->
     fetch_json (releases_url (1 + i)) = Ok page_data /\ page_data <> []) ->
  fetch_json (releases_url (1 + length pages)) = r ->
  (r = Ok [] \/ exists e, r = Raise e) ->
  length pages < fuel ->
  get_all_tags fetch_json fuel
  = Some (match r with
          | Ok _ => Ok (concat pages)
          | Raise e => Raise e
          end).
Proof.
  intros Hpages Hlast Hr Hfuel. unfold get_all_tags.
  rewrite (get_all_tags_loop_pages fetch_json pages r 1 fuel []); auto.
Qed.

Lemma get_all_tags_pages_witness :
  let fetch_json := fun url =>
    if String.eqb url (releases_url 1)
    then Ok [mk_release "v9.0.102"; mk_release "v9.0.100"]
    else if String.eqb url (releases_url 2) then Ok [mk_release "v8.0.404"]
    else Ok [] in
  get_all_tags fetch_json 5
  = Some (Ok [mk_release "v9.0.102"; mk_release "v9.0.100";
              mk_release "v8.0.404"]).
Proof.
  intros fetch_json.
  apply (get_all_tags_pages fetch_json
           [[mk_release "v9.0.102"; mk_release "v9.0.100"];
            [mk_release "v8.0.404"]] (Ok []) 5).
  - intros [|[|i]] page_data; simpl; try discriminate;
      intros [= <-]; (split; [vm_compute; reflexivity | discriminate]).
  - vm_compute. reflexivity.
  - left. reflexivity.
  - simpl. lia.
Defined.
